(** * PM Updater: ticket extraction, tracker adapters and destination resolution

    A shallow embedding of the TypeScript sources
      - [src/types/index.ts]              (data model, error classes),
      - [src/utils/logger.ts]             (logger),
      - [src/utils/parser.ts]             (ticket extractor),
      - [src/services/jira.ts]            (REST adapter),
      - [src/services/linear.ts]          (GraphQL adapter),
      - [src/services/tracker-factory.ts] (factory),
      - [src/services/slack.ts]           (lookup by email, sending),
      - [src/index.ts]                    (push event, destination
                                           resolution, the run),
    together with the properties the specification states about them and
    further properties of the code.

    Layout: the model, module by module as the sources; the vocabulary of
    the specification and the example data; then the lemmas and, for each
    claim, its theorem.

    JavaScript strings are modelled as [string]; a character stands for one
    code unit.  The patterns of the extractor only ever distinguish ASCII
    letters, digits, [_] and [-], every other code unit is a non-word
    character, so nothing is lost by reading code units as [ascii]. *)

From Stdlib Require Import ZArith Ascii String Lia.
From stdpp Require Import base option list strings pretty gmap.

Local Open Scope nat_scope.
Set Warnings "-clear-no-such-hyp".

(** ** JavaScript truthiness of the values the sources test *)

Module Js.

(** [if (s)] for [s : string | undefined | null]: absent and the empty
    string are falsy. *)
Definition truthy (o : option string) : bool :=
  match o with
  | Some s => negb (String.eqb s "")
  | None => false
  end.

(** [Array.prototype.includes] on an array of strings. *)
Fixpoint includes (l : list string) (x : string) : bool :=
  match l with
  | [] => false
  | y :: l' => String.eqb y x || includes l' x
  end.

(** [String.prototype.startsWith]. *)
Definition startsWith (s p : string) : bool := String.prefix p s.

(** [new Set(array)]: the elements are added one by one; a set keeps
    insertion order and ignores an element it already holds. *)
Definition Set_add (seen : list string) (x : string) : list string :=
  if includes seen x then seen else seen ++ [x].

Definition Set_of (l : list string) : list string :=
  fold_left Set_add l [].

(** What reading a property of a plain object gives where the sources
    expect a string: a string, or a member that every object inherits from
    [Object.prototype] (a function, or for [__proto__] the prototype
    itself), which is no string. *)
Inductive Value : Type :=
| Str (s : string)
| Member (name : string).

(** The names of the members of [Object.prototype]. *)
Definition Object_prototype : list string :=
  [ "constructor"; "__defineGetter__"; "__defineSetter__"; "hasOwnProperty";
    "__lookupGetter__"; "__lookupSetter__"; "isPrototypeOf";
    "propertyIsEnumerable"; "toString"; "valueOf"; "__proto__";
    "toLocaleString" ].

(** [o[k]] for a plain object [o] whose own properties are strings: the own
    property, else the inherited member of that name, else [undefined]. *)
Definition get (o : gmap string string) (k : string) : option Value :=
  match o !! k with
  | Some v => Some (Str v)
  | None => if includes Object_prototype k then Some (Member k) else None
  end.

(** [if (v)]: a function or an object is truthy. *)
Definition truthy_value (v : Value) : bool :=
  match v with
  | Str s => truthy (Some s)
  | Member _ => true
  end.

(** The text of [v] in a template literal. *)
Definition text_of (v : Value) : string :=
  match v with
  | Str s => s
  | Member name =>
      if String.eqb name "__proto__" then "[object Object]"
      else if String.eqb name "constructor"
      then "function Object() { [native code] }"
      else "function " +:+ name +:+ "() { [native code] }"
  end.

End Js.

(** A string is used where a value is expected. *)
Coercion Js.Str : string >-> Js.Value.

(** ** Regular expressions (ECMAScript backtracking semantics)

    The two patterns of [parser.ts] use character sets, sequencing, greedy
    bounded repetition, the word-boundary assertion and the anchors.  The
    matcher below follows the continuation-passing semantics of the language
    standard (22.2.2): a matcher takes the current end index and a
    continuation and yields the final end index or fails. *)

Module Regex.

Inductive CharSet : Type :=
| CsChar (c : ascii)             (* a literal character *)
| CsRange (lo hi : ascii)        (* [lo-hi] *)
| CsDigit.                       (* \d *)

Inductive t : Type :=
| Set_ (cs : CharSet)
| Seq (r1 r2 : t)
| Repeat (r : t) (min : nat) (max : option nat)   (* r{min,max}, greedy *)
| Group (r : t)                                   (* ( r ) *)
| WordBoundary                                    (* \b *)
| Start                                           (* ^ *)
| End_.                                           (* $ *)

Definition code (a : ascii) : nat := nat_of_ascii a.

Definition in_range (lo hi a : ascii) : bool :=
  (code lo <=? code a) && (code a <=? code hi).

Definition is_digit (a : ascii) : bool := in_range "0" "9" a.
Definition is_upper (a : ascii) : bool := in_range "A" "Z" a.
Definition is_lower (a : ascii) : bool := in_range "a" "z" a.

(** The word characters of [\b]: letters, digits and the underscore. *)
Definition is_word_char (a : ascii) : bool :=
  is_upper a || is_lower a || is_digit a || bool_decide (a = "_"%char).

Definition in_set (cs : CharSet) (a : ascii) : bool :=
  match cs with
  | CsChar c => bool_decide (a = c)
  | CsRange lo hi => in_range lo hi a
  | CsDigit => is_digit a
  end.

Definition MatchResult : Type := option nat.
Definition Continuation : Type := nat → MatchResult.
Definition Matcher : Type := nat → Continuation → MatchResult.

(** RepeatMatcher of the standard.  [fuel] bounds the number of
    iterations: every iteration either uses up one of the [min] mandatory
    rounds or, by the empty check, moves the end index forward. *)
Fixpoint RepeatMatcher (fuel : nat) (m : Matcher) (min : nat)
    (max : option nat) (x : nat) (c : Continuation) : MatchResult :=
  match fuel with
  | 0 => None
  | S fuel' =>
      if bool_decide (max = Some 0) then c x else
      let d : Continuation := λ y,
        if bool_decide (min = 0) && bool_decide (y = x) then None
        else RepeatMatcher fuel' m (pred min) (pred <$> max) y c in
      if negb (bool_decide (min = 0)) then m x d
      else match m x d with
           | Some z => Some z
           | None => c x
           end
  end.

Section Matching.

(** The string being matched, as its code units. *)
Variable Input : list ascii.

(** IsWordChar(e): false outside the string. *)
Definition IsWordChar (o : option ascii) : bool :=
  from_option is_word_char false o.

Definition char_before (x : nat) : option ascii :=
  match x with
  | 0 => None
  | S p => Input !! p
  end.

Fixpoint compile (r : t) : Matcher :=
  match r with
  | Set_ cs => λ x c,
      match Input !! x with
      | Some ch => if in_set cs ch then c (S x) else None
      | None => None
      end
  | Seq r1 r2 => λ x c, compile r1 x (λ y, compile r2 y c)
  | Repeat r min max => λ x c,
      RepeatMatcher (S (min + (length Input - x))) (compile r) min max x c
  | Group r => compile r
  | WordBoundary => λ x c,
      if xorb (IsWordChar (char_before x)) (IsWordChar (Input !! x))
      then c x else None
  | Start => λ x c, if bool_decide (x = 0) then c x else None
  | End_ => λ x c, if bool_decide (x = length Input) then c x else None
  end.

(** One attempt at index [x]: the end index of the match, if any. *)
Definition match_at (r : t) (x : nat) : MatchResult :=
  compile r x (λ y, Some y).

(** RegExpBuiltinExec for a global pattern: the first index from
    [lastIndex] on at which the pattern matches, with the end index.
    [n] counts the indices still to try ([lastIndex] up to the length of
    the input, inclusive). *)
Fixpoint RegExpBuiltinExec (r : t) (n : nat) (lastIndex : nat)
    : option (nat * nat) :=
  match n with
  | 0 => None
  | S n' =>
      match match_at r lastIndex with
      | Some e => Some (lastIndex, e)
      | None => RegExpBuiltinExec r n' (S lastIndex)
      end
  end.

Definition exec (r : t) (lastIndex : nat) : option (nat * nat) :=
  RegExpBuiltinExec r (S (length Input) - lastIndex) lastIndex.

(** The loop of [String.prototype.match] with a global pattern: collect
    the matches from [lastIndex] on; after an empty match the index is
    advanced by one.  The index grows in every round, so [fuel] = length
    of the input + 1 is never exhausted.  [match] sets [lastIndex] to 0
    before the loop, so the state a shared pattern object was left in by an
    earlier call does not matter. *)
Fixpoint match_loop (r : t) (fuel : nat) (lastIndex : nat)
    : list (nat * nat) :=
  match fuel with
  | 0 => []
  | S fuel' =>
      match exec r lastIndex with
      | None => []
      | Some (i, e) =>
          (i, e) :: match_loop r fuel' (if bool_decide (e = i) then S e else e)
      end
  end.

Definition match_positions (r : t) : list (nat * nat) :=
  match_loop r (S (length Input)) 0.

Definition slice (ie : nat * nat) : list ascii :=
  take (ie.2 - ie.1) (drop ie.1 Input).

End Matching.

(** [str.match(r)] for a global [r]: [null] when nothing matches, else the
    array of the matched substrings. *)
Definition match_global (r : t) (str : string) : option (list string) :=
  let Input := list_ascii_of_string str in
  match match_positions Input r with
  | [] => None
  | ps => Some (map (λ ie, string_of_list_ascii (slice Input ie)) ps)
  end.

(** [r.test(str)] for a pattern without the global flag. *)
Definition test (r : t) (str : string) : bool :=
  let Input := list_ascii_of_string str in
  bool_decide (is_Some (exec Input r 0)).

End Regex.

(** More of the JavaScript string library, used below. *)

Module JsString.

(** [s.split(sep)] for a one-character separator: the pieces between the
    separators, at least one piece. *)
Fixpoint split (sep : ascii) (s : string) : list string :=
  match s with
  | EmptyString => [EmptyString]
  | String a s' =>
      if bool_decide (a = sep) then EmptyString :: split sep s'
      else match split sep s' with
           | [] => [String a EmptyString]
           | p :: ps => String a p :: ps
           end
  end.

(** [s.split(sep)[0]] *)
Definition first_piece (sep : ascii) (s : string) : string :=
  default EmptyString (head (split sep s)).

(** [s.replace(/\/$/, '')]: drop one trailing slash. *)
Fixpoint strip_trailing_slash (s : string) : string :=
  match s with
  | EmptyString => EmptyString
  | String a EmptyString =>
      if bool_decide (a = "/"%char) then EmptyString else s
  | String a s' => String a (strip_trailing_slash s')
  end.

(** [s.includes(searchString)]: [searchString] occurs in [s]. *)
Definition includes (s searchString : string) : bool :=
  bool_decide (is_Some (String.index 0 searchString s)).

(** [s.replace(searchValue, '')] for a string [searchValue]: the first
    occurrence is taken out. *)
Definition remove_first (searchValue s : string) : string :=
  match String.index 0 searchValue s with
  | Some i =>
      String.substring 0 i s
      +:+ String.substring (i + String.length searchValue)
            (String.length s - (i + String.length searchValue)) s
  | None => s
  end.

(** [o || null] for [o : string | undefined]. *)
Definition or_null (o : option string) : option string :=
  if Js.truthy o then o else None.

End JsString.

(** ** The shared data model ([src/types/index.ts]) *)

Module Types.

Inductive SprintState : Type := active | future | closed.
Inductive CycleState : Type := started | unstarted | completed.

Global Instance SprintState_eq_dec : EqDecision SprintState.
Proof. solve_decision. Defined.
Global Instance CycleState_eq_dec : EqDecision CycleState.
Proof. solve_decision. Defined.

Record Person : Type := { name : string; email : string }.

Record Sprint : Type := { sprint_name : string; sprint_state : SprintState }.
Record Cycle : Type := { cycle_name : string; cycle_state : CycleState }.

(** [interface Issue]; [null] is [None]. *)
Record Issue : Type := {
  id : string;
  key : string;
  summary : string;
  status : string;
  assignee : option Person;
  sprint : option Sprint;
  cycle : option Cycle;
  pmEmail : option string;
  url : string;
}.

Record JiraUser : Type := {
  accountId : string;
  emailAddress : string;
  displayName : string;
}.

Record JiraSprint : Type := {
  js_id : Z;
  js_name : string;
  js_state : SprintState;
  startDate : option string;
  endDate : option string;
  goal : option string;
}.

Record JiraStatus : Type := { st_name : string; statusCategory : string }.

Record JiraFields : Type := {
  f_summary : string;
  f_status : JiraStatus;
  f_assignee : option JiraUser;
  f_reporter : option JiraUser;
  f_sprint : option JiraSprint;          (* absent or null: [None] *)
  customfield_pm : option JiraUser;
}.

Record JiraIssue : Type := {
  ji_id : string;
  ji_key : string;
  fields : JiraFields;
  self : string;
}.

Record LinearState : Type := { ls_name : string; ls_type : string }.
Record LinearTeam : Type := { team_key : string; team_name : string }.

Record LinearCycle : Type := {
  lc_name : string;
  startsAt : string;
  endsAt : string;
  completedAt : option string;
}.

Record LinearIssue : Type := {
  li_id : string;
  identifier : string;
  title : string;
  li_state : LinearState;
  li_assignee : option Person;
  li_cycle : option LinearCycle;
  team : LinearTeam;
  li_url : string;
}.

Record GraphQLError : Type := { gql_message : string }.

(** [LinearGraphQLResponse<{ issue: LinearIssue }>]: [data] may be [null]
    when the request was refused, [errors] may be absent. *)
Record LinearIssueResponse : Type := {
  data : option (option LinearIssue);
  errors : option (list GraphQLError);
}.

Record ParsedCommit : Type := {
  sha : string;
  message : string;
  author : string;
  ticketIds : list string;
}.

Record Commit : Type := {
  commit_id : string;
  commit_message : string;
  commit_author : Person;
}.

(** [z.infer<typeof ConfigSchema>].  The tracker selector is kept as a
    string: the factory has a branch for any other value. *)
Record Config : Type := {
  issueTracker : string;
  jiraBaseUrl : option string;
  jiraEmail : option string;
  jiraApiToken : option string;
  jiraProjectKey : option string;
  linearApiKey : option string;
  linearTeamKey : option string;
  slackBotToken : string;
  slackChannelOrUser : string;
  environment : string;
  pmMapping : option (gmap string string);
  onlyActiveSprint : bool;
  ticketStatusFilter : option (list string);
}.

Inductive Platform : Type := PJira | PLinear.

(** The error classes; [TypeError] is the runtime's own. *)
Inductive Error : Type :=
| ConfigurationError (msg : string)
| IssueTrackerError (platform : Platform) (msg : string)
    (statusCode : option nat) (response : option string)
| SlackApiError (msg : string)
| TypeError (msg : string).

Inductive TrackerName : Type := Tjira | Tlinear | Tunknown.

Global Instance TrackerName_eq_dec : EqDecision TrackerName.
Proof. solve_decision. Defined.

End Types.

Export Types.

(** ** Effects: log, clock, exceptions

    The services log through [utils/logger.ts], read the clock with
    [new Date()], call their HTTP clients and throw.  A computation takes
    the log written so far and the number of clock readings made, and
    yields the new ones with either a thrown error or a value. *)

Module Eff.

Inductive Level : Type :=
  LDebug | LInfo | LWarning | LError | LGroup | LEndGroup.

Global Instance Level_eq_dec : EqDecision Level.
Proof. solve_decision. Defined.

(** One call of [core.debug], [core.info], ...: the level and the text. *)
Record LogEntry : Type := { level : Level; text : string }.

Record State : Type := { log : list LogEntry; ticks : nat }.

Definition M (A : Type) : Type := State → State * (Error + A).

Definition ret {A} (a : A) : M A := λ s, (s, inr a).

Definition bind {A B} (m : M A) (k : A → M B) : M B := λ s,
  match m s with
  | (s', inl e) => (s', inl e)
  | (s', inr a) => k a s'
  end.

Definition throw {A} (e : Error) : M A := λ s, (s, inl e).

(** [try { body } catch (error) { handler }] *)
Definition try_catch {A} (body : M A) (handler : Error → M A) : M A := λ s,
  match body s with
  | (s', inl e) => handler e s'
  | r => r
  end.

Definition write (l : Level) (msg : string) : M unit := λ s,
  ({| log := log s ++ [{| level := l; text := msg |}];
      ticks := ticks s |}, inr tt).

Definition logged (l : Level) (msg : string) (s : State) : Prop :=
  {| level := l; text := msg |} ∈ log s.

(** What a computation run from a state comes to: an error thrown or the
    value returned. *)
Definition result {A} (m : M A) (s : State) : Error + A := (m s).2.

End Eff.

Export Eff.

(** stdpp's monad notations [x ← m; k] and [m;; k] for [M]. *)
Global Instance M_ret : MRet M := @ret.
Global Instance M_bind : MBind M := λ A B k m, bind m k.

(** ** The world outside: what the runtime and the remote services answer *)

Module World.

(** What an axios call comes to: a response body, or a failure with the
    library's message and, when the server answered, the HTTP status and
    body. *)
Inductive Outcome (A : Type) : Type :=
| Response (body : A)
| Failure (msg : string) (status : option nat) (response : option string).
Global Arguments Response {A} body.
Global Arguments Failure {A} msg status response.

Record SlackUser : Type := { user_id : option string }.
Record SlackLookup : Type := { ok : bool; user : option SlackUser }.

Record t : Type := {
  (** [new Date(s).getTime()]; [None] is NaN, an invalid date *)
  Date_parse : string → option Z;
  (** the k-th reading of the clock *)
  clock : nat → Z;
  (** POST /rest/api/3/search with the given JQL *)
  jira_search : string → Outcome (list JiraIssue);
  (** POST /graphql, query GetIssue with the given identifier *)
  linear_issue : string → Outcome LinearIssueResponse;
  (** users.lookupByEmail *)
  slack_lookupByEmail : string → Outcome SlackLookup;
}.

(** [new Date()] *)
Definition now (w : t) : M Z := λ s,
  ({| log := log s; ticks := S (ticks s) |}, inr (clock w (ticks s))).

End World.

Export World(Outcome, Response, Failure).

(** The requests of the adapters that the pipeline does not make: the
    single-issue lookup and the sprints of a board (REST), the search by
    filter and the active cycle of a team (GraphQL). *)

Module Remote.

(** [JiraSprintResponse] *)
Record JiraSprintResponse : Type := {
  values : list JiraSprint;
  sr_maxResults : Z;
  sr_startAt : Z;
  isLast : bool;
}.

(** [LinearGraphQLResponse<{ issues: { nodes: LinearIssue[] } }>]; [nodes]
    is [None] when [data] is [null]. *)
Record LinearSearchResponse : Type := {
  nodes : option (list LinearIssue);
  search_errors : option (list GraphQLError);
}.

(** [LinearGraphQLResponse<{ team: { activeCycle } }>]; [activeCycle] is
    [None] when [data] or [team] is [null], [Some None] when the team has no
    active cycle. *)
Record LinearCycleResponse : Type := {
  activeCycle : option (option LinearCycle);
  cycle_errors : option (list GraphQLError);
}.

Record t : Type := {
  (** GET /rest/api/3/issue/{ticketId} *)
  jira_issue : string → Outcome JiraIssue;
  (** GET /rest/agile/1.0/board/{boardId}/sprint, state active, one result *)
  jira_board_sprints : Z → Outcome JiraSprintResponse;
  (** POST /graphql, query SearchIssues: the identifiers of the [or]
      filter and the key of the team filter, if any *)
  linear_search : list string → option string → Outcome LinearSearchResponse;
  (** POST /graphql, query GetActiveCycle with the given team id *)
  linear_active_cycle : string → Outcome LinearCycleResponse;
}.

End Remote.

(** ** The workflow runtime and the message platform

    What a run does besides logging: the outputs it sets, the failure it
    reports and the messages it hands to the platform's client; and what
    the run is given: the push event, the configuration read from the
    inputs, the answers of the client.  The non-ASCII characters of the
    literals below are written in UTF-8. *)

Module Runtime.

(** The blocks of a message by their [type]; the text of a header is
    [plain_text] with [emoji: true], every other text is [mrkdwn]. *)
Inductive Block : Type :=
| Header (text : string)
| Fields (fields : list string)
| Divider
| Section_ (text : string)
| Context_ (elements : list string).

(** The argument of [chat.postMessage]. *)
Record Message : Type := {
  channel : Js.Value;
  msg_text : string;
  blocks : option (list Block);
  unfurl_links : option bool;
  unfurl_media : option bool;
}.

(** [ChatPostMessageResponse] *)
Record ChatPostMessageResponse : Type := {
  pm_ok : bool;
  pm_error : option string;
  ts : option string;
}.

(** What a call of the platform's client comes to, after its retries: a
    response, or an error thrown with its [code], [message] and
    [data.error]. *)
Inductive Called (A : Type) : Type :=
| Answered (response : A)
| Thrown (code : option string) (msg : string) (data_error : option string).
Global Arguments Answered {A} response.
Global Arguments Thrown {A} code msg data_error.

(** [github.context] *)
Record Context : Type := {
  payload_commits : option (list Commit);
  ref : string;
  context_sha : string;
  actor : string;
  repo_owner : string;
  repo_repo : string;
}.

Record t : Type := {
  (** [chat.postMessage] *)
  chat_postMessage : Message → Called ChatPostMessageResponse;
  (** [conversations.info]: the [ok] of the response *)
  conversations_info : string → Called bool;
  (** [String.prototype.toLowerCase] *)
  toLowerCase : string → string;
  (** [new Date(t).toISOString()] *)
  toISOString : Z → string;
  (** the push event *)
  context : Context;
  (** [loadConfig] of [src/index.ts]: the inputs of the workflow step, read
      and validated by the schema library; it logs, and returns the
      configuration or throws a configuration error *)
  loadConfig : M Config;
}.

(** The value of an output: [core.setOutput] is given a number or a
    string. *)
Inductive OutputValue : Type :=
| OutNumber (n : nat)
| OutString (s : string).

(** The state of a run: the log and the clock as before, the outputs set
    ([core.setOutput]), the failure reported ([core.setFailed]) and the
    calls of [chat.postMessage], each in order. *)
Record RunState : Type := {
  base : State;
  outputs : list (string * OutputValue);
  failed : option string;
  posted : list Message;
}.

(** A thrown value: an error with the [code] and [data.error] it may
    carry. *)
Record Exn : Type := {
  exn_code : option string;
  exn_data_error : option string;
  exn_error : Error;
}.

Definition Act (A : Type) : Type := RunState → RunState * (Exn + A).

Definition act_ret {A} (a : A) : Act A := λ rs, (rs, inr a).

Definition act_bind {A B} (m : Act A) (k : A → Act B) : Act B := λ rs,
  match m rs with
  | (rs', inl e) => (rs', inl e)
  | (rs', inr a) => k a rs'
  end.

Definition act_throw {A} (e : Exn) : Act A := λ rs, (rs, inl e).

(** [try { body } catch (error) { handler }]: what the body did before it
    threw stays done. *)
Definition act_try_catch {A} (body : Act A) (handler : Exn → Act A) : Act A := λ rs,
  match body rs with
  | (rs', inl e) => handler e rs'
  | r => r
  end.

(** A computation that only logs, reads the clock and throws errors of the
    repository's classes, which carry no [code]. *)
Definition lift {A} (m : M A) : Act A := λ rs,
  let '(s', r) := m (base rs) in
  ({| base := s'; outputs := outputs rs; failed := failed rs; posted := posted rs |},
   match r with
   | inl e => inl {| exn_code := None; exn_data_error := None; exn_error := e |}
   | inr a => inr a
   end).

(** [core.setOutput(name, value)] *)
Definition setOutput (name : string) (value : OutputValue) : Act unit := λ rs,
  ({| base := base rs; outputs := outputs rs ++ [(name, value)];
      failed := failed rs; posted := posted rs |}, inr tt).

(** [core.setFailed(message)] *)
Definition setFailed (message : string) : Act unit := λ rs,
  ({| base := base rs; outputs := outputs rs;
      failed := Some message; posted := posted rs |}, inr tt).

(** [await client.chat.postMessage(m)] *)
Definition postMessage (rt : t) (m : Message) : Act ChatPostMessageResponse := λ rs,
  ({| base := base rs; outputs := outputs rs;
      failed := failed rs; posted := posted rs ++ [m] |},
   match chat_postMessage rt m with
   | Answered response => inr response
   | Thrown code msg data_error =>
       inl {| exn_code := code; exn_data_error := data_error;
              exn_error := SlackApiError msg |}
   end).

(** [await client.conversations.info({ channel })] *)
Definition conversationsInfo (rt : t) (channel : string) : Act bool := λ rs,
  (rs,
   match conversations_info rt channel with
   | Answered ok => inr ok
   | Thrown code msg data_error =>
       inl {| exn_code := code; exn_data_error := data_error;
              exn_error := SlackApiError msg |}
   end).

End Runtime.

Export Runtime(Act, act_ret, act_bind, act_throw, act_try_catch, lift,
               setOutput, setFailed, RunState, base, outputs, failed, posted,
               Exn, exn_code, exn_data_error, exn_error,
               OutputValue, OutNumber, OutString).

Global Instance Act_ret : MRet Act := @act_ret.
Global Instance Act_bind : MBind Act := λ A B k m, act_bind m k.

(** ** The logger ([src/utils/logger.ts])

    A logger formats its messages with its context and hands them to the
    workflow runtime.  The stack trace that [error] adds at debug level is
    the runtime's and is left out. *)

Module Logger.

Definition error_message (e : Error) : string :=
  match e with
  | ConfigurationError msg => msg
  | IssueTrackerError _ msg _ _ => msg
  | SlackApiError msg => msg
  | TypeError msg => msg
  end.

Definition formatMessage (context message : string) : string :=
  "[" +:+ context +:+ "] " +:+ message.

Definition info (context message : string) : M unit :=
  write LInfo (formatMessage context message).
Definition debug (context message : string) : M unit :=
  write LDebug (formatMessage context message).
Definition warning (context message : string) : M unit :=
  write LWarning (formatMessage context message).
Definition error (context message : string) (err : option Error) : M unit :=
  write LError
    match err with
    | Some e => formatMessage context message +:+ ": " +:+ error_message e
    | None => formatMessage context message
    end.
(** [error] given the error of a library, of which it reads the message. *)
Definition error_of (context message error_message : string) : M unit :=
  write LError (formatMessage context message +:+ ": " +:+ error_message).
Definition group (context name : string) : M unit :=
  write LGroup (formatMessage context name).
Definition endGroup : M unit := write LEndGroup "".

End Logger.

(** ** The ticket extractor ([src/utils/parser.ts]) *)

Module Parser.
Import Regex.

Definition upper2to10 : Regex.t := Repeat (Set_ (CsRange "A" "Z")) 2 (Some 10).
Definition digits1 : Regex.t := Repeat (Set_ CsDigit) 1 None.
Definition ticket_body : Regex.t :=
  Seq upper2to10 (Seq (Set_ (CsChar "-")) digits1).

(** [/\b([A-Z]{2,10}-\d+)\b/g] *)
Definition ISSUE_ID_PATTERN : Regex.t :=
  Seq WordBoundary (Seq (Group ticket_body) WordBoundary).

(** [/^[A-Z]{2,10}-\d+$/] *)
Definition VALID_ID_PATTERN : Regex.t :=
  Seq Start (Seq ticket_body End_).

Definition extractTicketIds (message : string) : list string :=
  match match_global ISSUE_ID_PATTERN message with
  | None => []
  | Some matches => Js.Set_of matches
  end.

Definition newline : ascii := "010"%char.

Definition parse_one (projectKey : option string) (commit : Commit)
    : M (option ParsedCommit) :=
  let ids := extractTicketIds (commit_message commit) in
  let filteredTickets :=
    if Js.truthy projectKey
    then filter (λ id, Js.startsWith id (default "" projectKey +:+ "-")) ids
    else ids in
  if bool_decide (0 < length filteredTickets) then
    write LDebug
      ("Found " +:+ pretty (length filteredTickets) +:+ " issue(s) in commit "
       +:+ String.substring 0 7 (commit_id commit) +:+ ": "
       +:+ String.concat ", " filteredTickets);;
    mret (Some {| sha := commit_id commit;
                  message := JsString.first_piece newline (commit_message commit);
                  author := name (commit_author commit);
                  ticketIds := filteredTickets |})
  else mret None.

(** The loop of [parseCommits]; [parsedCommits] is the array built so far. *)
Fixpoint parse_loop (projectKey : option string) (commits : list Commit)
    (parsedCommits : list ParsedCommit) : M (list ParsedCommit) :=
  match commits with
  | [] => mret parsedCommits
  | commit :: rest =>
      p ← parse_one projectKey commit;
      parse_loop projectKey rest
        match p with
        | Some pc => parsedCommits ++ [pc]
        | None => parsedCommits
        end
  end.

Definition parseCommits (commits : list Commit) (projectKey : option string)
    : M (list ParsedCommit) :=
  parse_loop projectKey commits [].

Definition getAllTicketIds (parsedCommits : list ParsedCommit) : list string :=
  Js.Set_of (concat (map ticketIds parsedCommits)).

Definition isValidTicketId (ticketId : string) : bool :=
  test VALID_ID_PATTERN ticketId.

Definition detectIssueTracker (issueId : string) : TrackerName :=
  if negb (isValidTicketId issueId) then Tunknown
  else
    let prefix := JsString.first_piece "-" issueId in
    if bool_decide (String.length prefix ≤ 4) then Tunknown
    else Tjira.

End Parser.

(** ** The REST adapter ([src/services/jira.ts]) *)

Module Jira.

Definition ctx : string := "JiraService".

Record JiraService : Type := {
  baseUrl : string;
  username : string;
  password : string;
}.

Definition new (baseUrl email apiToken : string) : JiraService :=
  {| baseUrl := JsString.strip_trailing_slash baseUrl;
     username := email;
     password := apiToken |}.

(** A request through the client: the request interceptor logs the URL,
    the response interceptor logs a failure, with the error of the HTTP
    library, and throws it as a [JiraApiError]. *)
Definition request {A} (url : string) (o : Outcome A) : M A :=
  Logger.debug ctx ("Making request to " +:+ url);;
  match o with
  | Response body => mret body
  | Failure msg statusCode response =>
      let message := "Jira API error: " +:+ msg in
      Logger.error_of ctx message msg;;
      throw (IssueTrackerError PJira message statusCode response)
  end.

Definition getIssueUrl (this : JiraService) (ticketId : string) : string :=
  baseUrl this +:+ "/browse/" +:+ ticketId.

Definition getJiraPmEmail (jiraIssue : JiraIssue) : M (option string) :=
  if Js.truthy (emailAddress <$> customfield_pm (fields jiraIssue))
  then mret (emailAddress <$> customfield_pm (fields jiraIssue))
  else if Js.truthy (emailAddress <$> f_reporter (fields jiraIssue))
  then mret (emailAddress <$> f_reporter (fields jiraIssue))
  else
    Logger.debug ctx ("No PM email found for issue " +:+ ji_key jiraIssue);;
    mret None.

Definition convertToGenericIssue (this : JiraService) (jiraIssue : JiraIssue)
    : M Issue :=
  pm ← getJiraPmEmail jiraIssue;
  mret {|
    id := ji_id jiraIssue;
    key := ji_key jiraIssue;
    summary := f_summary (fields jiraIssue);
    status := st_name (f_status (fields jiraIssue));
    assignee :=
      match f_assignee (fields jiraIssue) with
      | Some a => Some {| name := displayName a; email := emailAddress a |}
      | None => None
      end;
    sprint :=
      match f_sprint (fields jiraIssue) with
      | Some sp => Some {| sprint_name := js_name sp; sprint_state := js_state sp |}
      | None => None
      end;
    cycle := None;
    pmEmail := pm;
    url := getIssueUrl this (ji_key jiraIssue);
  |}.

Definition getJiraIssues (w : World.t) (this : JiraService)
    (ticketIds : list string) : M (list JiraIssue) :=
  if bool_decide (length ticketIds = 0) then mret []
  else
    let jql := "key in (" +:+ String.concat "," ticketIds +:+ ")" in
    request "/rest/api/3/search" (World.jira_search w jql).

(** [jiraIssues.map((issue) => this.convertToGenericIssue(issue))] *)
Fixpoint convert_all (this : JiraService) (jiraIssues : list JiraIssue)
    : M (list Issue) :=
  match jiraIssues with
  | [] => mret []
  | issue :: rest =>
      i ← convertToGenericIssue this issue;
      others ← convert_all this rest;
      mret (i :: others)
  end.

Definition getIssues (w : World.t) (this : JiraService)
    (ticketIds : list string) : M (list Issue) :=
  if bool_decide (length ticketIds = 0) then mret []
  else
    try_catch
      (Logger.group ctx
         ("Fetching " +:+ pretty (length ticketIds) +:+ " issues from Jira");;
       jiraIssues ← getJiraIssues w this ticketIds;
       issues ← convert_all this jiraIssues;
       Logger.info ctx ("Found " +:+ pretty (length issues) +:+ " issues");;
       Logger.endGroup;;
       mret issues)
      (λ error,
         Logger.error ctx "Failed to get issues" (Some error);;
         Logger.endGroup;;
         mret []).

Definition sprint_state_name (s : SprintState) : string :=
  match s with active => "active" | future => "future" | closed => "closed" end.

Definition isInActiveSprint (issue : Issue) : M bool :=
  match sprint issue with
  | None =>
      Logger.debug ctx ("Issue " +:+ key issue +:+ " has no sprint assigned");;
      mret false
  | Some sprint =>
      let isActive := bool_decide (sprint_state sprint = active) in
      Logger.debug ctx
        ("Issue " +:+ key issue +:+ " sprint status: " +:+ sprint_name sprint
         +:+ " (" +:+ sprint_state_name (sprint_state sprint) +:+ ")");;
      mret isActive
  end.

Definition filterByStatus (issues : list Issue)
    (allowedStatuses : option (list string)) : M (list Issue) :=
  match allowedStatuses with
  | None => mret issues
  | Some allowed =>
      if bool_decide (length allowed = 0) then mret issues
      else
        let filtered := filter (λ issue, Js.includes allowed (status issue)) issues in
        Logger.info ctx
          ("Filtered " +:+ pretty (length issues) +:+ " issues to "
           +:+ pretty (length filtered) +:+ " by status: "
           +:+ String.concat ", " allowed);;
        mret filtered
  end.

Definition getPmEmail (issue : Issue) : M (option string) :=
  mret (pmEmail issue).

(** [error.statusCode] of what was caught. *)
Definition statusCode_of (e : Error) : option nat :=
  match e with
  | IssueTrackerError _ _ statusCode _ => statusCode
  | _ => None
  end.

Definition getIssue (r : Remote.t) (this : JiraService) (ticketId : string)
    : M (option JiraIssue) :=
  try_catch
    (jiraIssue ← request ("/rest/api/3/issue/" +:+ ticketId)
                   (Remote.jira_issue r ticketId);
     Logger.debug ctx
       ("Retrieved issue " +:+ ticketId +:+ ": " +:+ f_summary (fields jiraIssue));;
     mret (Some jiraIssue))
    (λ error,
       if bool_decide (statusCode_of error = Some 404) then
         Logger.warning ctx ("Issue " +:+ ticketId +:+ " not found");;
         mret None
       else
         Logger.error ctx ("Failed to get issue " +:+ ticketId) (Some error);;
         mret None).

(** [boardId?: number]: absent and 0 are falsy.  A board id is an integer
    that the runtime prints in digits (below 10^21). *)
Definition getActiveSprint (r : Remote.t) (this : JiraService)
    (boardId : option Z) : M (option JiraSprint) :=
  try_catch
    (match boardId with
     | Some b =>
         if bool_decide (b = 0%Z) then
           Logger.debug ctx "No board ID provided, will extract sprint from issues";;
           mret None
         else
           response ← request ("/rest/agile/1.0/board/" +:+ pretty b +:+ "/sprint")
                        (Remote.jira_board_sprints r b);
           let activeSprints :=
             filter (λ sprint, js_state sprint = active) (Remote.values response) in
           match activeSprints with
           | [] =>
               Logger.warning ctx ("No active sprint found for board " +:+ pretty b);;
               mret None
           | sprint :: _ =>
               Logger.info ctx
                 ("Found active sprint: " +:+ js_name sprint
                  +:+ " (ID: " +:+ pretty (js_id sprint) +:+ ")");;
               mret (Some sprint)
           end
     | None =>
         Logger.debug ctx "No board ID provided, will extract sprint from issues";;
         mret None
     end)
    (λ error,
       Logger.error ctx "Failed to get active sprint" (Some error);;
       mret None).

End Jira.

(** ** The GraphQL adapter ([src/services/linear.ts]) *)

Module Linear.

Definition ctx : string := "LinearService".

Record LinearService : Type := {
  apiKey : string;
  teamKey : option string;
}.

Definition new (apiKey : string) (teamKey : option string) : LinearService :=
  {| apiKey := apiKey; teamKey := teamKey |}.

(** A request through the client: the response interceptor logs a
    failure, with the error of the HTTP library, and throws it as a
    [LinearApiError]. *)
Definition request {A} (o : Outcome A) : M A :=
  match o with
  | Response body => mret body
  | Failure msg statusCode response =>
      let message := "Linear API error: " +:+ msg in
      Logger.error_of ctx message msg;;
      throw (IssueTrackerError PLinear message statusCode response)
  end.

(** Comparison of two dates by [<], [>=], [<=]: of their time values,
    false as soon as one is NaN. *)
Definition date_lt (a b : option Z) : bool :=
  match a, b with
  | Some x, Some y => bool_decide (x < y)%Z
  | _, _ => false
  end.
Definition date_le (a b : option Z) : bool :=
  match a, b with
  | Some x, Some y => bool_decide (x ≤ y)%Z
  | _, _ => false
  end.
Definition date_ge (a b : option Z) : bool := date_le b a.

Definition getCycleState (w : World.t) (cycle : option LinearCycle)
    : M CycleState :=
  match cycle with
  | None => mret unstarted
  | Some cycle =>
      t ← World.now w;
      let now := Some t in
      let startsAt := World.Date_parse w (startsAt cycle) in
      let endsAt := World.Date_parse w (endsAt cycle) in
      if Js.truthy (completedAt cycle) then mret completed
      else if date_lt now startsAt then mret unstarted
      else if date_ge now startsAt && date_le now endsAt then mret started
      else mret completed
  end.

Definition convertToGenericIssue (w : World.t) (linearIssue : LinearIssue)
    : M Issue :=
  c ← match li_cycle linearIssue with
      | Some lc =>
          st ← getCycleState w (Some lc);
          mret (Some {| cycle_name := lc_name lc; cycle_state := st |})
      | None => mret None
      end;
  mret {|
    id := li_id linearIssue;
    key := identifier linearIssue;
    summary := title linearIssue;
    status := ls_name (li_state linearIssue);
    assignee :=
      match li_assignee linearIssue with
      | Some a => Some {| name := name a; email := email a |}
      | None => None
      end;
    sprint := None;
    cycle := c;
    pmEmail := None;
    url := li_url linearIssue;
  |}.

(** The text of [JSON.stringify(errors)] is not modelled: the warning
    keeps the identifier only. *)
Definition getIssue (w : World.t) (this : LinearService) (identifier : string)
    : M (option Issue) :=
  try_catch
    (response ← request (World.linear_issue w identifier);
     if bool_decide (is_Some (errors response)) then
       Logger.warning ctx ("GraphQL errors for " +:+ identifier);;
       mret None
     else
       match data response with
       | None => throw (TypeError "Cannot read properties of null (reading 'issue')")
       | Some None =>
           Logger.warning ctx ("Issue " +:+ identifier +:+ " not found");;
           mret None
       | Some (Some linearIssue) =>
           if Js.truthy (teamKey this)
              && negb (bool_decide (Some (team_key (team linearIssue)) = teamKey this))
           then
             Logger.debug ctx
               ("Issue " +:+ identifier +:+ " is not in team "
                +:+ default "" (teamKey this) +:+ ", skipping");;
             mret None
           else
             Logger.debug ctx
               ("Retrieved issue " +:+ identifier +:+ ": " +:+ title linearIssue);;
             issue ← convertToGenericIssue w linearIssue;
             mret (Some issue)
       end)
    (λ error,
       Logger.error ctx ("Failed to get issue " +:+ identifier) (Some error);;
       mret None).

(** The loop of [getIssues]; [issues] is the array built so far. *)
Fixpoint fetch_loop (w : World.t) (this : LinearService)
    (issueIds : list string) (issues : list Issue) : M (list Issue) :=
  match issueIds with
  | [] => mret issues
  | issueId :: rest =>
      issue ← getIssue w this issueId;
      fetch_loop w this rest
        match issue with
        | Some i => issues ++ [i]
        | None => issues
        end
  end.

Definition getIssues (w : World.t) (this : LinearService)
    (issueIds : list string) : M (list Issue) :=
  if bool_decide (length issueIds = 0) then mret []
  else
    try_catch
      (Logger.group ctx
         ("Fetching " +:+ pretty (length issueIds) +:+ " issues from Linear");;
       issues ← fetch_loop w this issueIds [];
       Logger.info ctx ("Found " +:+ pretty (length issues) +:+ " issues");;
       Logger.endGroup;;
       mret issues)
      (λ error,
         Logger.error ctx "Failed to get issues" (Some error);;
         Logger.endGroup;;
         mret []).

Definition cycle_state_name (s : CycleState) : string :=
  match s with
  | started => "started" | unstarted => "unstarted" | completed => "completed"
  end.

Definition isInActiveSprint (issue : Issue) : M bool :=
  match cycle issue with
  | None =>
      Logger.debug ctx ("Issue " +:+ key issue +:+ " has no cycle assigned");;
      mret false
  | Some cycle =>
      let isActive := bool_decide (cycle_state cycle = started) in
      Logger.debug ctx
        ("Issue " +:+ key issue +:+ " cycle status: " +:+ cycle_name cycle
         +:+ " (" +:+ cycle_state_name (cycle_state cycle) +:+ ")");;
      mret isActive
  end.

Definition filterByStatus (issues : list Issue)
    (allowedStatuses : option (list string)) : M (list Issue) :=
  match allowedStatuses with
  | None => mret issues
  | Some allowed =>
      if bool_decide (length allowed = 0) then mret issues
      else
        let filtered := filter (λ issue, Js.includes allowed (status issue)) issues in
        Logger.info ctx
          ("Filtered " +:+ pretty (length issues) +:+ " issues to "
           +:+ pretty (length filtered) +:+ " by status: "
           +:+ String.concat ", " allowed);;
        mret filtered
  end.

Definition getPmEmail (issue : Issue) : M (option string) :=
  Logger.debug ctx
    ("No PM email found for issue " +:+ key issue
     +:+ " (Linear doesn't have built-in PM field)");;
  mret (pmEmail issue).

Definition getIssueUrl (issueId : string) : string :=
  "https://linear.app/issue/" +:+ issueId.

(** [linearIssues.map((issue) => this.convertToGenericIssue(issue))] *)
Fixpoint convert_all (w : World.t) (linearIssues : list LinearIssue)
    : M (list Issue) :=
  match linearIssues with
  | [] => mret []
  | issue :: rest =>
      i ← convertToGenericIssue w issue;
      others ← convert_all w rest;
      mret (i :: others)
  end.

(** The team filter is part of the query; what comes back is converted as
    it is.  The text of [JSON.stringify(errors)] is not modelled. *)
Definition searchIssues (w : World.t) (r : Remote.t) (this : LinearService)
    (identifiers : list string) : M (list Issue) :=
  if bool_decide (length identifiers = 0) then mret []
  else
    let team := if Js.truthy (teamKey this) then teamKey this else None in
    try_catch
      (response ← request (Remote.linear_search r identifiers team);
       if bool_decide (is_Some (Remote.search_errors response)) then
         Logger.warning ctx "GraphQL errors";;
         mret []
       else
         match Remote.nodes response with
         | None => throw (TypeError "Cannot read properties of null (reading 'issues')")
         | Some linearIssues =>
             Logger.info ctx
               ("Found " +:+ pretty (length linearIssues) +:+ " issues via search");;
             convert_all w linearIssues
         end)
      (λ error,
         Logger.error ctx "Failed to search issues" (Some error);;
         mret []).

Definition getActiveCycle (r : Remote.t) (this : LinearService) (teamId : string)
    : M (option LinearCycle) :=
  try_catch
    (response ← request (Remote.linear_active_cycle r teamId);
     if bool_decide (is_Some (Remote.cycle_errors response)) then
       Logger.warning ctx "GraphQL errors";;
       mret None
     else
       match Remote.activeCycle response with
       | None => throw (TypeError "Cannot read properties of null (reading 'team')")
       | Some None => mret None
       | Some (Some activeCycle) =>
           Logger.info ctx ("Found active cycle: " +:+ lc_name activeCycle);;
           mret (Some activeCycle)
       end)
    (λ error,
       Logger.error ctx "Failed to get active cycle" (Some error);;
       mret None).

End Linear.

(** ** The factory ([src/services/tracker-factory.ts]) *)

Module Factory.

Definition ctx : string := "TrackerFactory".

(** [interface IssueTrackerService] with its two implementations. *)
Inductive IssueTrackerService : Type :=
| JiraTracker (s : Jira.JiraService)
| LinearTracker (s : Linear.LinearService).

Definition getIssues (w : World.t) (t : IssueTrackerService)
    (issueIds : list string) : M (list Issue) :=
  match t with
  | JiraTracker s => Jira.getIssues w s issueIds
  | LinearTracker s => Linear.getIssues w s issueIds
  end.

Definition isInActiveSprint (t : IssueTrackerService) (issue : Issue) : M bool :=
  match t with
  | JiraTracker _ => Jira.isInActiveSprint issue
  | LinearTracker _ => Linear.isInActiveSprint issue
  end.

Definition filterByStatus (t : IssueTrackerService) (issues : list Issue)
    (allowedStatuses : option (list string)) : M (list Issue) :=
  match t with
  | JiraTracker _ => Jira.filterByStatus issues allowedStatuses
  | LinearTracker _ => Linear.filterByStatus issues allowedStatuses
  end.

Definition getPmEmail (t : IssueTrackerService) (issue : Issue)
    : M (option string) :=
  match t with
  | JiraTracker _ => Jira.getPmEmail issue
  | LinearTracker _ => Linear.getPmEmail issue
  end.

Definition quote : string := String "034"%char EmptyString.

Definition required_for (field tracker : string) : string :=
  field +:+ " is required when issue_tracker is " +:+ quote +:+ tracker +:+ quote.

(** [if (!value) throw new ConfigurationError(message)]; past the check
    the value is a non-empty string. *)
Definition require (value : option string) (message : string) : M string :=
  match value with
  | Some v => if Js.truthy value then mret v else throw (ConfigurationError message)
  | None => throw (ConfigurationError message)
  end.

Definition createJiraService (config : Config) : M Jira.JiraService :=
  jiraBaseUrl ← require (jiraBaseUrl config) (required_for "jira_base_url" "jira");
  jiraEmail ← require (jiraEmail config) (required_for "jira_email" "jira");
  jiraApiToken ← require (jiraApiToken config) (required_for "jira_api_token" "jira");
  Logger.info ctx ("Initializing Jira service: " +:+ jiraBaseUrl);;
  mret (Jira.new jiraBaseUrl jiraEmail jiraApiToken).

Definition createLinearService (config : Config) : M Linear.LinearService :=
  linearApiKey ← require (linearApiKey config) (required_for "linear_api_key" "linear");
  Logger.info ctx "Initializing Linear service";;
  (if Js.truthy (linearTeamKey config)
   then Logger.info ctx ("Filtering by Linear team: " +:+ default "" (linearTeamKey config))
   else mret tt);;
  mret (Linear.new linearApiKey (linearTeamKey config)).

Definition createIssueTracker (config : Config) : M IssueTrackerService :=
  Logger.info ctx ("Creating " +:+ issueTracker config +:+ " issue tracker service");;
  if String.eqb (issueTracker config) "jira" then
    (s ← createJiraService config; mret (JiraTracker s))
  else if String.eqb (issueTracker config) "linear" then
    (s ← createLinearService config; mret (LinearTracker s))
  else
    throw (ConfigurationError ("Unknown issue tracker: " +:+ issueTracker config)).

Definition getProjectKey (config : Config) : option string :=
  if String.eqb (issueTracker config) "jira" then jiraProjectKey config
  else if String.eqb (issueTracker config) "linear" then linearTeamKey config
  else None.

End Factory.

(** ** The message platform's lookup ([src/services/slack.ts]) *)

Module Slack.

Definition ctx : string := "SlackService".

(** A call of the platform's client throws when it fails. *)
Definition call {A} (o : Outcome A) : M A :=
  match o with
  | Response body => mret body
  | Failure msg _ _ => throw (SlackApiError msg)
  end.

Definition getUserIdByEmail (w : World.t) (email : string) : M (option string) :=
  try_catch
    (response ← call (World.slack_lookupByEmail w email);
     match World.user response with
     | Some user =>
         if negb (World.ok response) then
           Logger.warning ctx ("User not found for email: " +:+ email);;
           mret None
         else
           Logger.debug ctx
             ("Found user " +:+ default "undefined" (World.user_id user)
              +:+ " for email " +:+ email);;
           mret (World.user_id user)
     | None =>
         Logger.warning ctx ("User not found for email: " +:+ email);;
         mret None
     end)
    (λ error,
       Logger.error ctx ("Failed to lookup user by email: " +:+ email) (Some error);;
       mret None).

(** [NotificationData] *)
Record NotificationData : Type := {
  n_ticket : string;
  n_summary : string;
  n_status : string;
  n_sprint : option string;
  n_cycle : option string;
  n_url : string;
  n_assignee : option string;
}.

(** The [metadata] of a notification. *)
Record Metadata : Type := {
  branch : string;
  m_environment : string;
  deployedBy : string;
  commitSha : string;
  repoUrl : string;
}.

Definition getStatusEmoji (rt : Runtime.t) (status : string) : string :=
  let statusLower := Runtime.toLowerCase rt status in
  if JsString.includes statusLower "done" || JsString.includes statusLower "complete"
  then "✅"
  else if JsString.includes statusLower "progress"
          || JsString.includes statusLower "development"
  then "🔄"
  else if JsString.includes statusLower "review" || JsString.includes statusLower "testing"
  then "👀"
  else if JsString.includes statusLower "todo" || JsString.includes statusLower "backlog"
  then "📋"
  else if JsString.includes statusLower "blocked"
  then "🚫"
  else "📌".

Definition line_feed : string := String "010"%char EmptyString.

Definition iterationText (notification : NotificationData) : string :=
  if Js.truthy (n_sprint notification)
  then "Sprint: " +:+ default "" (n_sprint notification)
  else if Js.truthy (n_cycle notification)
  then "Cycle: " +:+ default "" (n_cycle notification)
  else "No sprint/cycle".

(** The block pushed for one ticket. *)
Definition ticket_block (rt : Runtime.t) (notification : NotificationData)
    : Runtime.Block :=
  let statusEmoji := getStatusEmoji rt (n_status notification) in
  Runtime.Section_
    ("*<" +:+ n_url notification +:+ "|" +:+ n_ticket notification +:+ ">* - "
     +:+ n_summary notification +:+ line_feed
     +:+ statusEmoji +:+ " " +:+ n_status notification +:+ " | "
     +:+ iterationText notification
     +:+ (if Js.truthy (n_assignee notification)
          then " | Assignee: " +:+ default "" (n_assignee notification)
          else "")).

(** [${n} ticket${n !== 1 ? 's' : ''}] *)
Definition tickets (n : nat) : string :=
  pretty n +:+ " ticket" +:+ (if bool_decide (n ≠ 1) then "s" else "").

Definition createMessageBlocks (w : World.t) (rt : Runtime.t)
    (notifications : list NotificationData) (metadata : Metadata)
    : M (list Runtime.Block) :=
  let blocks :=
    [ Runtime.Header "🚀 New Deployment Ready for Testing";
      Runtime.Fields
        [ "*Branch:*" +:+ line_feed +:+ branch metadata;
          "*Environment:*" +:+ line_feed +:+ m_environment metadata;
          "*Deployed by:*" +:+ line_feed +:+ deployedBy metadata;
          "*Commit:*" +:+ line_feed +:+ "<" +:+ repoUrl metadata +:+ "/commit/"
          +:+ commitSha metadata +:+ "|"
          +:+ String.substring 0 7 (commitSha metadata) +:+ ">" ];
      Runtime.Divider;
      Runtime.Section_ "*Tickets Ready for Testing:*" ] in
  let blocks :=
    fold_left (λ blocks notification, blocks ++ [ticket_block rt notification])
      notifications blocks in
  now ← World.now w;
  date ← World.now w;
  mret (blocks ++
        [ Runtime.Divider;
          Runtime.Context_
            [ "_" +:+ tickets (length notifications)
              +:+ " deployed at <!date^" +:+ pretty (now / 1000)%Z
              +:+ "^{date_short_pretty} at {time}|"
              +:+ Runtime.toISOString rt date +:+ ">_" ] ]).

Definition sendNotification (w : World.t) (rt : Runtime.t)
    (channelOrUserId : Js.Value) (notifications : list NotificationData)
    (metadata : Metadata) : Act (option string) :=
  act_try_catch
    (lift (Logger.group ctx "Sending Slack notification");;
     lift (Logger.info ctx ("Channel/User: " +:+ Js.text_of channelOrUserId));;
     lift (Logger.info ctx ("Notifications: " +:+ pretty (length notifications)));;
     blocks ← lift (createMessageBlocks w rt notifications metadata);
     response ← Runtime.postMessage rt
       {| Runtime.channel := channelOrUserId;
          Runtime.msg_text :=
            "🚀 " +:+ tickets (length notifications) +:+ " deployed to "
            +:+ m_environment metadata;
          Runtime.blocks := Some blocks;
          Runtime.unfurl_links := Some false;
          Runtime.unfurl_media := Some false |};
     if negb (Runtime.pm_ok response) then
       act_throw {| exn_code := Runtime.pm_error response;
                    exn_data_error := None;
                    exn_error := SlackApiError "Failed to send Slack message" |}
     else
       lift (Logger.info ctx
               ("Message sent successfully (ts: "
                +:+ default "undefined" (Runtime.ts response) +:+ ")"));;
       lift Logger.endGroup;;
       mret (Runtime.ts response))
    (λ error,
       lift (Logger.error ctx "Failed to send Slack notification"
               (Some (exn_error error)));;
       lift Logger.endGroup;;
       if bool_decide (exn_code error = Some "slack_webapi_platform_error") then
         act_throw
           {| exn_code := exn_data_error error;
              exn_data_error := None;
              exn_error :=
                SlackApiError
                  ("Slack API error: " +:+ Logger.error_message (exn_error error)) |}
       else act_throw error).

Definition sendSimpleMessage (rt : Runtime.t) (channelOrUserId text : string)
    : Act (option string) :=
  act_try_catch
    (response ← Runtime.postMessage rt
       {| Runtime.channel := channelOrUserId;
          Runtime.msg_text := text;
          Runtime.blocks := None;
          Runtime.unfurl_links := None;
          Runtime.unfurl_media := None |};
     if negb (Runtime.pm_ok response) then
       act_throw {| exn_code := Runtime.pm_error response;
                    exn_data_error := None;
                    exn_error := SlackApiError "Failed to send Slack message" |}
     else mret (Runtime.ts response))
    (λ error,
       lift (Logger.error ctx "Failed to send simple message" (Some (exn_error error)));;
       act_throw error).

Definition validateAccess (rt : Runtime.t) (channelOrUserId : string) : Act bool :=
  act_try_catch
    (Runtime.conversationsInfo rt channelOrUserId)
    (λ error,
       lift (Logger.warning ctx
               ("Cannot access channel/user " +:+ channelOrUserId +:+ ": "
                +:+ Logger.error_message (exn_error error)));;
       mret false).

End Slack.

(** ** Destination resolution ([src/index.ts]) *)

Module Main.

Definition ctx : string := "Main".

(** [config.pmMapping[projectKey]] under the guard
    [config.pmMapping && Object.keys(config.pmMapping).length > 0 && projectKey];
    [None] when the guard fails or the object has no such property, its
    own or inherited. *)
Definition projectMapping (config : Config) (projectKey : option string)
    : option Js.Value :=
  match pmMapping config, projectKey with
  | Some mapping, Some k =>
      if bool_decide (0 < size mapping) && Js.truthy projectKey
      then Js.get mapping k
      else None
  | _, _ => None
  end.

Definition fallback (config : Config) : M Js.Value :=
  Logger.info ctx "Using configured Slack channel/user";;
  mret (Js.Str (slackChannelOrUser config)).

(** The second and third steps: the PM of the first issue, else the
    configured channel or user. *)
Definition from_first_issue (w : World.t) (issues : list Issue)
    (config : Config) (trackerService : Factory.IssueTrackerService)
    : M Js.Value :=
  match issues with
  | issue0 :: _ =>
      pmEmail ← Factory.getPmEmail trackerService issue0;
      if Js.truthy pmEmail then
        Logger.info ctx ("Found PM email from issue: " +:+ default "" pmEmail);;
        slackUserId ← Slack.getUserIdByEmail w (default "" pmEmail);
        if Js.truthy slackUserId then mret (Js.Str (default "" slackUserId))
        else fallback config
      else fallback config
  | [] => fallback config
  end.

Definition resolveSlackTarget (w : World.t) (issues : list Issue)
    (config : Config) (trackerService : Factory.IssueTrackerService)
    : M Js.Value :=
  let projectKey := Factory.getProjectKey config in
  match projectMapping config projectKey with
  | Some target =>
      if Js.truthy_value target then
        Logger.info ctx
          ("Using PM mapping for " +:+ issueTracker config +:+ " project "
           +:+ default "" projectKey +:+ ": " +:+ Js.text_of target);;
        mret target
      else from_first_issue w issues config trackerService
  | None => from_first_issue w issues config trackerService
  end.

(** What [getCommitInfo] returns. *)
Record CommitInfo : Type := {
  commits : list Commit;
  ci_branch : string;
  ci_sha : string;
  ci_actor : string;
  ci_repo : string * string;
}.

Definition getCommitInfo (rt : Runtime.t) : M CommitInfo :=
  let context := Runtime.context rt in
  let commits := default [] (Runtime.payload_commits context) in
  if bool_decide (length commits = 0) then
    Logger.warning ctx "No commits found in push event";;
    mret {| commits := [];
            ci_branch := JsString.remove_first "refs/heads/" (Runtime.ref context);
            ci_sha := Runtime.context_sha context;
            ci_actor := Runtime.actor context;
            ci_repo := (Runtime.repo_owner context, Runtime.repo_repo context) |}
  else
    Logger.info ctx ("Processing " +:+ pretty (length commits) +:+ " commit(s)");;
    mret {| commits := commits;
            ci_branch := JsString.remove_first "refs/heads/" (Runtime.ref context);
            ci_sha := Runtime.context_sha context;
            ci_actor := Runtime.actor context;
            ci_repo := (Runtime.repo_owner context, Runtime.repo_repo context) |}.

(** [issues.filter((issue) => trackerService.isInActiveSprint(issue))]:
    the callback is called on every issue, in order. *)
Fixpoint filter_active (trackerService : Factory.IssueTrackerService)
    (issues : list Issue) : M (list Issue) :=
  match issues with
  | [] => mret []
  | issue :: rest =>
      keep ← Factory.isInActiveSprint trackerService issue;
      others ← filter_active trackerService rest;
      mret (if keep : bool then issue :: others else others)
  end.

(** The callback of [filteredIssues.map] that prepares the notification
    data. *)
Definition notification_of (issue : Issue) : Slack.NotificationData := {|
  Slack.n_ticket := key issue;
  Slack.n_summary := summary issue;
  Slack.n_status := status issue;
  Slack.n_sprint := JsString.or_null (sprint_name <$> sprint issue);
  Slack.n_cycle := JsString.or_null (cycle_name <$> cycle issue);
  Slack.n_url := url issue;
  Slack.n_assignee := JsString.or_null (name <$> assignee issue);
|}.

(** Every error thrown in this model is an [Error], so the branch of the
    handler for other thrown values is never taken. *)
Definition run (w : World.t) (rt : Runtime.t) : Act unit :=
  act_try_catch
    (lift (Logger.info ctx "🚀 PM Updater Action started");;
     config ← lift (Runtime.loadConfig rt);
     info ← lift (getCommitInfo rt);
     if bool_decide (length (commits info) = 0) then
       lift (Logger.info ctx "No commits to process, exiting");;
       setOutput "tickets_found" (OutNumber 0);;
       setOutput "tickets_notified" (OutNumber 0)
     else
       let projectKey := Factory.getProjectKey config in
       parsedCommits ← lift (Parser.parseCommits (commits info) projectKey);
       let issueIds := Parser.getAllTicketIds parsedCommits in
       if bool_decide (length issueIds = 0) then
         lift (Logger.info ctx
                 ("No " +:+ issueTracker config +:+ " issues found in commits, exiting"));;
         setOutput "tickets_found" (OutNumber 0);;
         setOutput "tickets_notified" (OutNumber 0)
       else
         lift (Logger.info ctx
                 ("Found " +:+ pretty (length issueIds) +:+ " unique issue(s): "
                  +:+ String.concat ", " issueIds));;
         setOutput "tickets_found" (OutNumber (length issueIds));;
         trackerService ← lift (Factory.createIssueTracker config);
         issues ← lift (Factory.getIssues w trackerService issueIds);
         if bool_decide (length issues = 0) then
           lift (Logger.warning ctx ("No issues found in " +:+ issueTracker config));;
           setOutput "tickets_notified" (OutNumber 0)
         else
           filteredIssues ←
             (if onlyActiveSprint config then
                filteredIssues ← lift (filter_active trackerService issues);
                let iterationType :=
                  if String.eqb (issueTracker config) "linear" then "cycle" else "sprint" in
                lift (Logger.info ctx
                        ("Filtered to " +:+ pretty (length filteredIssues)
                         +:+ " issue(s) in active " +:+ iterationType));;
                mret filteredIssues
              else mret issues);
           filteredIssues ←
             (match ticketStatusFilter config with
              | Some statuses =>
                  if bool_decide (0 < length statuses) then
                    lift (Factory.filterByStatus trackerService filteredIssues
                            (Some statuses))
                  else mret filteredIssues
              | None => mret filteredIssues
              end);
           if bool_decide (length filteredIssues = 0) then
             lift (Logger.info ctx
                     "No issues match the filter criteria, skipping notification");;
             setOutput "tickets_notified" (OutNumber 0)
           else
             let notifications := map notification_of filteredIssues in
             slackTarget ← lift (resolveSlackTarget w filteredIssues config trackerService);
             let repoUrl :=
               "https://github.com/" +:+ (ci_repo info).1 +:+ "/" +:+ (ci_repo info).2 in
             messageTs ← Slack.sendNotification w rt slackTarget notifications
               {| Slack.branch := ci_branch info;
                  Slack.m_environment := environment config;
                  Slack.deployedBy := ci_actor info;
                  Slack.commitSha := ci_sha info;
                  Slack.repoUrl := repoUrl |};
             lift (Logger.info ctx
                     ("✅ Successfully notified about "
                      +:+ pretty (length notifications) +:+ " ticket(s)"));;
             setOutput "tickets_notified" (OutNumber (length notifications));;
             if Js.truthy messageTs
             then setOutput "slack_message_ts" (OutString (default "" messageTs))
             else mret tt)
    (λ error,
       setFailed (Logger.error_message (exn_error error));;
       lift (Logger.error ctx "Action failed" (Some (exn_error error)))).

End Main.

(** * The vocabulary of the specification *)

(** ** The ticket pattern

    "Two to ten uppercase letters, a hyphen, one or more digits", and an
    occurrence of it "as a whole word": not preceded and not followed by a
    word character. *)

Definition ticket_shape (w : list ascii) : Prop :=
  ∃ letters digits : list ascii,
    w = letters ++ "-"%char :: digits
    ∧ Forall Regex.is_upper letters ∧ 2 ≤ length letters ≤ 10
    ∧ Forall Regex.is_digit digits ∧ 1 ≤ length digits.

Definition whole_word_at (s : list ascii) (i : nat) (w : list ascii) : Prop :=
  ∃ pre post : list ascii,
    s = pre ++ w ++ post ∧ length pre = i ∧ ticket_shape w
    ∧ Regex.IsWordChar (last pre) = false
    ∧ Regex.IsWordChar (head post) = false.

(** The identifier [w] occurs in [message] as a whole word at index [i]. *)
Definition occurs_at (message : string) (i : nat) (w : string) : Prop :=
  whole_word_at (list_ascii_of_string message) i (list_ascii_of_string w).

(** "Whose prefix equals the grouping key followed by a hyphen": [s] starts
    with [p]. *)
Definition has_prefix (p s : string) : Prop :=
  list_ascii_of_string p `prefix_of` list_ascii_of_string s.

Global Instance has_prefix_dec p s : Decision (has_prefix p s).
Proof. unfold has_prefix. apply _. Defined.

(** The entry of a commit under the grouping key [k], as the specification
    words it: the identifiers of its message whose prefix is [k] followed by
    a hyphen, and no entry at all when none is left. *)
Definition scoped_entry (k : string) (commit : Commit) : option ParsedCommit :=
  let ids := filter (has_prefix (k +:+ "-"))
               (Parser.extractTicketIds (commit_message commit)) in
  if decide (ids = []) then None
  else Some {| sha := commit_id commit;
               message := JsString.first_piece Parser.newline (commit_message commit);
               author := name (commit_author commit);
               ticketIds := ids |}.

(** The rule as the specification words it: completed when [completedAt]
    is set; else unstarted before [startsAt]; else started from [startsAt]
    to [endsAt], both included; else completed. *)
Definition cycle_state_rule (completedAt : option string)
    (startsAt endsAt now : Z) : CycleState :=
  if decide (is_Some completedAt) then completed
  else if decide (now < startsAt)%Z then unstarted
  else if decide (startsAt ≤ now ≤ endsAt)%Z then started
  else completed.


(** The lookup finds no entry of the mapping but a member that the mapping
    inherits: the mapping, not empty, has no entry of its own under the
    active grouping key, and the key is the name of a member of
    [Object.prototype]. *)
Definition inherited_key (config : Config) : Prop :=
  ∃ mapping k,
    pmMapping config = Some mapping ∧ mapping ≠ ∅
    ∧ Factory.getProjectKey config = Some k
    ∧ mapping !! k = None ∧ k ∈ Js.Object_prototype.


(** The identifier [w] is in the scope of the grouping key: every
    identifier when no key is supplied (absent, or empty), else the
    identifiers that start with the key and a hyphen. *)
Definition in_scope (projectKey : option string) (w : string) : Prop :=
  match projectKey with
  | Some k => k = "" ∨ has_prefix (k +:+ "-") w
  | None => True
  end.

Global Instance in_scope_dec projectKey w : Decision (in_scope projectKey w).
Proof. destruct projectKey; simpl; apply _. Defined.

(** The identifiers of a commit message that are in scope. *)
Definition kept_ids (projectKey : option string) (commit : Commit) : list string :=
  filter (in_scope projectKey) (Parser.extractTicketIds (commit_message commit)).

(** [l] is the first line of [s]: it holds no line feed, and [s] is [l] or
    [l] followed by a line feed and more. *)
Definition first_line_of (s l : string) : Prop :=
  (Parser.newline ∉ list_ascii_of_string l)
  ∧ (s = l ∨ ∃ rest, s = l +:+ String Parser.newline rest).

(** [b] ends with a slash. *)
Definition ends_with_slash (b : string) : Prop := ∃ p, b = p +:+ "/".

(** The GraphQL backend answers the lookup of [identifier] with the issue
    [linearIssue], without errors, and the issue is of the configured team
    when a team key is configured. *)
Definition answers (w : World.t) (this : Linear.LinearService)
    (identifier : string) (linearIssue : LinearIssue) : Prop :=
  World.linear_issue w identifier
  = Response {| data := Some (Some linearIssue); errors := None |}
  ∧ ∀ k, Linear.teamKey this = Some k → k ≠ "" → team_key (team linearIssue) = k.

(** What the conversion of the GraphQL adapter carries over from a backend
    issue. *)
Definition carried_over_linear (linearIssue : LinearIssue) (issue : Issue) : Prop :=
  id issue = li_id linearIssue
  ∧ key issue = identifier linearIssue
  ∧ summary issue = title linearIssue
  ∧ status issue = ls_name (li_state linearIssue)
  ∧ url issue = li_url linearIssue
  ∧ pmEmail issue = None.

(** ** The run of the action *)

(** The commits of the push event. *)
Definition pushed (rt : Runtime.t) : list Commit :=
  default [] (Runtime.payload_commits (Runtime.context rt)).

(** The identifiers found in a list of commits: those in scope, each once,
    in the order of their first occurrence. *)
Definition found (projectKey : option string) (commits : list Commit) : list string :=
  Js.Set_of (concat (map (kept_ids projectKey) commits)).

(** The issue is in an active iteration of the tracker: a sprint whose state
    is [active], a cycle whose state is [started]. *)
Definition in_active_iteration (t : Factory.IssueTrackerService) (issue : Issue)
    : Prop :=
  match t with
  | Factory.JiraTracker _ => sprint_state <$> sprint issue = Some active
  | Factory.LinearTracker _ => cycle_state <$> cycle issue = Some started
  end.

Global Instance in_active_iteration_dec t issue : Decision (in_active_iteration t issue).
Proof. destruct t; simpl; solve_decision. Defined.

(** The status of the issue is one of the configured statuses, when a
    non-empty list of statuses is configured. *)
Definition status_allowed (config : Config) (issue : Issue) : Prop :=
  match ticketStatusFilter config with
  | Some ((_ :: _) as statuses) => status issue ∈ statuses
  | _ => True
  end.

Global Instance status_allowed_dec config issue : Decision (status_allowed config issue).
Proof.
  unfold status_allowed. destruct (ticketStatusFilter config) as [[|]|]; apply _.
Defined.

(** The issues a run announces: those in an active iteration, unless the
    configuration turns that filter off, whose status is allowed. *)
Definition selected (config : Config) (t : Factory.IssueTrackerService)
    (issue : Issue) : Prop :=
  (onlyActiveSprint config = true → in_active_iteration t issue)
  ∧ status_allowed config issue.

Global Instance selected_dec config t issue : Decision (selected config t issue).
Proof. unfold selected. apply _. Defined.

(** The message announces the issues: four blocks of heading, one block for
    each issue, in order, and two blocks of footer. *)
Definition announces (rt : Runtime.t) (m : Runtime.Message) (issues : list Issue)
    : Prop :=
  ∃ heading footer,
    length heading = 4 ∧ length footer = 2
    ∧ Runtime.blocks m
      = Some (heading
              ++ map (λ issue, Slack.ticket_block rt (Main.notification_of issue)) issues
              ++ footer).

(** The message of the error that sending a notification ends with, for
    what the call of [chat.postMessage] came to; none when the platform
    answered [ok]. *)
Definition send_failure (c : Runtime.Called Runtime.ChatPostMessageResponse)
    : option string :=
  match c with
  | Runtime.Answered response =>
      if Runtime.pm_ok response then None
      else Some (if bool_decide (Runtime.pm_error response
                                 = Some "slack_webapi_platform_error")
                 then "Slack API error: Failed to send Slack message"
                 else "Failed to send Slack message")
  | Runtime.Thrown code msg _ =>
      Some (if bool_decide (code = Some "slack_webapi_platform_error")
            then "Slack API error: " +:+ msg
            else msg)
  end.


(** ** Auxiliary functions of the proofs *)

(** The length of the longest prefix of [l] whose characters satisfy [P]. *)
Fixpoint run (P : ascii → bool) (l : list ascii) : nat :=
  match l with
  | a :: l' => if P a then S (run P l') else 0
  | [] => 0
  end.

(** The number of rounds a repetition with bound [max] can make on a run of
    [r] characters. *)
Definition cap (max : option nat) (r : nat) : nat :=
  match max with
  | Some mx => Nat.min mx r
  | None => r
  end.

(** [\b] at index [x]. *)
Definition word_boundary (Input : list ascii) (x : nat) : bool :=
  xorb (Regex.IsWordChar (Regex.char_before Input x)) (Regex.IsWordChar (Input !! x)).

(** Where [[A-Z]{2,10}-\d+] started at [x] ends when nothing after it asks
    for backtracking: after the longest run of at most ten letters, the
    hyphen and the longest run of digits. *)
Definition body_end (Input : list ascii) (x : nat) : option nat :=
  let k := Nat.min 10 (run Regex.is_upper (drop x Input)) in
  let d := run Regex.is_digit (drop (S (x + k)) Input) in
  if decide (2 ≤ k ∧ Input !! (x + k) = Some "-"%char ∧ 1 ≤ d)
  then Some (S (x + k) + d) else None.

(** The successful attempts among the [n] indices from [i] on, in order. *)
Definition attempts (T : nat → option nat) (i n : nat) : list (nat * nat) :=
  omap (λ x, e ← T x; Some (x, e)) (seq i n).

(** The matches of the extractor's pattern, before duplicates are dropped. *)
Definition matches_of (message : string) : list string :=
  let Input := list_ascii_of_string message in
  map (λ ie, string_of_list_ascii (Regex.slice Input ie))
      (attempts (Regex.match_at Input Parser.ISSUE_ID_PATTERN) 0 (S (length Input))).

(** What a failed request of the GraphQL adapter leaves in the log. *)
Definition linear_failure_entry (identifier msg : string) : LogEntry :=
  {| level := LError;
     text := "[LinearService] Failed to get issue " +:+ identifier
             +:+ ": Linear API error: " +:+ msg |}.

(** The entry [parseCommits] makes for a commit, if any. *)
Definition commit_entry (projectKey : option string) (commit : Commit)
    : option ParsedCommit :=
  let ids := kept_ids projectKey commit in
  if decide (ids = []) then None
  else Some {| sha := commit_id commit;
               message := JsString.first_piece Parser.newline (commit_message commit);
               author := name (commit_author commit);
               ticketIds := ids |}.



(** The state of a run after a step that only logs or reads the clock. *)
Definition with_base (rs : RunState) (s : State) : RunState :=
  {| base := s; outputs := outputs rs; failed := failed rs; posted := posted rs |}.

(** The log and the clock when [run] loads the configuration. *)
Definition at_start (rs : RunState) : State :=
  (Logger.info Main.ctx "🚀 PM Updater Action started" (base rs)).1.

(** The state of a run after [core.setOutput(name, value)]. *)
Definition with_output (rs : RunState) (name : string) (value : OutputValue)
    : RunState :=
  {| base := base rs; outputs := outputs rs ++ [(name, value)];
     failed := failed rs; posted := posted rs |}.

(** An error of the repository's classes as a thrown value. *)
Definition plain (e : Error) : Exn :=
  {| exn_code := None; exn_data_error := None; exn_error := e |}.

(** ** Example data *)

(** The empty state a run starts from. *)
Definition s0 : State := {| log := []; ticks := 0 |}.

(** A REST configuration with the three credentials and no project key. *)
Definition jira_config_without_project_key : Config := {|
  issueTracker := "jira";
  jiraBaseUrl := Some "https://company.atlassian.net/";
  jiraEmail := Some "bot@company.com";
  jiraApiToken := Some "token";
  jiraProjectKey := None;
  linearApiKey := None;
  linearTeamKey := None;
  slackBotToken := "xoxb-1";
  slackChannelOrUser := "C01234567";
  environment := "staging";
  pmMapping := Some ∅;
  onlyActiveSprint := true;
  ticketStatusFilter := None;
|}.



(** The same with a mapping for another project and a project key that is
    the name of a member every object inherits. *)
Definition config_with_inherited_key : Config := {|
  issueTracker := "jira";
  jiraBaseUrl := Some "https://company.atlassian.net";
  jiraEmail := Some "bot@company.com";
  jiraApiToken := Some "token";
  jiraProjectKey := Some "constructor";
  linearApiKey := None;
  linearTeamKey := None;
  slackBotToken := "xoxb-1";
  slackChannelOrUser := "C01234567";
  environment := "staging";
  pmMapping := Some {[ "OTHER" := "U01234567" ]};
  onlyActiveSprint := true;
  ticketStatusFilter := None;
|}.

(** An issue that names its owner. *)
Definition issue_with_owner : Issue := {|
  id := "10002";
  key := "PROJ-2";
  summary := "Add export";
  status := "In Progress";
  assignee := None;
  sprint := None;
  cycle := None;
  pmEmail := Some "pm@company.com";
  url := "https://company.atlassian.net/browse/PROJ-2";
|}.

Definition demo_tracker : Factory.IssueTrackerService :=
  Factory.JiraTracker (Jira.new "https://company.atlassian.net" "bot@company.com" "token").

(** A backend issue of the REST variant that is in no sprint. *)
Definition jira_issue_without_sprint : JiraIssue := {|
  ji_id := "10001";
  ji_key := "PROJ-1";
  fields := {|
    f_summary := "Fix bug";
    f_status := {| st_name := "In Progress"; statusCategory := "In Progress" |};
    f_assignee := None;
    f_reporter := None;
    f_sprint := None;
    customfield_pm := None;
  |};
  self := "https://company.atlassian.net/rest/api/3/issue/10001";
|}.

(** A world for the examples: two dates the runtime can parse, a clock
    between them, and services that answer nothing. *)
Definition demo_world : World.t := {|
  World.Date_parse := λ d,
    if String.eqb d "2024-01-01T00:00:00.000Z" then Some 1704067200000%Z
    else if String.eqb d "2024-01-15T00:00:00.000Z" then Some 1705276800000%Z
    else None;
  World.clock := λ _, 1704500000000%Z;
  World.jira_search := λ _, Failure "Network Error" None None;
  World.linear_issue := λ _, Failure "Network Error" None None;
  World.slack_lookupByEmail := λ _, Failure "users_not_found" None None;
|}.

(** The same world with a platform that knows the owner. *)
Definition owner_world : World.t := {|
  World.Date_parse := World.Date_parse demo_world;
  World.clock := World.clock demo_world;
  World.jira_search := World.jira_search demo_world;
  World.linear_issue := World.linear_issue demo_world;
  World.slack_lookupByEmail := λ email,
    if String.eqb email "pm@company.com"
    then Response {| World.ok := true;
                     World.user := Some {| World.user_id := Some "U0OWNER01" |} |}
    else Failure "users_not_found" None None;
|}.

Definition demo_cycle : LinearCycle := {|
  lc_name := "Cycle 12";
  startsAt := "2024-01-01T00:00:00.000Z";
  endsAt := "2024-01-15T00:00:00.000Z";
  completedAt := None;
|}.

(** A cycle whose start the runtime cannot parse. *)
Definition cycle_with_invalid_start : LinearCycle := {|
  lc_name := "Cycle 13";
  startsAt := "soon";
  endsAt := "2024-01-15T00:00:00.000Z";
  completedAt := None;
|}.

(** An issue of the team OPS, and a world whose GraphQL backend returns it
    for every identifier. *)
Definition linear_issue_ops : LinearIssue := {|
  li_id := "7f1c";
  identifier := "OPS-7";
  title := "Rotate the keys";
  li_state := {| ls_name := "In Progress"; ls_type := "started" |};
  li_assignee := None;
  li_cycle := Some demo_cycle;
  team := {| team_key := "OPS"; team_name := "Operations" |};
  li_url := "https://linear.app/company/issue/OPS-7";
|}.

Definition ops_world : World.t := {|
  World.Date_parse := World.Date_parse demo_world;
  World.clock := World.clock demo_world;
  World.jira_search := World.jira_search demo_world;
  World.linear_issue := λ _,
    Response {| data := Some (Some linear_issue_ops); errors := None |};
  World.slack_lookupByEmail := World.slack_lookupByEmail demo_world;
|}.

Definition commit_ab_cd : Commit := {|
  commit_id := "0123456789abcdef";
  commit_message := "AB-1 and CD-2: fix the parser";
  commit_author := {| name := "dev"; email := "dev@company.com" |};
|}.

Definition commit_cd : Commit := {|
  commit_id := "fedcba9876543210";
  commit_message := "CD-2 follow-up";
  commit_author := {| name := "dev"; email := "dev@company.com" |};
|}.

(** A GraphQL configuration without the API key; the credentials of the
    REST variant are all there. *)
Definition linear_config_without_key : Config := {|
  issueTracker := "linear";
  jiraBaseUrl := Some "https://company.atlassian.net";
  jiraEmail := Some "bot@company.com";
  jiraApiToken := Some "token";
  jiraProjectKey := Some "PROJ";
  linearApiKey := None;
  linearTeamKey := Some "ENG";
  slackBotToken := "xoxb-1";
  slackChannelOrUser := "C01234567";
  environment := "staging";
  pmMapping := None;
  onlyActiveSprint := true;
  ticketStatusFilter := None;
|}.

(** A configuration that selects a tracker the factory does not know. *)
Definition github_config : Config := {|
  issueTracker := "github";
  jiraBaseUrl := None;
  jiraEmail := None;
  jiraApiToken := None;
  jiraProjectKey := None;
  linearApiKey := None;
  linearTeamKey := None;
  slackBotToken := "xoxb-1";
  slackChannelOrUser := "C01234567";
  environment := "staging";
  pmMapping := None;
  onlyActiveSprint := true;
  ticketStatusFilter := None;
|}.

(** An adapter of the REST variant, and a world whose search answers with
    the issue that is in no sprint. *)
Definition demo_service : Jira.JiraService :=
  Jira.new "https://company.atlassian.net" "bot@company.com" "token".


(** A world of the auxiliary requests in which the lookup of an issue
    answers 404 and the other requests fail for lack of a network. *)
Definition demo_remote : Remote.t := {|
  Remote.jira_issue := λ _, Failure "Request failed with status code 404" (Some 404) None;
  Remote.jira_board_sprints := λ _, Failure "Network Error" None None;
  Remote.linear_search := λ _ _, Failure "Network Error" None None;
  Remote.linear_active_cycle := λ _, Failure "Network Error" None None;
|}.

(** The same with a search that returns the issue of the team OPS. *)
Definition search_remote : Remote.t := {|
  Remote.jira_issue := Remote.jira_issue demo_remote;
  Remote.jira_board_sprints := Remote.jira_board_sprints demo_remote;
  Remote.linear_search := λ _ _,
    Response {| Remote.nodes := Some [linear_issue_ops];
                Remote.search_errors := None |};
  Remote.linear_active_cycle := Remote.linear_active_cycle demo_remote;
|}.

(** A GraphQL configuration for the team OPS that announces the issues in
    an active cycle whose status is In Progress. *)
Definition linear_config : Config := {|
  issueTracker := "linear";
  jiraBaseUrl := None;
  jiraEmail := None;
  jiraApiToken := None;
  jiraProjectKey := None;
  linearApiKey := Some "lin_api_key";
  linearTeamKey := Some "OPS";
  slackBotToken := "xoxb-1";
  slackChannelOrUser := "C01234567";
  environment := "staging";
  pmMapping := None;
  onlyActiveSprint := true;
  ticketStatusFilter := Some ["In Progress"];
|}.

(** A REST configuration without the base URL. *)
Definition jira_config_without_base_url : Config := {|
  issueTracker := "jira";
  jiraBaseUrl := None;
  jiraEmail := Some "bot@company.com";
  jiraApiToken := Some "token";
  jiraProjectKey := None;
  linearApiKey := None;
  linearTeamKey := None;
  slackBotToken := "xoxb-1";
  slackChannelOrUser := "C01234567";
  environment := "staging";
  pmMapping := None;
  onlyActiveSprint := true;
  ticketStatusFilter := None;
|}.

Definition commit_ops : Commit := {|
  commit_id := "89abcdef01234567";
  commit_message := "OPS-7: rotate the keys";
  commit_author := {| name := "dev"; email := "dev@company.com" |};
|}.

(** Lower case for the letters A to Z. *)
Fixpoint lower (s : string) : string :=
  match s with
  | EmptyString => EmptyString
  | String a s' =>
      String (if Regex.is_upper a then ascii_of_nat (nat_of_ascii a + 32) else a)
        (lower s')
  end.

(** A push of the given commits to the branch main, with a configuration
    that loads, and a platform that accepts every message. *)
Definition push_of (config : Config) (commits : option (list Commit)) : Runtime.t := {|
  Runtime.chat_postMessage := λ _,
    Runtime.Answered {| Runtime.pm_ok := true; Runtime.pm_error := None;
                        Runtime.ts := Some "1704500000.000100" |};
  Runtime.conversations_info := λ _, Runtime.Answered true;
  Runtime.toLowerCase := lower;
  Runtime.toISOString := λ _, "2024-01-06T00:13:20.000Z";
  Runtime.context := {|
    Runtime.payload_commits := commits;
    Runtime.ref := "refs/heads/main";
    Runtime.context_sha := "89abcdef01234567";
    Runtime.actor := "dev";
    Runtime.repo_owner := "company";
    Runtime.repo_repo := "shop";
  |};
  Runtime.loadConfig :=
    Logger.info Main.ctx "Configuration loaded successfully";;
    mret config;
|}.

(** The same with a platform that refuses every message. *)
Definition refused_push_of (config : Config) (commits : option (list Commit))
    : Runtime.t := {|
  Runtime.chat_postMessage := λ _,
    Runtime.Answered {| Runtime.pm_ok := false;
                        Runtime.pm_error := Some "channel_not_found";
                        Runtime.ts := None |};
  Runtime.conversations_info := λ _, Runtime.Thrown (Some "slack_webapi_platform_error")
                                       "An API error occurred: channel_not_found"
                                       (Some "channel_not_found");
  Runtime.toLowerCase := Runtime.toLowerCase (push_of config commits);
  Runtime.toISOString := Runtime.toISOString (push_of config commits);
  Runtime.context := Runtime.context (push_of config commits);
  Runtime.loadConfig := Runtime.loadConfig (push_of config commits);
|}.

(** The state a run starts from. *)
Definition rs0 : RunState :=
  {| base := s0; outputs := []; failed := None; posted := [] |}.

(** A push that mentions the issue of the team OPS, and the message that
    the run posts for it. *)
Definition ops_push : Runtime.t := push_of linear_config (Some [commit_ops]).

Definition ops_message : Runtime.Message := {|
  Runtime.channel := "C01234567";
  Runtime.msg_text := "🚀 1 ticket deployed to staging";
  Runtime.blocks :=
    Some
      [ Runtime.Header "🚀 New Deployment Ready for Testing";
        Runtime.Fields
          [ "*Branch:*" +:+ Slack.line_feed +:+ "main";
            "*Environment:*" +:+ Slack.line_feed +:+ "staging";
            "*Deployed by:*" +:+ Slack.line_feed +:+ "dev";
            "*Commit:*" +:+ Slack.line_feed
            +:+ "<https://github.com/company/shop/commit/89abcdef01234567|89abcde>" ];
        Runtime.Divider;
        Runtime.Section_ "*Tickets Ready for Testing:*";
        Runtime.Section_
          ("*<https://linear.app/company/issue/OPS-7|OPS-7>* - Rotate the keys"
           +:+ Slack.line_feed +:+ "🔄 In Progress | Cycle: Cycle 12");
        Runtime.Divider;
        Runtime.Context_
          [ "_1 ticket deployed at <!date^1704500000^{date_short_pretty} at {time}|"
            +:+ "2024-01-06T00:13:20.000Z>_" ] ];
  Runtime.unfurl_links := Some false;
  Runtime.unfurl_media := Some false;
|}.

(** A board with a future sprint and two active ones. *)
Definition sprint_39 : JiraSprint := {|
  js_id := 39; js_name := "Sprint 39"; js_state := active;
  startDate := Some "2024-01-01T00:00:00.000Z";
  endDate := Some "2024-01-15T00:00:00.000Z";
  goal := None;
|}.

Definition sprint_remote : Remote.t := {|
  Remote.jira_issue := Remote.jira_issue demo_remote;
  Remote.jira_board_sprints := λ _,
    Response {| Remote.values :=
                  [ {| js_id := 41; js_name := "Sprint 41"; js_state := future;
                       startDate := None; endDate := None; goal := None |};
                    sprint_39;
                    {| js_id := 40; js_name := "Sprint 40"; js_state := active;
                       startDate := None; endDate := None; goal := None |} ];
                Remote.sr_maxResults := 50;
                Remote.sr_startAt := 0;
                Remote.isLast := true |};
  Remote.linear_search := Remote.linear_search demo_remote;
  Remote.linear_active_cycle := Remote.linear_active_cycle demo_remote;
|}.

(** ** Tactics *)

(** Unfold the operations of the monad and of the logger. *)
Ltac unfold_M :=
  unfold mbind, M_bind, bind, mret, M_ret, ret, throw, try_catch,
    Logger.info, Logger.debug, Logger.warning, Logger.error, Logger.error_of,
    Logger.group, Logger.endGroup, write, World.now in *.

(** Unfold the operations of the monad of a run. *)
Ltac unfold_Act :=
  unfold mbind, Act_bind, act_bind, mret, Act_ret, act_ret, act_throw,
    act_try_catch, lift, setOutput, setFailed, Runtime.postMessage,
    Runtime.conversationsInfo in *.

(** * Lemmas and theorems *)

(** ** Characters *)

Section Characters.
Import Regex.

Lemma upper_is_word a : is_upper a = true → is_word_char a = true.
Proof. unfold is_word_char. intros ->. done. Qed.

Lemma digit_is_word a : is_digit a = true → is_word_char a = true.
Proof. unfold is_word_char. intros ->. by rewrite !orb_true_r. Qed.

Lemma digit_not_upper a : is_digit a = true → is_upper a = false.
Proof.
  unfold is_digit, is_upper, in_range, code.
  rewrite andb_true_iff, andb_false_iff, !Nat.leb_le, !Nat.leb_gt.
  change (nat_of_ascii "9") with 57. change (nat_of_ascii "A") with 65. lia.
Qed.

Lemma hyphen_not_word : is_word_char "-" = false.
Proof. reflexivity. Qed.

Lemma upper_not_hyphen a : is_upper a = true → a ≠ "-"%char.
Proof. by intros H ->. Qed.

Lemma digit_not_hyphen a : is_digit a = true → a ≠ "-"%char.
Proof. by intros H ->. Qed.

Lemma not_word_not_upper a : is_word_char a = false → is_upper a = false.
Proof. destruct (is_upper a) eqn:E; [|done]. by rewrite (upper_is_word a E). Qed.

Lemma not_word_not_digit a : is_word_char a = false → is_digit a = false.
Proof. destruct (is_digit a) eqn:E; [|done]. by rewrite (digit_is_word a E). Qed.

End Characters.

(** ** Runs *)

Section Runs.
Variable P : ascii → bool.

Lemma run_le l : run P l ≤ length l.
Proof. induction l as [|a l IH]; simpl; [lia|]. destruct (P a); simpl; lia. Qed.

Lemma run_take_Forall l k : k ≤ run P l → Forall P (take k l).
Proof.
  revert k. induction l as [|a l IH]; intros k Hk; simpl in *.
  - by rewrite take_nil.
  - destruct k as [|k]; [constructor|]. simpl.
    destruct (P a) eqn:E; [|lia].
    constructor; [by rewrite E|]. apply IH. lia.
Qed.

(** A run stops at the first character outside [P], or at the end. *)
Lemma run_app_stop l rest :
  Forall P l → from_option P false (head rest) = false →
  run P (l ++ rest) = length l.
Proof.
  intros Hl Hrest. induction Hl as [|a l Ha _ IH]; simpl.
  - destruct rest as [|b rest]; simpl in *; [done|]. by rewrite Hrest.
  - apply Is_true_true in Ha. by rewrite Ha, IH.
Qed.

Lemma run_drop_lookup (l : list ascii) x :
  run P (drop x l) =
    match l !! x with
    | Some a => if P a then S (run P (drop (S x) l)) else 0
    | None => 0
    end.
Proof.
  destruct (l !! x) as [a|] eqn:E.
  - by rewrite (drop_S _ _ _ E).
  - apply lookup_ge_None in E. by rewrite drop_ge.
Qed.

(** Next to the run comes a character outside [P], if any. *)
Lemma run_next (l : list ascii) :
  from_option P false (l !! run P l) = false.
Proof.
  induction l as [|a l IH]; simpl; [done|].
  destruct (P a) eqn:E; simpl; [done|]. by rewrite E.
Qed.

Lemma run_inside (l : list ascii) j :
  j < run P l → from_option P false (l !! j) = true.
Proof.
  revert j. induction l as [|a l IH]; intros j Hj; simpl in *; [lia|].
  destruct (P a) eqn:E; [|lia].
  destruct j as [|j]; simpl; [done|]. apply IH. lia.
Qed.

End Runs.

(** ** Greedy repetition of a character set *)

Section RepeatSet.
Import Regex.
Variable Input : list ascii.
Variable cs : CharSet.

Lemma compile_set x c :
  compile Input (Set_ cs) x c =
    match Input !! x with
    | Some ch => if in_set cs ch then c (S x) else None
    | None => None
    end.
Proof. reflexivity. Qed.

Lemma RepeatMatcher_step fuel (m : Matcher) min max x c :
  RepeatMatcher (S fuel) m min max x c =
    if bool_decide (max = Some 0) then c x else
    let d : Continuation := λ y,
      if bool_decide (min = 0) && bool_decide (y = x) then None
      else RepeatMatcher fuel m (pred min) (pred <$> max) y c in
    if negb (bool_decide (min = 0)) then m x d
    else match m x d with
         | Some z => Some z
         | None => c x
         end.
Proof. reflexivity. Qed.

Lemma cap_S max r : max ≠ Some 0 → cap max (S r) = S (cap (pred <$> max) r).
Proof. destruct max as [[|mx]|]; simpl; [done|lia|done]. Qed.

Lemma cap_0 max : cap max 0 = 0.
Proof. destruct max; simpl; lia. Qed.

(** With enough fuel, a greedy repetition of a character set takes as many
    characters as the run and the upper bound allow; when the continuation
    fails at every shorter length it would accept, the outcome is the
    continuation's at that longest length. *)
Lemma RepeatMatcher_set fuel min max x c :
  min + (length Input - x) < fuel →
  (∀ mx, max = Some mx → min ≤ mx) →
  (∀ j, min ≤ j < cap max (run (in_set cs) (drop x Input)) → c (x + j) = None) →
  RepeatMatcher fuel (compile Input (Set_ cs)) min max x c =
    if decide (min ≤ cap max (run (in_set cs) (drop x Input)))
    then c (x + cap max (run (in_set cs) (drop x Input))) else None.
Proof.
  revert min max x.
  induction fuel as [|fuel IH]; intros min max x Hfuel Hmax Hc; [lia|].
  rewrite RepeatMatcher_step. case_bool_decide as Hz.
  { subst max. specialize (Hmax 0 eq_refl). simpl.
    rewrite decide_True by lia. by rewrite Nat.add_0_r. }
  cbv zeta. rewrite compile_set.
  rewrite run_drop_lookup in Hc |- *.
  destruct (Input !! x) as [ch|] eqn:Hx; [destruct (in_set cs ch) eqn:HP|].
  - (* one more character of the run *)
    assert (x < length Input) by (by eapply lookup_lt_Some).
    assert (S x ≠ x) as Hne by lia.
    rewrite (bool_decide_eq_false_2 _ Hne), andb_false_r.
    remember (run (in_set cs) (drop (S x) Input)) as r eqn:Hr.
    rewrite (cap_S _ _ Hz) in Hc |- *.
    assert (RepeatMatcher fuel (compile Input (Set_ cs)) (pred min) (pred <$> max) (S x) c
            = if decide (pred min ≤ cap (pred <$> max) r)
              then c (x + S (cap (pred <$> max) r)) else None) as ->.
    { rewrite IH, <- Hr.
      - by replace (S x + cap (pred <$> max) r) with (x + S (cap (pred <$> max) r)) by lia.
      - lia.
      - intros mx' Hmx'. destruct max as [mx|]; simplify_eq/=.
        specialize (Hmax mx eq_refl). lia.
      - intros j Hj. rewrite <- Hr in Hj.
        replace (S x + j) with (x + S j) by lia. apply Hc. lia. }
    case_bool_decide as Hmin; simpl.
    + subst min. repeat case_decide; try lia.
      destruct (c (x + S (cap (pred <$> max) r))) eqn:Hc'; [done|].
      specialize (Hc 0). rewrite Nat.add_0_r in Hc. apply Hc. lia.
    + repeat case_decide; try lia; done.
  - (* the run is over *)
    rewrite cap_0, Nat.add_0_r.
    case_bool_decide as Hmin; simpl; repeat case_decide; try lia; done.
  - rewrite cap_0, Nat.add_0_r.
    case_bool_decide as Hmin; simpl; repeat case_decide; try lia; done.
Qed.

End RepeatSet.

(** ** The two patterns, attempt by attempt *)

Section Patterns.
Import Regex Parser.
Variable Input : list ascii.

Lemma lookup_in_run (P : ascii → bool) x j :
  j < run P (drop x Input) → from_option P false (Input !! (x + j)) = true.
Proof. intros Hj. rewrite <- lookup_drop. by apply run_inside. Qed.

Lemma compile_Seq r1 r2 x c :
  compile Input (Seq r1 r2) x c = compile Input r1 x (λ y, compile Input r2 y c).
Proof. reflexivity. Qed.

Lemma compile_Repeat r min max x c :
  compile Input (Repeat r min max) x c =
    RepeatMatcher (S (min + (length Input - x))) (compile Input r) min max x c.
Proof. reflexivity. Qed.

Lemma compile_WordBoundary x c :
  compile Input WordBoundary x c = if word_boundary Input x then c x else None.
Proof. reflexivity. Qed.

Lemma compile_Start x c :
  compile Input Start x c = if bool_decide (x = 0) then c x else None.
Proof. reflexivity. Qed.

Lemma compile_End x c :
  compile Input End_ x c = if bool_decide (x = length Input) then c x else None.
Proof. reflexivity. Qed.

Lemma compile_body x c :
  (∀ e y, body_end Input x = Some e → x < y < e →
          IsWordChar (char_before Input y) = true →
          IsWordChar (Input !! y) = true → c y = None) →
  compile Input ticket_body x c =
    match body_end Input x with
    | Some e => c e
    | None => None
    end.
Proof.
  intros Hc. unfold ticket_body, upper2to10, digits1, body_end in *.
  set (k := Nat.min 10 (run is_upper (drop x Input))) in *.
  set (d := run is_digit (drop (S (x + k)) Input)) in *.
  rewrite compile_Seq, compile_Repeat.
  rewrite RepeatMatcher_set; cycle 1.
  { lia. }
  { intros mx [= <-]. lia. }
  { intros j Hj. change (in_set (CsRange "A" "Z")) with is_upper in Hj.
    cbn [cap] in Hj. fold k in Hj.
    assert (from_option is_upper false (Input !! (x + j)) = true) as Hu.
    { apply lookup_in_run. lia. }
    rewrite compile_Seq, compile_set.
    destruct (Input !! (x + j)) as [ch|]; [|done]. simpl in Hu.
    cbn [in_set]. rewrite bool_decide_eq_false_2; [done|].
    by apply upper_not_hyphen. }
  change (in_set (CsRange "A" "Z")) with is_upper.
  cbn [cap]. fold k.
  destruct (decide (2 ≤ k)) as [Hk|Hk]; cycle 1.
  { rewrite decide_False; [done|]. tauto. }
  rewrite compile_Seq, compile_set.
  destruct (Input !! (x + k)) as [ch|] eqn:Hch; cycle 1.
  { rewrite decide_False; [done|]. intros (_ & ? & _). done. }
  cbn [in_set]. case_bool_decide as Hh; cycle 1.
  { rewrite decide_False; [done|]. intros (_ & ? & _). congruence. }
  subst ch. rewrite compile_Repeat.
  rewrite RepeatMatcher_set; cycle 1.
  { lia. }
  { done. }
  { intros j Hj. change (in_set CsDigit) with is_digit in Hj.
    cbn [cap] in Hj. fold d in Hj.
    assert (∀ i, i < d → IsWordChar (Input !! (S (x + k) + i)) = true) as Hw.
    { intros i Hi. pose proof (lookup_in_run is_digit (S (x + k)) i Hi) as Hd.
      destruct (Input !! (S (x + k) + i)); [|done]. simpl in *. by apply digit_is_word. }
    apply (Hc (S (x + k) + d)).
    - rewrite decide_True; [done|]. split_and!; [done|done|lia].
    - lia.
    - replace (S (x + k) + j) with (S (S (x + k) + (j - 1))) by lia.
      cbn [char_before]. apply Hw. lia.
    - apply Hw. lia. }
  change (in_set CsDigit) with is_digit.
  cbn [cap]. fold d.
  destruct (decide (1 ≤ d)).
  - rewrite decide_True; [done|]. done.
  - rewrite decide_False; [done|]. tauto.
Qed.

Lemma match_at_ISSUE x :
  match_at Input ISSUE_ID_PATTERN x =
    if word_boundary Input x then
      match body_end Input x with
      | Some e => if word_boundary Input e then Some e else None
      | None => None
      end
    else None.
Proof.
  unfold match_at, ISSUE_ID_PATTERN.
  rewrite compile_Seq, compile_WordBoundary.
  destruct (word_boundary Input x); [|done].
  rewrite compile_Seq. change (compile Input (Group ticket_body)) with (compile Input ticket_body).
  rewrite compile_body.
  - destruct (body_end Input x); [|done]. by rewrite compile_WordBoundary.
  - intros e y _ _ H1 H2. rewrite compile_WordBoundary. unfold word_boundary.
    by rewrite H1, H2.
Qed.

Lemma body_end_bounds x e : body_end Input x = Some e → x + 4 ≤ e ≤ length Input.
Proof.
  unfold body_end.
  set (k := Nat.min 10 (run is_upper (drop x Input))).
  set (d := run is_digit (drop (S (x + k)) Input)).
  pose proof (run_le is_digit (drop (S (x + k)) Input)) as Hle.
  rewrite length_drop in Hle. fold d in Hle.
  case_decide as H; [|done]. destruct H as (Hk & Hh & Hd).
  apply lookup_lt_Some in Hh. intros Heq. injection Heq as Heq. lia.
Qed.

Lemma match_at_VALID x :
  match_at Input VALID_ID_PATTERN x =
    if bool_decide (x = 0 ∧ body_end Input 0 = Some (length Input))
    then Some (length Input) else None.
Proof.
  unfold match_at, VALID_ID_PATTERN.
  rewrite compile_Seq, compile_Start.
  case_bool_decide as Hx; cycle 1.
  { rewrite bool_decide_eq_false_2; [done|]. tauto. }
  subst x. rewrite compile_Seq, compile_body.
  - destruct (body_end Input 0) as [e|] eqn:He.
    + rewrite compile_End. case_bool_decide as Hl.
      * subst e. by rewrite bool_decide_eq_true_2.
      * rewrite bool_decide_eq_false_2; [done|]. intros [_ [= ?]]. done.
    + rewrite bool_decide_eq_false_2; [done|]. intros [_ ?]. done.
  - intros e y He Hy _ _. apply body_end_bounds in He.
    rewrite compile_End, bool_decide_eq_false_2; [done|]. lia.
Qed.

End Patterns.

(** ** The pattern against the specification's reading of it *)

Section Shape.
Import Regex Parser.

Lemma body_end_shape (Input : list ascii) x e :
  body_end Input x = Some e →
  ∃ letters digits,
    drop x Input = (letters ++ "-"%char :: digits) ++ drop e Input
    ∧ Forall is_upper letters ∧ 2 ≤ length letters ≤ 10
    ∧ Forall is_digit digits ∧ 1 ≤ length digits
    ∧ e = x + length (letters ++ "-"%char :: digits)
    ∧ from_option is_digit false (Input !! e) = false.
Proof.
  unfold body_end.
  set (k := Nat.min 10 (run is_upper (drop x Input))).
  set (d := run is_digit (drop (S (x + k)) Input)).
  case_decide as H; [|done]. destruct H as (Hk & Hh & Hd).
  intros Heq. injection Heq as <-.
  exists (take k (drop x Input)), (take d (drop (S (x + k)) Input)).
  pose proof (run_le is_upper (drop x Input)) as Hku.
  pose proof (run_le is_digit (drop (S (x + k)) Input)) as Hdu. fold d in Hdu.
  assert (length (take k (drop x Input)) = k) as Hlk by (apply length_take_le; lia).
  assert (length (take d (drop (S (x + k)) Input)) = d) as Hld by (by apply length_take_le).
  split_and!.
  - rewrite <- (take_drop k (drop x Input)) at 1.
    rewrite <- app_assoc. f_equal.
    rewrite drop_drop, (drop_S _ _ _ Hh). simpl. f_equal.
    rewrite <- (take_drop d (drop (S (x + k)) Input)) at 1.
    f_equal. by rewrite drop_drop.
  - apply run_take_Forall. lia.
  - lia.
  - lia.
  - by apply run_take_Forall.
  - lia.
  - rewrite length_app. simpl. lia.
  - pose proof (run_next is_digit (drop (S (x + k)) Input)) as Hn.
    rewrite lookup_drop in Hn. exact Hn.
Qed.

Lemma drop_past_middle (l1 : list ascii) a l2 :
  drop (S (length l1)) (l1 ++ a :: l2) = l2.
Proof. induction l1 as [|b l1 IH]; simpl; [done|]. exact IH. Qed.

Lemma body_end_complete (pre letters digits post : list ascii) :
  Forall is_upper letters → 2 ≤ length letters ≤ 10 →
  Forall is_digit digits → 1 ≤ length digits →
  from_option is_digit false (head post) = false →
  body_end (pre ++ (letters ++ "-"%char :: digits) ++ post) (length pre)
  = Some (length pre + length (letters ++ "-"%char :: digits)).
Proof.
  intros Hl Hll Hd Hdl Hpost. unfold body_end.
  rewrite drop_app_length, <- !app_assoc.
  rewrite (run_app_stop is_upper letters _ Hl) by done.
  replace (Nat.min 10 (length letters)) with (length letters) by lia.
  assert (drop (S (length pre + length letters))
            (pre ++ letters ++ ("-"%char :: digits) ++ post) = digits ++ post) as ->.
  { rewrite (app_assoc pre), <- length_app.
    change (("-"%char :: digits) ++ post) with ("-"%char :: digits ++ post).
    apply drop_past_middle. }
  rewrite (run_app_stop is_digit digits _ Hd) by done.
  rewrite decide_True.
  - f_equal. rewrite length_app. simpl. lia.
  - split_and!; [lia| |lia].
    rewrite (app_assoc pre), <- length_app.
    change (("-"%char :: digits) ++ post) with ("-"%char :: digits ++ post).
    by rewrite list_lookup_middle.
Qed.

Lemma char_before_app (pre rest : list ascii) :
  char_before (pre ++ rest) (length pre) = last pre.
Proof.
  rewrite last_lookup. destruct pre as [|a pre] using rev_ind; [done|].
  rewrite length_app. simpl. rewrite Nat.add_1_r. simpl.
  rewrite lookup_app_l; [done|]. rewrite length_app. simpl. lia.
Qed.

Lemma lookup_app_head (pre rest : list ascii) :
  (pre ++ rest) !! length pre = head rest.
Proof.
  rewrite lookup_app_r by lia. rewrite Nat.sub_diag. by rewrite head_lookup.
Qed.

Lemma IsWordChar_last_digits (pre digits : list ascii) :
  Forall is_digit digits → 1 ≤ length digits →
  IsWordChar (last (pre ++ digits)) = true.
Proof.
  intros Hd Hl. destruct digits as [|a digits] using rev_ind; [simpl in *; lia|].
  rewrite app_assoc, last_snoc. simpl.
  rewrite Forall_app, Forall_singleton in Hd. destruct Hd as [_ Ha].
  apply digit_is_word. by apply Is_true_true.
Qed.

(** An attempt of the extractor's pattern at [x] succeeds exactly when a
    whole-word identifier starts there, and it ends where the identifier
    ends. *)
Lemma match_at_whole_word (Input : list ascii) x e :
  match_at Input ISSUE_ID_PATTERN x = Some e →
  whole_word_at Input x (slice Input (x, e)) ∧ x < e ≤ length Input.
Proof.
  rewrite match_at_ISSUE.
  destruct (word_boundary Input x) eqn:Hb1; [|done].
  destruct (body_end Input x) as [e'|] eqn:He; [|done].
  destruct (word_boundary Input e') eqn:Hb2; [|done].
  intros [= ->].
  pose proof (body_end_bounds _ _ _ He) as Hbounds.
  destruct (body_end_shape _ _ _ He)
    as (letters & digits & Hdrop & Hl & Hll & Hd & Hdl & -> & Hnext).
  set (w := letters ++ "-"%char :: digits) in *.
  assert (slice Input (x, x + length w) = w) as ->.
  { unfold slice. simpl. rewrite Hdrop.
    replace (x + length w - x) with (length w) by lia. by rewrite take_app_length. }
  split; [|lia].
  assert (length (take x Input) = x) as Hlen by (apply length_take_le; lia).
  assert (Input = take x Input ++ w ++ drop (x + length w) Input) as HInput.
  { by rewrite <- Hdrop, take_drop. }
  revert HInput Hlen Hb1 Hb2. clear He Hdrop Hnext Hbounds.
  generalize (take x Input) (drop (x + length w) Input).
  intros pre post -> <- Hb1 Hb2.
  exists pre, post. split_and!; [done|done| | |].
  - by exists letters, digits.
  - (* before the letters *)
    unfold word_boundary in Hb1.
    rewrite char_before_app, lookup_app_head in Hb1.
    assert (IsWordChar (head (w ++ post)) = true) as Hw.
    { unfold w. destruct Hl as [|a letters Ha _]; [simpl in *; lia|].
      simpl. apply upper_is_word. by apply Is_true_true. }
    rewrite Hw in Hb1. by destruct (IsWordChar (last pre)).
  - (* after the digits *)
    unfold word_boundary in Hb2.
    rewrite app_assoc, <- length_app in Hb2.
    rewrite char_before_app, lookup_app_head in Hb2.
    unfold w in Hb2 at 1.
    rewrite (app_assoc pre letters), (app_assoc _ ["-"%char] digits) in Hb2.
    rewrite IsWordChar_last_digits in Hb2 by done.
    by destruct (IsWordChar (head post)).
Qed.

Lemma whole_word_match_at (Input : list ascii) x w :
  whole_word_at Input x w →
  match_at Input ISSUE_ID_PATTERN x = Some (x + length w)
  ∧ slice Input (x, x + length w) = w.
Proof.
  intros (pre & post & -> & <- & (letters & digits & -> & Hl & Hll & Hd & Hdl) & Hpre & Hpost).
  set (w := letters ++ "-"%char :: digits) in *.
  split.
  - rewrite match_at_ISSUE.
    assert (word_boundary (pre ++ w ++ post) (length pre) = true) as ->.
    { unfold word_boundary. rewrite char_before_app, lookup_app_head, Hpre.
      unfold w. destruct Hl as [|a letters Ha _]; [simpl in *; lia|].
      simpl. apply upper_is_word. by apply Is_true_true. }
    unfold w at 1. rewrite body_end_complete; [|done..|]; cycle 1.
    { destruct post as [|b post]; [done|]. simpl in *. by apply not_word_not_digit. }
    fold w.
    assert (word_boundary (pre ++ w ++ post) (length pre + length w) = true) as ->; [|done].
    unfold word_boundary. rewrite app_assoc, <- length_app.
    rewrite char_before_app, lookup_app_head, Hpost.
    unfold w. rewrite (app_assoc pre letters), (app_assoc _ ["-"%char] digits).
    by rewrite IsWordChar_last_digits.
  - unfold slice. simpl. rewrite drop_app_length.
    replace (length pre + length w - length pre) with (length w) by lia.
    by rewrite take_app_length.
Qed.

End Shape.

(** ** The scan of [String.prototype.match] *)

Section Attempts.
Variable T : nat → option nat.

Lemma attempts_S i n :
  attempts T i (S n) =
    match T i with
    | Some e => (i, e) :: attempts T (S i) n
    | None => attempts T (S i) n
    end.
Proof. unfold attempts. simpl. by destruct (T i). Qed.

Lemma elem_of_attempts i n x e :
  (x, e) ∈ attempts T i n ↔ i ≤ x < i + n ∧ T x = Some e.
Proof.
  unfold attempts. rewrite list_elem_of_omap. split.
  - intros (y & Hy & Hx). apply elem_of_seq in Hy.
    destruct (T y) eqn:E; simplify_eq/=. done.
  - intros [Hx HT]. exists x. rewrite elem_of_seq, HT. done.
Qed.

Lemma attempts_none i n :
  (∀ y, i ≤ y < i + n → T y = None) → attempts T i n = [].
Proof.
  revert i. induction n as [|n IH]; intros i H; [done|].
  rewrite attempts_S, (H i) by lia. apply IH. intros y Hy. apply H. lia.
Qed.

(** Indices at which nothing matches can be skipped. *)
Lemma attempts_skip a b n :
  a ≤ b ≤ a + n → (∀ y, a ≤ y < b → T y = None) →
  attempts T a n = attempts T b (a + n - b).
Proof.
  revert a. induction n as [|n IH]; intros a Hab H.
  - by replace (a + 0 - b) with 0 by lia.
  - destruct (decide (a = b)) as [->|Hne].
    { by replace (b + S n - b) with (S n) by lia. }
    rewrite attempts_S, (H a) by lia.
    rewrite (IH (S a)); [f_equal; lia|lia|]. intros y Hy. apply H. lia.
Qed.

Lemma attempts_cons_inv i n x e tl :
  attempts T i n = (x, e) :: tl →
  i ≤ x < i + n ∧ T x = Some e ∧ tl = attempts T (S x) (i + n - S x).
Proof.
  revert i. induction n as [|n IH]; intros i; [done|].
  rewrite attempts_S. destruct (T i) as [e'|] eqn:E.
  - intros [= -> -> <-]. split_and!; [lia|lia|done|f_equal; lia].
  - intros H. apply IH in H as (? & ? & ->). split_and!; [lia|lia|done|f_equal; lia].
Qed.

(** The attempts are listed by increasing index. *)
Lemma attempts_later i n o1 p o2 q :
  attempts T i n = o1 ++ p :: o2 → q ∈ o2 → p.1 < q.1.
Proof.
  revert i n. induction o1 as [|p' o1 IH]; intros i n Heq Hq; simpl in Heq.
  - destruct p as [x e]. apply attempts_cons_inv in Heq as (Hx & _ & ->).
    destruct q as [x' e']. apply elem_of_attempts in Hq. simpl. lia.
  - destruct p' as [x e]. apply attempts_cons_inv in Heq as (_ & _ & Heq).
    symmetry in Heq. by eapply IH.
Qed.

End Attempts.

Section Scan.
Import Regex.
Variable Input : list ascii.
Variable r : Regex.t.

Let T := match_at Input r.

Lemma RegExpBuiltinExec_head n i :
  RegExpBuiltinExec Input r n i = head (attempts T i n).
Proof.
  revert i. induction n as [|n IH]; intros i; [done|].
  rewrite attempts_S. simpl. fold (T i). destruct (T i); [done|]. apply IH.
Qed.

(** Every match is non-empty and lies within the input. *)
Hypothesis match_progress : ∀ x e, T x = Some e → x < e ≤ length Input.
(** No match starts inside another. *)
Hypothesis match_disjoint : ∀ x e y, T x = Some e → x < y < e → T y = None.

Lemma match_loop_attempts fuel i :
  S (length Input) - i ≤ fuel →
  match_loop Input r fuel i = attempts T i (S (length Input) - i).
Proof.
  revert i. induction fuel as [|fuel IH]; intros i Hfuel.
  - by replace (S (length Input) - i) with 0 by lia.
  - simpl. unfold exec. rewrite RegExpBuiltinExec_head.
    destruct (attempts T i (S (length Input) - i)) as [|[x e] tl] eqn:E; [done|].
    simpl. apply attempts_cons_inv in E as (Hx & HT & ->).
    pose proof (match_progress _ _ HT) as He.
    rewrite bool_decide_eq_false_2 by lia. f_equal.
    rewrite IH by lia.
    rewrite (attempts_skip T (S x) e); [f_equal; lia|lia|].
    intros y Hy. apply (match_disjoint x e); [done|lia].
Qed.

Lemma match_positions_attempts :
  match_positions Input r = attempts T 0 (S (length Input)).
Proof.
  unfold match_positions. rewrite match_loop_attempts by lia.
  by rewrite Nat.sub_0_r.
Qed.

End Scan.

(** ** Matches of the extractor's pattern do not overlap *)

Section NoOverlap.
Import Regex Parser.
Variable Input : list ascii.

Lemma body_end_first_upper y e :
  body_end Input y = Some e → from_option is_upper false (Input !! y) = true.
Proof.
  unfold body_end. case_decide as H; [|done]. intros _.
  destruct H as (Hk & _ & _).
  rewrite <- (Nat.add_0_r y). apply lookup_in_run. lia.
Qed.

Lemma ISSUE_progress x e :
  match_at Input ISSUE_ID_PATTERN x = Some e → x < e ≤ length Input.
Proof. intros H. by apply match_at_whole_word in H as [_ ?]. Qed.

Lemma ISSUE_disjoint x e y :
  match_at Input ISSUE_ID_PATTERN x = Some e → x < y < e →
  match_at Input ISSUE_ID_PATTERN y = None.
Proof.
  rewrite !match_at_ISSUE.
  destruct (word_boundary Input x); [|done].
  destruct (body_end Input x) as [e0|] eqn:He; [|done].
  destruct (word_boundary Input e0); [|done]. intros [= ->] Hy.
  destruct (word_boundary Input y) eqn:Hb; [|done].
  destruct (body_end Input y) as [e'|] eqn:He'; [|done].
  exfalso. apply body_end_first_upper in He'.
  revert He. unfold body_end.
  set (k := Nat.min 10 (run is_upper (drop x Input))).
  set (d := run is_digit (drop (S (x + k)) Input)).
  case_decide as H; [|done]. destruct H as (Hk & Hh & Hd). intros [= <-].
  destruct (decide (y < x + k)) as [Hlt|Hge].
  - (* inside the letters: the character before is a letter *)
    assert (from_option is_upper false (Input !! (x + (y - 1 - x))) = true) as Hprev.
    { apply lookup_in_run. lia. }
    replace (x + (y - 1 - x)) with (y - 1) in Hprev by lia.
    unfold word_boundary in Hb. destruct y as [|y]; [lia|]. simpl in Hb, Hprev.
    rewrite Nat.sub_0_r in Hprev.
    destruct (Input !! y) as [a|]; [|done].
    destruct (Input !! S y) as [b|]; [|done]. simpl in *.
    by rewrite (upper_is_word a), (upper_is_word b) in Hb.
  - destruct (decide (y = x + k)) as [->|Hne].
    + (* at the hyphen *)
      rewrite Hh in He'. done.
    + (* inside the digits *)
      assert (from_option is_digit false (Input !! (S (x + k) + (y - S (x + k)))) = true) as Hdig.
      { apply lookup_in_run. fold d. lia. }
      replace (S (x + k) + (y - S (x + k))) with y in Hdig by lia.
      destruct (Input !! y) as [a|]; [|done]. simpl in *.
      by rewrite (digit_not_upper a) in He'.
Qed.

Lemma ISSUE_positions :
  match_positions Input ISSUE_ID_PATTERN =
    attempts (match_at Input ISSUE_ID_PATTERN) 0 (S (length Input)).
Proof.
  apply match_positions_attempts; [apply ISSUE_progress|apply ISSUE_disjoint].
Qed.

End NoOverlap.

(** ** Sets built from arrays *)

Section SetOf.

Lemma includes_spec l x : Js.includes l x = true ↔ x ∈ l.
Proof.
  induction l as [|y l IH]; simpl.
  - split; [done|]. by intros ?%elem_of_nil.
  - rewrite orb_true_iff, IH, String.eqb_eq, elem_of_cons. naive_solver.
Qed.

Lemma includes_false l x : Js.includes l x = false ↔ x ∉ l.
Proof. rewrite <- includes_spec. by destruct (Js.includes l x). Qed.

(** Adding the elements of [l] to the set [acc] appends the new ones, each
    once, in the order of their first occurrence in [l]. *)
Lemma Set_add_all (l acc : list string) :
  ∃ new,
    fold_left Js.Set_add l acc = acc ++ new
    ∧ NoDup new
    ∧ (∀ w, w ∈ new ↔ w ∈ l ∧ w ∉ acc)
    ∧ (∀ n1 w1 n2 w2, new = n1 ++ w1 :: n2 → w2 ∈ n2 →
         ∃ l1 l2, l = l1 ++ w1 :: l2 ∧ w2 ∉ l1).
Proof.
  revert acc. induction l as [|x l IH]; intros acc; simpl.
  - exists []. rewrite app_nil_r. split_and!; [done|constructor| |].
    + intros w. split; [by intros ?%elem_of_nil|]. by intros [?%elem_of_nil _].
    + intros [|??] ????; done.
  - unfold Js.Set_add at 2. destruct (Js.includes acc x) eqn:Hin.
    + apply includes_spec in Hin.
      destruct (IH acc) as (new & Heq & Hnd & Hmem & Hord).
      exists new. split_and!; [done|done| |].
      * intros w. rewrite Hmem, elem_of_cons. split; [naive_solver|].
        intros [[->|?] ?]; done.
      * intros n1 w1 n2 w2 Hn Hw2.
        destruct (Hord _ _ _ _ Hn Hw2) as (l1 & l2 & -> & Hnot).
        exists (x :: l1), l2. split; [done|].
        rewrite elem_of_cons. intros [->|?]; [|done].
        assert (x ∈ new) as Hx by (subst new; set_solver).
        apply Hmem in Hx as [_ ?]. done.
    + apply includes_false in Hin.
      destruct (IH (acc ++ [x])) as (new & Heq & Hnd & Hmem & Hord).
      exists (x :: new). split_and!.
      * by rewrite Heq, <- app_assoc.
      * constructor; [|done]. intros Hx%Hmem. set_solver.
      * intros w. rewrite !elem_of_cons, Hmem. rewrite elem_of_app, list_elem_of_singleton.
        destruct (decide (w = x)) as [->|]; naive_solver.
      * intros n1 w1 n2 w2 Hn Hw2. destruct n1 as [|y n1]; simplify_eq/=.
        { exists [], l. split; [done|]. by intros ?%elem_of_nil. }
        destruct (Hord _ _ _ _ eq_refl Hw2) as (l1 & l2 & -> & Hnot).
        exists (y :: l1), l2. split; [done|].
        rewrite elem_of_cons. intros [->|?]; [|done].
        assert (y ∈ n1 ++ w1 :: n2) as Hy by set_solver.
        apply Hmem in Hy as [_ Hy]. set_solver.
Qed.

Lemma Set_of_NoDup l : NoDup (Js.Set_of l).
Proof. unfold Js.Set_of. by destruct (Set_add_all l []) as (new & -> & ? & _). Qed.

Lemma elem_of_Set_of l w : w ∈ Js.Set_of l ↔ w ∈ l.
Proof.
  unfold Js.Set_of. destruct (Set_add_all l []) as (new & -> & _ & Hmem & _).
  simpl. rewrite Hmem. split; [by intros [? _]|]. intros ?. split; [done|].
  by intros ?%elem_of_nil.
Qed.

Lemma Set_of_order l n1 w1 n2 w2 :
  Js.Set_of l = n1 ++ w1 :: n2 → w2 ∈ n2 →
  ∃ l1 l2, l = l1 ++ w1 :: l2 ∧ w2 ∉ l1.
Proof.
  unfold Js.Set_of. destruct (Set_add_all l []) as (new & -> & _ & _ & Hord).
  simpl. intros -> ?. by eapply Hord.
Qed.

End SetOf.

(** ** The extractor *)

Section Extractor.
Import Regex Parser.

Lemma extractTicketIds_matches message :
  extractTicketIds message = Js.Set_of (matches_of message).
Proof.
  unfold extractTicketIds, match_global, matches_of.
  rewrite ISSUE_positions.
  by destruct (attempts _ 0 _).
Qed.

Lemma matches_of_occurs message w :
  w ∈ matches_of message ↔ ∃ i, occurs_at message i w.
Proof.
  unfold matches_of, occurs_at.
  set (Input := list_ascii_of_string message).
  rewrite list_elem_of_fmap. split.
  - intros ([x e] & -> & Hin). apply elem_of_attempts in Hin as [_ HT].
    exists x. rewrite list_ascii_of_string_of_list_ascii.
    by apply match_at_whole_word in HT as [? _].
  - intros (i & Hw). pose proof (whole_word_match_at _ _ _ Hw) as [HT Hs].
    exists (i, i + length (list_ascii_of_string w)). split.
    + by rewrite Hs, string_of_list_ascii_of_string.
    + apply elem_of_attempts. split; [|done].
      apply ISSUE_progress in HT. lia.
Qed.

(** In the list of matches, what comes before the first [w1] are the
    matches that start before the first occurrence of [w1]. *)
Lemma matches_of_first message l1 w1 l2 :
  matches_of message = l1 ++ w1 :: l2 →
  ∃ i, occurs_at message i w1
       ∧ ∀ j w2, occurs_at message j w2 → w2 ∉ l1 → w2 ≠ w1 → i < j.
Proof.
  unfold matches_of, occurs_at.
  set (Input := list_ascii_of_string message).
  set (f := λ ie, string_of_list_ascii (slice Input ie)).
  intros Heq.
  apply fmap_app_inv in Heq as (o1 & o2' & -> & Heq & Hocc).
  symmetry in Heq. apply fmap_cons_inv in Heq as ([x e] & o2 & -> & -> & ->).
  assert ((x, e) ∈ attempts (match_at Input ISSUE_ID_PATTERN) 0 (S (length Input))) as Hin.
  { rewrite Hocc. set_solver. }
  apply elem_of_attempts in Hin as [_ HT].
  exists x. split.
  - unfold f. rewrite list_ascii_of_string_of_list_ascii.
    by apply match_at_whole_word in HT as [? _].
  - intros j w2 Hw2 Hnot Hne.
    pose proof (whole_word_match_at _ _ _ Hw2) as [HT2 Hs2].
    set (q := (j, j + length (list_ascii_of_string w2))) in *.
    assert (f q = w2) as Hfq.
    { unfold f. by rewrite Hs2, string_of_list_ascii_of_string. }
    assert (q ∈ attempts (match_at Input ISSUE_ID_PATTERN) 0 (S (length Input))) as Hq.
    { apply elem_of_attempts. split; [|done]. apply ISSUE_progress in HT2. lia. }
    rewrite Hocc in Hq. apply elem_of_app in Hq as [Hq|Hq].
    { exfalso. apply Hnot. rewrite <- Hfq. by apply list_elem_of_fmap_2. }
    apply elem_of_cons in Hq as [Hq|Hq].
    { exfalso. apply Hne. by rewrite <- Hfq, Hq. }
    by apply (attempts_later _ _ _ _ _ _ _ Hocc Hq).
Qed.

End Extractor.

(** C2. For every message, [extractTicketIds] returns exactly the
    identifiers that occur in it as whole words ("two to ten uppercase
    letters, a hyphen, one or more digits", not preceded and not followed by
    a word character), each distinct identifier once, in the order of their
    first occurrences; when the message holds no such occurrence the result
    is empty. *)
Theorem extractTicketIds_spec (message : string) :
  let ids := Parser.extractTicketIds message in
  NoDup ids
  ∧ (∀ w, w ∈ ids ↔ ∃ i, occurs_at message i w)
  ∧ (∀ a b w1 w2, a < b → ids !! a = Some w1 → ids !! b = Some w2 →
       ∃ i, occurs_at message i w1 ∧ ∀ j, occurs_at message j w2 → i < j)
  ∧ ((∀ i w, ¬ occurs_at message i w) → ids = []).
Proof.
  cbv zeta. rewrite extractTicketIds_matches. split_and!.
  - apply Set_of_NoDup.
  - intros w. by rewrite elem_of_Set_of, matches_of_occurs.
  - intros a b w1 w2 Hab Ha Hb.
    pose proof (Set_of_NoDup (matches_of message)) as Hnd.
    assert (w1 ≠ w2) as Hne.
    { intros ->. pose proof (NoDup_lookup _ _ _ _ Hnd Ha Hb). lia. }
    pose proof (take_drop_middle _ _ _ Ha) as Hsplit. symmetry in Hsplit.
    assert (w2 ∈ drop (S a) (Js.Set_of (matches_of message))) as Hw2.
    { apply list_elem_of_lookup. exists (b - S a). rewrite lookup_drop.
      by replace (S a + (b - S a)) with b by lia. }
    destruct (Set_of_order _ _ _ _ _ Hsplit Hw2) as (l1 & l2 & Hl & Hnot).
    destruct (matches_of_first _ _ _ _ Hl) as (i & Hi & Hfirst).
    exists i. split; [done|]. intros j Hj. by apply (Hfirst j w2).
  - intros Hnone. destruct (Js.Set_of (matches_of message)) as [|w ids] eqn:E; [done|].
    assert (w ∈ Js.Set_of (matches_of message)) as Hw by (rewrite E; set_solver).
    apply elem_of_Set_of, matches_of_occurs in Hw as [i Hi]. by destruct (Hnone i w).
Qed.

Example extract_lowercase : Parser.extractTicketIds "fix proj-123 now" = [].
Proof. vm_compute. reflexivity. Qed.

Example extract_single_letter : Parser.extractTicketIds "see A-123" = [].
Proof. vm_compute. reflexivity. Qed.

Example extract_long_prefix : Parser.extractTicketIds "ABCDEFGHIJK-1 done" = [].
Proof. vm_compute. reflexivity. Qed.

Example extract_no_digits : Parser.extractTicketIds "PROJ- and PROJ-x" = [].
Proof. vm_compute. reflexivity. Qed.

Example extract_first_seen :
  Parser.extractTicketIds "CD-22 (AB-1) [CD-22] xAB-3 AB-4x AB-1" = ["CD-22"; "AB-1"].
Proof. vm_compute. reflexivity. Qed.

(** ** The factory *)

(** C1, as the claim states it, fails: with the REST variant selected and
    no project key, construction succeeds. *)
Lemma createIssueTracker_without_project_key :
  issueTracker jira_config_without_project_key = "jira"
  ∧ jiraProjectKey jira_config_without_project_key = None
  ∧ result (Factory.createIssueTracker jira_config_without_project_key) s0
    = inr (Factory.JiraTracker
             (Jira.new "https://company.atlassian.net/" "bot@company.com" "token")).
Proof. split_and!; reflexivity. Qed.

(** C1, amended. When the REST variant is selected, [createIssueTracker]
    checks the base URL, the account email and the secret token, in that
    order, and throws a [ConfigurationError] naming the first of them that is
    absent (or empty); when the three are present it constructs the adapter,
    whether or not a project key is configured. *)
Theorem createIssueTracker_jira (config : Config) (s : State) :
  issueTracker config = "jira" →
  (Js.truthy (jiraBaseUrl config) = false →
     result (Factory.createIssueTracker config) s
     = inl (ConfigurationError (Factory.required_for "jira_base_url" "jira")))
  ∧ (Js.truthy (jiraBaseUrl config) = true → Js.truthy (jiraEmail config) = false →
     result (Factory.createIssueTracker config) s
     = inl (ConfigurationError (Factory.required_for "jira_email" "jira")))
  ∧ (Js.truthy (jiraBaseUrl config) = true → Js.truthy (jiraEmail config) = true →
     Js.truthy (jiraApiToken config) = false →
     result (Factory.createIssueTracker config) s
     = inl (ConfigurationError (Factory.required_for "jira_api_token" "jira")))
  ∧ (∀ url email token,
       jiraBaseUrl config = Some url → url ≠ "" →
       jiraEmail config = Some email → email ≠ "" →
       jiraApiToken config = Some token → token ≠ "" →
       result (Factory.createIssueTracker config) s
       = inr (Factory.JiraTracker (Jira.new url email token))).
Proof.
  intros Hjira. destruct config as [tracker url email token ? ? ? ? ? ? ? ? ?].
  simpl in *. subst tracker.
  split_and!.
  - destruct url as [[|??]|]; done.
  - destruct url as [[|??]|]; [done| |done].
    destruct email as [[|??]|]; done.
  - destruct url as [[|??]|]; [done| |done].
    destruct email as [[|??]|]; [done| |done].
    destruct token as [[|??]|]; done.
  - intros u e t -> Hu -> He -> Ht.
    destruct u as [|??]; [done|]. destruct e as [|??]; [done|].
    destruct t as [|??]; [done|]. reflexivity.
Qed.

Lemma createIssueTracker_jira_witness :
  result (Factory.createIssueTracker jira_config_without_project_key) s0
  = inr (Factory.JiraTracker
           (Jira.new "https://company.atlassian.net/" "bot@company.com" "token")).
Proof.
  apply (createIssueTracker_jira jira_config_without_project_key s0 eq_refl);
    done.
Defined.

(** ** The adapters: active iteration, status filter, conversion *)

(** C6. [isInActiveSprint] answers true exactly when the issue carries an
    iteration in the open state: for the REST adapter a sprint whose state is
    [active], for the GraphQL adapter a cycle whose state is [started]; an
    issue without iteration yields false in both. *)
Theorem isInActiveSprint_iff (issue : Issue) (s : State) :
  (∃ b, result (Jira.isInActiveSprint issue) s = inr b
        ∧ (b = true ↔ ∃ sp, sprint issue = Some sp ∧ sprint_state sp = active))
  ∧ (∃ b, result (Linear.isInActiveSprint issue) s = inr b
        ∧ (b = true ↔ ∃ cy, cycle issue = Some cy ∧ cycle_state cy = started))
  ∧ (sprint issue = None → result (Jira.isInActiveSprint issue) s = inr false)
  ∧ (cycle issue = None → result (Linear.isInActiveSprint issue) s = inr false).
Proof.
  unfold result, Jira.isInActiveSprint, Linear.isInActiveSprint.
  split_and!.
  - destruct (sprint issue) as [sp|]; simpl.
    + eexists. split; [done|]. rewrite bool_decide_eq_true. naive_solver.
    + exists false. split; [done|]. naive_solver.
  - destruct (cycle issue) as [cy|]; simpl.
    + eexists. split; [done|]. rewrite bool_decide_eq_true. naive_solver.
    + exists false. split; [done|]. naive_solver.
  - by intros ->.
  - by intros ->.
Qed.

Lemma filter_includes (allowed : list string) (issues : list Issue) :
  filter (λ issue, Js.includes allowed (status issue)) issues
  = filter (λ issue, status issue ∈ allowed) issues.
Proof.
  apply list_filter_iff. intros issue.
  rewrite <- includes_spec. by destruct (Js.includes allowed (status issue)).
Qed.

(** C8. In both adapters [filterByStatus] hands the list back as it is when
    no statuses are given or the list of statuses is empty, and otherwise
    keeps, in their order, exactly the issues whose status is one of the
    allowed strings. *)
Theorem filterByStatus_spec (issues : list Issue) (s : State) :
  Jira.filterByStatus issues None s = (s, inr issues)
  ∧ Jira.filterByStatus issues (Some []) s = (s, inr issues)
  ∧ Linear.filterByStatus issues None s = (s, inr issues)
  ∧ Linear.filterByStatus issues (Some []) s = (s, inr issues)
  ∧ (∀ allowed, allowed ≠ [] →
       result (Jira.filterByStatus issues (Some allowed)) s
       = inr (filter (λ issue, status issue ∈ allowed) issues)
       ∧ result (Linear.filterByStatus issues (Some allowed)) s
       = inr (filter (λ issue, status issue ∈ allowed) issues)).
Proof.
  split_and!; [done..|].
  intros allowed Hne. unfold result, Jira.filterByStatus, Linear.filterByStatus.
  rewrite bool_decide_eq_false_2 by (by destruct allowed).
  rewrite <- filter_includes. done.
Qed.

Lemma filterByStatus_spec_witness :
  let i1 := {| id := "1"; key := "AB-1"; summary := "a"; status := "Done";
               assignee := None; sprint := None; cycle := None;
               pmEmail := None; url := "u1" |} in
  let i2 := {| id := "2"; key := "AB-2"; summary := "b"; status := "done";
               assignee := None; sprint := None; cycle := None;
               pmEmail := None; url := "u2" |} in
  result (Jira.filterByStatus [i1; i2; i1] (Some ["Done"])) s0 = inr [i1; i1].
Proof.
  cbv zeta.
  match goal with |- result (Jira.filterByStatus ?l _) _ = _ =>
    rewrite (proj1 (proj2 (proj2 (proj2 (proj2 (filterByStatus_spec l s0)))) ["Done"]
                      ltac:(discriminate)))
  end.
  reflexivity.
Defined.

(** C9, as the claim states it, fails: the conversion of a backend issue
    that is in no sprint populates neither iteration field. *)
Lemma convert_without_iteration :
  ∃ s issue,
    Jira.convertToGenericIssue (Jira.new "https://company.atlassian.net" "e" "t")
      jira_issue_without_sprint s0 = (s, inr issue)
    ∧ sprint issue = None ∧ cycle issue = None.
Proof. eexists _, _. split_and!; reflexivity. Qed.

(** C9, amended. An issue produced by either conversion never has both
    iteration fields populated: the REST adapter always leaves [cycle] empty
    and the GraphQL adapter always leaves [sprint] empty.  The adapter's own
    field is populated exactly when the backend issue carries an
    iteration, so at most one of the two is populated, and none when the
    backend issue has no iteration. *)
Theorem convertToGenericIssue_iterations (w : World.t) (s : State) :
  (∀ this jiraIssue, ∃ s' issue,
      Jira.convertToGenericIssue this jiraIssue s = (s', inr issue)
      ∧ cycle issue = None
      ∧ (is_Some (sprint issue) ↔ is_Some (f_sprint (fields jiraIssue))))
  ∧ (∀ linearIssue, ∃ s' issue,
      Linear.convertToGenericIssue w linearIssue s = (s', inr issue)
      ∧ sprint issue = None
      ∧ (is_Some (cycle issue) ↔ is_Some (li_cycle linearIssue))).
Proof.
  split.
  - intros this jiraIssue.
    unfold Jira.convertToGenericIssue, Jira.getJiraPmEmail.
    unfold mbind, M_bind, bind, mret, M_ret, ret.
    destruct (Js.truthy (emailAddress <$> customfield_pm (fields jiraIssue)));
      [|destruct (Js.truthy (emailAddress <$> f_reporter (fields jiraIssue)))];
      simpl; eexists _, _; (split; [reflexivity|]); simpl;
      (split; [done|]); destruct (f_sprint (fields jiraIssue));
      rewrite ?is_Some_alt; done.
  - intros linearIssue.
    unfold Linear.convertToGenericIssue, Linear.getCycleState.
    unfold mbind, M_bind, bind, mret, M_ret, ret, World.now.
    destruct (li_cycle linearIssue) as [lc|]; simpl.
    + repeat (case_match; simplify_eq/=); eexists _, _; (split; [reflexivity|]);
        simpl; rewrite ?is_Some_alt; done.
    + eexists _, _. split; [reflexivity|]. simpl. rewrite ?is_Some_alt. done.
Qed.

(** ** The state of a cycle *)

(** C3. The GraphQL adapter does not store the state of a cycle, it derives
    it when it converts an issue: for a cycle whose [startsAt] and [endsAt]
    are timestamps and whose [completedAt], when present, is one too (a
    non-empty string), the state is the one the rule gives at the time the
    clock shows. *)
Theorem getCycleState_rule (w : World.t) (c : LinearCycle) (s : State) (tS tE : Z) :
  World.Date_parse w (startsAt c) = Some tS →
  World.Date_parse w (endsAt c) = Some tE →
  completedAt c ≠ Some "" →
  let st := cycle_state_rule (completedAt c) tS tE (World.clock w (ticks s)) in
  result (Linear.getCycleState w (Some c)) s = inr st
  ∧ ∀ linearIssue, li_cycle linearIssue = Some c →
      ∃ s' issue,
        Linear.convertToGenericIssue w linearIssue s = (s', inr issue)
        ∧ cycle issue = Some {| cycle_name := lc_name c; cycle_state := st |}.
Proof.
  intros HS HE Hc. cbv zeta.
  assert (∃ s', Linear.getCycleState w (Some c) s
                = (s', inr (cycle_state_rule (completedAt c) tS tE (World.clock w (ticks s)))))
    as [s' Hrun].
  { unfold Linear.getCycleState, cycle_state_rule. unfold_M. rewrite HS, HE.
    unfold Linear.date_lt, Linear.date_ge, Linear.date_le.
    destruct (completedAt c) as [t|] eqn:Ht.
    - assert (Js.truthy (Some t) = true) as ->.
      { simpl. apply negb_true_iff, String.eqb_neq. congruence. }
      rewrite decide_True by (by eexists). by eexists.
    - simpl.
      repeat case_bool_decide; repeat case_decide; simpl; try lia;
        try (exfalso; by eapply is_Some_None); by eexists. }
  split.
  - unfold result. by rewrite Hrun.
  - intros linearIssue Hli. unfold Linear.convertToGenericIssue.
    rewrite Hli. unfold mbind, M_bind, bind at 1 2. rewrite Hrun.
    eexists _, _. split; reflexivity.
Qed.

Lemma getCycleState_rule_witness :
  result (Linear.getCycleState demo_world (Some demo_cycle)) s0 = inr started.
Proof.
  apply (getCycleState_rule demo_world demo_cycle s0
           1704067200000%Z 1705276800000%Z eq_refl eq_refl).
  discriminate.
Defined.

(** ** Fetching issues *)

Section Fetching.
Variable w : World.t.

Lemma Jira_convert_total this jiraIssue s :
  ∃ s' issue, Jira.convertToGenericIssue this jiraIssue s = (s', inr issue).
Proof.
  unfold Jira.convertToGenericIssue, Jira.getJiraPmEmail. unfold_M.
  repeat (case_match; simplify_eq/=); by eexists _, _.
Qed.

Lemma Jira_convert_all_total this jiraIssues s :
  ∃ s' issues, Jira.convert_all this jiraIssues s = (s', inr issues).
Proof.
  revert s. induction jiraIssues as [|ji l IH]; intros s; simpl.
  - by eexists _, _.
  - unfold mbind, M_bind, bind.
    destruct (Jira_convert_total this ji s) as (s1 & i & ->).
    destruct (IH s1) as (s2 & is' & ->). by eexists _, _.
Qed.

Lemma Jira_getIssues_total this ticketIds s :
  ∃ s' issues, Jira.getIssues w this ticketIds s = (s', inr issues).
Proof.
  unfold Jira.getIssues. case_bool_decide; [by eexists _, _|].
  unfold Jira.getJiraIssues. rewrite bool_decide_eq_false_2 by done.
  unfold Jira.request. unfold_M. cbn beta iota.
  destruct (World.jira_search w _) as [body|msg st resp]; cbn beta iota.
  - match goal with |- context [Jira.convert_all this body ?s1] =>
      destruct (Jira_convert_all_total this body s1) as (s2 & issues & ->) end.
    by eexists _, _.
  - by eexists _, _.
Qed.

Lemma Linear_convert_total linearIssue s :
  ∃ s' issue, Linear.convertToGenericIssue w linearIssue s = (s', inr issue).
Proof.
  unfold Linear.convertToGenericIssue, Linear.getCycleState. unfold_M.
  repeat (case_match; simplify_eq/=); by eexists _, _.
Qed.

Lemma Linear_getIssue_total this identifier s :
  ∃ s' issue, Linear.getIssue w this identifier s = (s', inr issue).
Proof.
  unfold Linear.getIssue, Linear.request. unfold_M.
  destruct (World.linear_issue w identifier) as [[d errs]|msg st resp]; cbn beta iota.
  - case_bool_decide; [by eexists _, _|]. cbn [data].
    destruct d as [[li|]|]; [|by eexists _, _..].
    destruct (Js.truthy _ && _); [by eexists _, _|].
    match goal with |- context [Linear.convertToGenericIssue w li ?s1] =>
      destruct (Linear_convert_total li s1) as (s2 & issue & ->) end.
    by eexists _, _.
  - by eexists _, _.
Qed.

Lemma Linear_fetch_loop_total this issueIds issues s :
  ∃ s' issues', Linear.fetch_loop w this issueIds issues s = (s', inr issues').
Proof.
  revert issues s. induction issueIds as [|issueId rest IH]; intros issues s; simpl.
  - by eexists _, _.
  - unfold mbind, M_bind, bind.
    destruct (Linear_getIssue_total this issueId s) as (s1 & issue & ->).
    apply IH.
Qed.

Lemma Linear_getIssues_total this issueIds s :
  ∃ s' issues, Linear.getIssues w this issueIds s = (s', inr issues).
Proof.
  unfold Linear.getIssues. case_bool_decide; [by eexists _, _|].
  unfold_M. cbn beta iota.
  match goal with |- context [Linear.fetch_loop w this issueIds [] ?s1] =>
    destruct (Linear_fetch_loop_total this issueIds [] s1) as (s2 & issues & ->) end.
  by eexists _, _.
Qed.

Lemma Linear_getIssue_failure this identifier msg st resp s :
  World.linear_issue w identifier = Failure msg st resp →
  ∃ s', Linear.getIssue w this identifier s = (s', inr None)
        ∧ (∃ e, log s' = log s ++ [e; linear_failure_entry identifier msg]).
Proof.
  intros Hfail. unfold Linear.getIssue, Linear.request. unfold_M.
  rewrite Hfail. cbn beta iota. eexists. split; [reflexivity|].
  cbn [log]. rewrite <- app_assoc. by eexists.
Qed.

Lemma Linear_fetch_loop_all_fail this issueIds issues s :
  (∀ i, i ∈ issueIds → ∃ msg st resp, World.linear_issue w i = Failure msg st resp) →
  ∃ s', Linear.fetch_loop w this issueIds issues s = (s', inr issues)
        ∧ (∀ e, e ∈ log s → e ∈ log s')
        ∧ (∀ i, i ∈ issueIds → ∃ msg, linear_failure_entry i msg ∈ log s').
Proof.
  revert s. induction issueIds as [|i rest IH]; intros s Hall; simpl.
  - eexists. split_and!; [done|done|]. by intros ? ?%elem_of_nil.
  - destruct (Hall i) as (msg & st & resp & Hi); [set_solver|].
    destruct (Linear_getIssue_failure this i msg st resp s Hi) as (s1 & Hrun & e1 & Hlog).
    unfold mbind, M_bind, bind. rewrite Hrun.
    destruct (IH s1) as (s2 & Hrest & Hkeep & Hlogged); [set_solver|].
    exists s2. split_and!; [done| |].
    + intros e He. apply Hkeep. rewrite Hlog. set_solver.
    + intros j [->|Hj]%elem_of_cons; [|by apply Hlogged].
      exists msg. apply Hkeep. rewrite Hlog. set_solver.
Qed.

End Fetching.

(** C7. In both adapters [getIssues] on an empty list of identifiers
    returns an empty list, without a request or a log entry.  When the batch
    request of the REST adapter fails, the tracker error is caught, logged
    ("Failed to get issues") and an empty list is returned; when every
    request of the GraphQL adapter fails, each tracker error is caught and
    logged and the list returned is empty.  In no case does [getIssues]
    throw. *)
Theorem getIssues_contains_failures (w : World.t) (s : State) :
  (∀ this, Jira.getIssues w this [] s = (s, inr []))
  ∧ (∀ this, Linear.getIssues w this [] s = (s, inr []))
  ∧ (∀ this ticketIds msg st resp,
       ticketIds ≠ [] →
       World.jira_search w ("key in (" +:+ String.concat "," ticketIds +:+ ")")
       = Failure msg st resp →
       ∃ s', Jira.getIssues w this ticketIds s = (s', inr [])
             ∧ logged LError
                 ("[JiraService] Failed to get issues: Jira API error: " +:+ msg) s')
  ∧ (∀ this issueIds,
       (∀ i, i ∈ issueIds → ∃ msg st resp, World.linear_issue w i = Failure msg st resp) →
       ∃ s', Linear.getIssues w this issueIds s = (s', inr [])
             ∧ ∀ i, i ∈ issueIds → ∃ msg,
                 logged LError
                   ("[LinearService] Failed to get issue " +:+ i
                    +:+ ": Linear API error: " +:+ msg) s')
  ∧ (∀ this ticketIds, ∃ s' issues, Jira.getIssues w this ticketIds s = (s', inr issues))
  ∧ (∀ this issueIds, ∃ s' issues, Linear.getIssues w this issueIds s = (s', inr issues)).
Proof.
  split_and!.
  - done.
  - done.
  - intros this ticketIds msg st resp Hne Hfail.
    unfold Jira.getIssues, Jira.getJiraIssues.
    rewrite !bool_decide_eq_false_2 by (by destruct ticketIds).
    unfold Jira.request. unfold_M. rewrite Hfail. cbn beta iota.
    eexists. split; [reflexivity|]. unfold logged. cbn [log].
    rewrite !elem_of_app, !list_elem_of_singleton. left. right. reflexivity.
  - intros this issueIds Hall.
    unfold Linear.getIssues. case_bool_decide as Hlen.
    { destruct issueIds; [|done]. eexists. split; [done|]. by intros ? ?%elem_of_nil. }
    unfold_M. cbn beta iota.
    match goal with |- context [Linear.fetch_loop w this issueIds [] ?s1] =>
      destruct (Linear_fetch_loop_all_fail w this issueIds [] s1 Hall)
        as (s2 & -> & Hkeep & Hlogged) end.
    eexists. split; [reflexivity|]. intros i Hi.
    destruct (Hlogged i Hi) as [msg Hmsg]. exists msg. unfold logged. cbn [log].
    rewrite !elem_of_app. left. left. exact Hmsg.
  - intros. apply Jira_getIssues_total.
  - intros. apply Linear_getIssues_total.
Qed.

Lemma getIssues_contains_failures_witness :
  ∃ s', Jira.getIssues demo_world (Jira.new "https://company.atlassian.net" "e" "t")
          ["AB-1"; "AB-2"] s0 = (s', inr [])
        ∧ logged LError
            "[JiraService] Failed to get issues: Jira API error: Network Error" s'.
Proof.
  apply (proj1 (proj2 (proj2 (getIssues_contains_failures demo_world s0)))
           _ ["AB-1"; "AB-2"] "Network Error" None None); [discriminate|reflexivity].
Defined.

(** ** Destination resolution *)

Section Resolution.
Variable w : World.t.

Lemma truthy_Some (v : string) : Js.truthy (Some v) = true ↔ v ≠ "".
Proof. simpl. by rewrite negb_true_iff, String.eqb_neq. Qed.

Lemma truthy_false (o : option string) :
  Js.truthy o = false ↔ o = None ∨ o = Some "".
Proof.
  destruct o as [v|]; simpl; [|naive_solver].
  rewrite negb_false_iff, String.eqb_eq. naive_solver.
Qed.



Lemma getUserIdByEmail_run email s :
  ∃ s', Slack.getUserIdByEmail w email s
        = (s', inr match World.slack_lookupByEmail w email with
                   | Response r =>
                       if World.ok r then u ← World.user r; World.user_id u else None
                   | Failure _ _ _ => None
                   end).
Proof.
  unfold Slack.getUserIdByEmail, Slack.call. unfold_M.
  destruct (World.slack_lookupByEmail w email) as [[[] [u|]]|];
    eexists; reflexivity.
Qed.

Lemma getPmEmail_run tracker issue s :
  ∃ s', Factory.getPmEmail tracker issue s = (s', inr (pmEmail issue)).
Proof. destruct tracker; by eexists. Qed.

Lemma fallback_run config s :
  result (Main.fallback config) s = inr (Js.Str (slackChannelOrUser config)).
Proof. reflexivity. Qed.



End Resolution.







(** The lookup left out of C4: for the project key [constructor] and a
    mapping without an entry of its own under it, the destination is the
    member that the mapping inherits, which is no string. *)
Example resolveSlackTarget_inherited :
  inherited_key config_with_inherited_key
  ∧ result (Main.resolveSlackTarget owner_world [issue_with_owner]
              config_with_inherited_key demo_tracker) s0
    = inr (Js.Member "constructor").
Proof.
  assert (({[ "OTHER" := "U01234567" ]} : gmap string string) !! "constructor" = None)
    as Hlook by (by apply lookup_singleton_ne).
  split.
  - exists {[ "OTHER" := "U01234567" ]}, "constructor".
    split_and!; [reflexivity| |reflexivity|done|].
    + apply insert_non_empty.
    + apply includes_spec. reflexivity.
  - unfold result, Main.resolveSlackTarget, Main.projectMapping, Js.get.
    cbn [pmMapping config_with_inherited_key].
    replace (Factory.getProjectKey config_with_inherited_key)
      with (Some "constructor") by reflexivity.
    by rewrite Hlook, map_size_singleton.
Qed.

(** ** Scoping by grouping key *)

Lemma prefix_has_prefix p s : String.prefix p s = true ↔ has_prefix p s.
Proof.
  unfold has_prefix. revert s. induction p as [|a p IH]; intros s.
  - split; [|by destruct s]. intros _. apply prefix_nil.
  - destruct s as [|b s]; cbn [String.prefix list_ascii_of_string].
    + split; [done|]. by intros ?%prefix_nil_not.
    + destruct (ascii_dec a b) as [->|Hne].
      * rewrite IH. split; [apply prefix_cons|apply prefix_cons_inv_2].
      * split; [done|]. by intros ?%prefix_cons_inv_1.
Qed.

Section Scoping.
Import Parser.

Lemma parse_one_scoped k commit s :
  k ≠ "" →
  ∃ s', parse_one (Some k) commit s = (s', inr (scoped_entry k commit)).
Proof.
  intros Hk. unfold parse_one, scoped_entry.
  rewrite (proj2 (truthy_Some k) Hk). cbn [from_option Datatypes.id].
  assert (filter (λ id, Js.startsWith id (k +:+ "-")) (extractTicketIds (commit_message commit))
          = filter (has_prefix (k +:+ "-")) (extractTicketIds (commit_message commit))) as ->.
  { apply list_filter_iff. intros i. unfold Js.startsWith.
    rewrite <- prefix_has_prefix. by destruct (String.prefix _ _). }
  destruct (filter _ _) as [|i ids]; cbn [length].
  - rewrite bool_decide_eq_false_2 by lia. rewrite decide_True by done. by eexists.
  - rewrite bool_decide_eq_true_2 by lia. rewrite decide_False by done.
    unfold_M. by eexists.
Qed.

Lemma parse_loop_scoped k commits parsedCommits s :
  k ≠ "" →
  ∃ s', parse_loop (Some k) commits parsedCommits s
        = (s', inr (parsedCommits ++ omap (scoped_entry k) commits)).
Proof.
  intros Hk. revert parsedCommits s.
  induction commits as [|commit rest IH]; intros parsedCommits s; simpl.
  - rewrite app_nil_r. by eexists.
  - unfold mbind, M_bind, bind.
    destruct (parse_one_scoped k commit s Hk) as (s1 & ->).
    destruct (scoped_entry k commit) as [pc|].
    + destruct (IH (parsedCommits ++ [pc]) s1) as (s2 & ->).
      exists s2. by rewrite <- app_assoc.
    + apply IH.
Qed.

End Scoping.

(** C5. With a grouping key supplied (a non-empty string: the code takes an
    empty one for none), [parseCommits] keeps of every commit the extracted
    identifiers that start with the key followed by a hyphen, in their
    order, and makes an entry only for a commit that keeps at least one: the
    result lists, in the order of the commits, the entries of those commits
    and nothing for the others. *)
Theorem parseCommits_scoped (commits : list Commit) (k : string) (s : State) :
  k ≠ "" →
  ∃ s' parsed,
    Parser.parseCommits commits (Some k) s = (s', inr parsed)
    ∧ parsed = omap (scoped_entry k) commits
    ∧ Forall (λ pc, ticketIds pc ≠ []
                    ∧ Forall (has_prefix (k +:+ "-")) (ticketIds pc)) parsed.
Proof.
  intros Hk. unfold Parser.parseCommits.
  destruct (parse_loop_scoped k commits [] s Hk) as (s' & ->).
  eexists _, _. split; [done|]. split; [done|]. simpl.
  apply Forall_forall. intros pc (commit & _ & Hpc)%list_elem_of_omap.
  unfold scoped_entry in Hpc. case_decide as Hids; [done|].
  injection Hpc as <-. simpl. split; [done|].
  apply Forall_forall. by intros i [? _]%list_elem_of_filter.
Qed.

Lemma parseCommits_scoped_witness :
  ∃ s' parsed,
    Parser.parseCommits [commit_ab_cd; commit_cd] (Some "AB") s0 = (s', inr parsed)
    ∧ parsed = omap (scoped_entry "AB") [commit_ab_cd; commit_cd]
    ∧ Forall (λ pc, ticketIds pc ≠ []
                    ∧ Forall (has_prefix ("AB" +:+ "-")) (ticketIds pc)) parsed.
Proof.
  apply (parseCommits_scoped [commit_ab_cd; commit_cd] "AB" s0). discriminate.
Defined.

(** The example of the specification: of AB-1 and CD-2 only AB-1 is kept
    under the key AB, and the commit that mentions CD-2 alone has no entry. *)
Example parseCommits_AB :
  result (Parser.parseCommits [commit_ab_cd; commit_cd] (Some "AB")) s0
  = inr [ {| sha := "0123456789abcdef";
             message := "AB-1 and CD-2: fix the parser";
             author := "dev";
             ticketIds := ["AB-1"] |} ].
Proof. vm_compute. reflexivity. Qed.

(** Without a grouping key, or with an empty one, nothing is filtered. *)
Example parseCommits_unscoped :
  result (Parser.parseCommits [commit_ab_cd] None) s0
  = inr [ {| sha := "0123456789abcdef";
             message := "AB-1 and CD-2: fix the parser";
             author := "dev";
             ticketIds := ["AB-1"; "CD-2"] |} ]
  ∧ result (Parser.parseCommits [commit_ab_cd] (Some "")) s0
    = result (Parser.parseCommits [commit_ab_cd] None) s0.
Proof. split; vm_compute; reflexivity. Qed.

(** ** Validation and detection *)

Section Detection.
Import Regex Parser.

Lemma body_end_ticket_shape (Input : list ascii) :
  body_end Input 0 = Some (length Input) ↔ ticket_shape Input.
Proof.
  split.
  - intros He. destruct (body_end_shape _ _ _ He)
      as (letters & digits & Hdrop & Hl & Hll & Hd & Hdl & _ & _).
    rewrite drop_all, app_nil_r in Hdrop. simpl in Hdrop.
    by exists letters, digits.
  - intros (letters & digits & -> & Hl & Hll & Hd & Hdl).
    pose proof (body_end_complete [] letters digits [] Hl Hll Hd Hdl eq_refl) as H.
    simpl in H. by rewrite app_nil_r in H.
Qed.

Lemma isValidTicketId_shape (ticketId : string) :
  isValidTicketId ticketId = true ↔ ticket_shape (list_ascii_of_string ticketId).
Proof.
  unfold isValidTicketId, test, exec.
  set (Input := list_ascii_of_string ticketId).
  rewrite RegExpBuiltinExec_head, bool_decide_eq_true, <- body_end_ticket_shape.
  rewrite Nat.sub_0_r, attempts_S, match_at_VALID.
  rewrite (attempts_none _ 1).
  - case_bool_decide as H.
    + split; [by intros _; destruct H|]. intros _. by eexists.
    + split; [by intros [? ?]|]. intros He. destruct H. done.
  - intros y Hy. rewrite match_at_VALID. rewrite bool_decide_eq_false_2; [done|]. lia.
Qed.

Lemma length_string_of_list_ascii (l : list ascii) :
  String.length (string_of_list_ascii l) = length l.
Proof. induction l as [|a l IH]; simpl; [done|]. by rewrite IH. Qed.

Lemma split_first (sep : ascii) (l1 l2 : list ascii) :
  sep ∉ l1 →
  head (JsString.split sep (string_of_list_ascii (l1 ++ sep :: l2)))
  = Some (string_of_list_ascii l1).
Proof.
  induction l1 as [|a l1 IH]; intros Hsep; simpl.
  - by rewrite bool_decide_eq_true_2.
  - rewrite bool_decide_eq_false_2 by set_solver.
    destruct (JsString.split sep _) as [|p ps]; simpl in *.
    + by (discriminate IH; set_solver).
    + f_equal. f_equal. assert (Some p = Some (string_of_list_ascii l1)) as Hp.
      { apply IH. set_solver. }
      by injection Hp.
Qed.

Lemma first_piece_letters (issueId : string) (letters digits : list ascii) :
  list_ascii_of_string issueId = letters ++ "-"%char :: digits →
  Forall is_upper letters →
  String.length (JsString.first_piece "-" issueId) = length letters.
Proof.
  intros Hid Hl. unfold JsString.first_piece.
  rewrite <- (string_of_list_ascii_of_string issueId), Hid.
  rewrite split_first.
  - apply length_string_of_list_ascii.
  - intros Hin. rewrite Forall_forall in Hl. specialize (Hl _ Hin). done.
Qed.

End Detection.

(** C10. [detectIssueTracker] never answers [linear]: it answers [unknown]
    for a string that is not an identifier (two to ten uppercase letters, a
    hyphen, one or more digits, and nothing else), [unknown] for an
    identifier whose prefix has at most four letters, and [jira] for every
    other identifier. *)
Theorem detectIssueTracker_spec (issueId : string) :
  Parser.detectIssueTracker issueId ≠ Tlinear
  ∧ (¬ ticket_shape (list_ascii_of_string issueId) →
     Parser.detectIssueTracker issueId = Tunknown)
  ∧ (∀ letters digits,
       list_ascii_of_string issueId = letters ++ "-"%char :: digits →
       Forall Regex.is_upper letters → 2 ≤ length letters ≤ 10 →
       Forall Regex.is_digit digits → 1 ≤ length digits →
       (length letters ≤ 4 → Parser.detectIssueTracker issueId = Tunknown)
       ∧ (4 < length letters → Parser.detectIssueTracker issueId = Tjira)).
Proof.
  unfold Parser.detectIssueTracker. split_and!.
  - destruct (negb _); [done|]. by case_bool_decide.
  - intros Hshape. rewrite <- isValidTicketId_shape in Hshape.
    by destruct (Parser.isValidTicketId issueId).
  - intros letters digits Hid Hl Hll Hd Hdl.
    assert (Parser.isValidTicketId issueId = true) as ->.
    { apply isValidTicketId_shape. rewrite Hid. by exists letters, digits. }
    rewrite (first_piece_letters issueId letters digits Hid Hl). simpl.
    split; intros Hlen.
    + by rewrite bool_decide_eq_true_2.
    + rewrite bool_decide_eq_false_2; [done|lia].
Qed.

Example detect_long_prefix : Parser.detectIssueTracker "PROJECT-42" = Tjira.
Proof. vm_compute. reflexivity. Qed.

Example detect_short_prefix : Parser.detectIssueTracker "ENG-42" = Tunknown.
Proof. vm_compute. reflexivity. Qed.

Example detect_not_an_identifier : Parser.detectIssueTracker "see PROJECT-42" = Tunknown.
Proof. vm_compute. reflexivity. Qed.

Lemma detectIssueTracker_spec_witness :
  Parser.detectIssueTracker "PROJECT-42" = Tjira.
Proof.
  apply (proj2 (proj2 (detectIssueTracker_spec "PROJECT-42"))
           (list_ascii_of_string "PROJECT") (list_ascii_of_string "42") eq_refl).
  - repeat constructor.
  - simpl. lia.
  - repeat constructor.
  - simpl. lia.
  - simpl. lia.
Defined.

(** ** Further properties of the extractor and the adapters *)

(** X1. [isValidTicketId] accepts exactly the strings that are an
    identifier and nothing else: two to ten uppercase letters, a hyphen, one
    or more digits. *)
Theorem isValidTicketId_spec (ticketId : string) :
  Parser.isValidTicketId ticketId = true
  ↔ ticket_shape (list_ascii_of_string ticketId).
Proof. apply isValidTicketId_shape. Qed.

Lemma elem_of_concat (ll : list (list string)) w :
  w ∈ concat ll ↔ ∃ l, l ∈ ll ∧ w ∈ l.
Proof.
  rewrite list_elem_of_In, in_concat. split.
  - intros (l & ? & ?). exists l. by rewrite !list_elem_of_In.
  - intros (l & ? & ?). exists l. by rewrite <- !list_elem_of_In.
Qed.

(** X2. [getAllTicketIds] merges the identifiers of all parsed commits:
    every identifier of some commit is listed, once, and the identifiers
    come in the order in which they are first seen across the commits. *)
Theorem getAllTicketIds_spec (parsedCommits : list ParsedCommit) :
  let all := concat (map ticketIds parsedCommits) in
  NoDup (Parser.getAllTicketIds parsedCommits)
  ∧ (∀ w, w ∈ Parser.getAllTicketIds parsedCommits
          ↔ ∃ pc, pc ∈ parsedCommits ∧ w ∈ ticketIds pc)
  ∧ (∀ n1 w1 n2 w2,
       Parser.getAllTicketIds parsedCommits = n1 ++ w1 :: n2 → w2 ∈ n2 →
       ∃ l1 l2, all = l1 ++ w1 :: l2 ∧ w2 ∉ l1).
Proof.
  cbv zeta. unfold Parser.getAllTicketIds. split_and!.
  - apply Set_of_NoDup.
  - intros w. rewrite elem_of_Set_of, elem_of_concat. split.
    + intros (l & (pc & -> & Hpc)%list_elem_of_fmap & Hw). by exists pc.
    + intros (pc & Hpc & Hw). exists (ticketIds pc). split; [|done].
      by apply (list_elem_of_fmap_2 ticketIds).
  - apply Set_of_order.
Qed.

(** X3. Team scoping of the GraphQL adapter: with a team key configured, an
    issue the backend returns for another team is discarded. *)
Theorem getIssue_team_scoping (w : World.t) (this : Linear.LinearService)
    (identifier k : string) (linearIssue : LinearIssue) (s : State) :
  Linear.teamKey this = Some k → k ≠ "" →
  World.linear_issue w identifier
  = Response {| data := Some (Some linearIssue); errors := None |} →
  team_key (team linearIssue) ≠ k →
  result (Linear.getIssue w this identifier) s = inr None.
Proof.
  intros Hk Hne Hresp Hteam. unfold result, Linear.getIssue, Linear.request.
  unfold_M. rewrite Hresp. cbn beta iota. cbn [errors data].
  rewrite bool_decide_eq_false_2 by apply is_Some_None.
  rewrite Hk, (proj2 (truthy_Some k) Hne).
  rewrite bool_decide_eq_false_2 by congruence. reflexivity.
Qed.

(** X4. Owner resolution of the REST adapter: the email of the designated
    custom field when it has one, else the reporter's, else none. *)
Theorem getJiraPmEmail_spec (jiraIssue : JiraIssue) (s : State) :
  let custom := emailAddress <$> customfield_pm (fields jiraIssue) in
  let reporter := emailAddress <$> f_reporter (fields jiraIssue) in
  (∀ e, custom = Some e → e ≠ "" →
     result (Jira.getJiraPmEmail jiraIssue) s = inr (Some e))
  ∧ (∀ e, (custom = None ∨ custom = Some "") → reporter = Some e → e ≠ "" →
     result (Jira.getJiraPmEmail jiraIssue) s = inr (Some e))
  ∧ ((custom = None ∨ custom = Some "") → (reporter = None ∨ reporter = Some "") →
     result (Jira.getJiraPmEmail jiraIssue) s = inr None).
Proof.
  cbv zeta. unfold result, Jira.getJiraPmEmail. split_and!.
  - intros e -> He. by rewrite (proj2 (truthy_Some e) He).
  - intros e Hc -> He. rewrite (proj2 (truthy_false _) Hc).
    by rewrite (proj2 (truthy_Some e) He).
  - intros Hc Hr. by rewrite (proj2 (truthy_false _) Hc), (proj2 (truthy_false _) Hr).
Qed.

(** X5. A cycle whose [startsAt] is no date the runtime can parse, and
    that is not marked completed, is taken for completed: every comparison
    with the invalid date is false. *)
Theorem getCycleState_invalid_start (w : World.t) (c : LinearCycle) (s : State) :
  World.Date_parse w (startsAt c) = None →
  completedAt c = None →
  result (Linear.getCycleState w (Some c)) s = inr completed.
Proof.
  intros HS Hc. unfold result, Linear.getCycleState. unfold_M.
  rewrite HS, Hc. reflexivity.
Qed.

Lemma getIssue_team_scoping_witness :
  result (Linear.getIssue ops_world (Linear.new "lin_api_key" (Some "ENG")) "OPS-7") s0
  = inr None.
Proof.
  apply (getIssue_team_scoping ops_world _ "OPS-7" "ENG" linear_issue_ops s0);
    [reflexivity|discriminate|reflexivity|discriminate].
Defined.

Lemma getCycleState_invalid_start_witness :
  result (Linear.getCycleState demo_world (Some cycle_with_invalid_start)) s0
  = inr completed.
Proof.
  apply (getCycleState_invalid_start demo_world cycle_with_invalid_start s0);
    reflexivity.
Defined.

(** With the team key of the issue, or none, the issue is kept. *)
Example getIssue_same_team :
  ∃ issue,
    result (Linear.getIssue ops_world (Linear.new "lin_api_key" (Some "OPS")) "OPS-7") s0
    = inr (Some issue)
    ∧ key issue = "OPS-7" ∧ cycle issue = Some {| cycle_name := "Cycle 12"; cycle_state := started |}.
Proof. eexists. split_and!; reflexivity. Qed.

(** ** The other branches of the factory *)

(** X6. When the GraphQL variant is selected, [createIssueTracker] requires
    the API key only: without it (absent or empty) it throws a
    [ConfigurationError] naming [linear_api_key]; with it the adapter is
    constructed with the team key as configured, present or not, and
    whatever the fields of the REST variant hold. *)
Theorem createIssueTracker_linear (config : Config) (s : State) :
  issueTracker config = "linear" →
  (Js.truthy (linearApiKey config) = false →
     result (Factory.createIssueTracker config) s
     = inl (ConfigurationError (Factory.required_for "linear_api_key" "linear")))
  ∧ (∀ k, linearApiKey config = Some k → k ≠ "" →
       result (Factory.createIssueTracker config) s
       = inr (Factory.LinearTracker (Linear.new k (linearTeamKey config)))).
Proof.
  intros Hlinear. destruct config as [tracker ? ? ? ? apiKey teamKey ? ? ? ? ? ?].
  simpl in *. subst tracker. split.
  - destruct apiKey as [[|??]|]; done.
  - intros k -> Hk. destruct k as [|??]; [done|].
    destruct teamKey as [[|??]|]; reflexivity.
Qed.

Lemma createIssueTracker_linear_witness :
  result (Factory.createIssueTracker linear_config_without_key) s0
  = inl (ConfigurationError (Factory.required_for "linear_api_key" "linear")).
Proof.
  apply (createIssueTracker_linear linear_config_without_key s0 eq_refl).
  reflexivity.
Defined.

(** X7. For a tracker selector that is neither [jira] nor [linear],
    [createIssueTracker] throws a [ConfigurationError] that names the
    selector; no adapter is constructed. *)
Theorem createIssueTracker_unknown (config : Config) (s : State) :
  issueTracker config ≠ "jira" → issueTracker config ≠ "linear" →
  result (Factory.createIssueTracker config) s
  = inl (ConfigurationError ("Unknown issue tracker: " +:+ issueTracker config)).
Proof.
  intros Hj Hl. unfold result, Factory.createIssueTracker. unfold_M.
  cbn beta iota. apply String.eqb_neq in Hj, Hl. by rewrite Hj, Hl.
Qed.

Lemma createIssueTracker_unknown_witness :
  result (Factory.createIssueTracker github_config) s0
  = inl (ConfigurationError "Unknown issue tracker: github").
Proof.
  exact (createIssueTracker_unknown github_config s0
           ltac:(discriminate) ltac:(discriminate)).
Defined.

(** ** The commits that are parsed *)

Section Commits.
Import Parser.

Lemma filter_all {A} (P : A → Prop) `{!∀ x, Decision (P x)} (l : list A) :
  (∀ x, P x) → filter P l = l.
Proof.
  intros HP. induction l as [|x l IH]; [done|].
  by rewrite filter_cons_True, IH.
Qed.

Lemma split_first_line sep s :
  ∃ p ps, JsString.split sep s = p :: ps
          ∧ (sep ∉ list_ascii_of_string p)
          ∧ (s = p ∨ ∃ rest, s = p +:+ String sep rest).
Proof.
  induction s as [|a s IH]; simpl.
  - exists "", []. split_and!; [done|by intros ?%elem_of_nil|by left].
  - case_bool_decide as Ha.
    + subst a. exists "", (JsString.split sep s).
      split_and!; [done|by intros ?%elem_of_nil|]. right. by exists s.
    + destruct IH as (p & ps & -> & Hp & Hs).
      exists (String a p), ps. split_and!; [done| |].
      * simpl. rewrite elem_of_cons. naive_solver.
      * destruct Hs as [->|[rest ->]]; [by left|]. right. by exists rest.
Qed.

Lemma first_piece_first_line s :
  first_line_of s (JsString.first_piece newline s).
Proof.
  unfold first_line_of, JsString.first_piece.
  by destruct (split_first_line newline s) as (p & ps & -> & Hp & Hs).
Qed.

Lemma in_scope_truthy k w :
  k ≠ "" → in_scope (Some k) w ↔ has_prefix (k +:+ "-") w.
Proof. simpl. naive_solver. Qed.

Lemma parse_one_entry projectKey commit s :
  ∃ s', parse_one projectKey commit s = (s', inr (commit_entry projectKey commit)).
Proof.
  unfold parse_one, commit_entry, kept_ids.
  set (ids := extractTicketIds (commit_message commit)).
  assert ((if Js.truthy projectKey
           then filter (λ i, Js.startsWith i (default "" projectKey +:+ "-")) ids
           else ids) = filter (in_scope projectKey) ids) as ->.
  { destruct (Js.truthy projectKey) eqn:Ht.
    - destruct projectKey as [k|]; [|done]. apply truthy_Some in Ht.
      cbn [from_option Datatypes.id]. apply list_filter_iff. intros i.
      rewrite (in_scope_truthy k i Ht). unfold Js.startsWith.
      rewrite <- prefix_has_prefix. by destruct (String.prefix _ _).
    - symmetry. apply filter_all. intros i.
      apply truthy_false in Ht as [->| ->]; simpl; auto. }
  destruct (filter _ ids) as [|i kept]; cbn [length].
  - rewrite bool_decide_eq_false_2 by lia. rewrite decide_True by done. by eexists.
  - rewrite bool_decide_eq_true_2 by lia. rewrite decide_False by done.
    unfold_M. by eexists.
Qed.

Lemma parse_loop_entries projectKey commits parsedCommits s :
  ∃ s', parse_loop projectKey commits parsedCommits s
        = (s', inr (parsedCommits ++ omap (commit_entry projectKey) commits)).
Proof.
  revert parsedCommits s.
  induction commits as [|commit rest IH]; intros parsedCommits s; simpl.
  - rewrite app_nil_r. by eexists.
  - unfold mbind, M_bind, bind.
    destruct (parse_one_entry projectKey commit s) as (s1 & ->).
    destruct (commit_entry projectKey commit) as [pc|].
    + destruct (IH (parsedCommits ++ [pc]) s1) as (s2 & ->).
      exists s2. by rewrite <- app_assoc.
    + apply IH.
Qed.

Lemma parseCommits_omap projectKey commits s :
  ∃ s', parseCommits commits projectKey s
        = (s', inr (omap (commit_entry projectKey) commits)).
Proof. apply (parse_loop_entries projectKey commits []). Qed.

Lemma elem_of_extractTicketIds message w :
  w ∈ extractTicketIds message ↔ ∃ i, occurs_at message i w.
Proof. by rewrite extractTicketIds_matches, elem_of_Set_of, matches_of_occurs. Qed.

Lemma extractTicketIds_NoDup message : NoDup (extractTicketIds message).
Proof. rewrite extractTicketIds_matches. apply Set_of_NoDup. Qed.

End Commits.

(** X8. [parseCommits] makes one entry for each commit whose message holds
    an identifier in scope, in the order of the commits, and none for the
    other commits.  The entry records the commit's id and the name of its
    author, the first line of its message, and the identifiers in scope, in
    the order of the message and without duplicates. *)
Theorem parseCommits_entries (commits : list Commit) (projectKey : option string)
    (s : State) :
  ∃ s' parsed,
    Parser.parseCommits commits projectKey s = (s', inr parsed)
    ∧ Forall2
        (λ commit pc,
           sha pc = commit_id commit
           ∧ author pc = name (commit_author commit)
           ∧ first_line_of (commit_message commit) (message pc)
           ∧ ticketIds pc = kept_ids projectKey commit
           ∧ NoDup (ticketIds pc))
        (filter (λ commit, kept_ids projectKey commit ≠ []) commits) parsed.
Proof.
  destruct (parseCommits_omap projectKey commits s) as (s' & ->).
  eexists _, _. split; [done|].
  induction commits as [|commit rest IH]; [constructor|].
  cbn [omap list_omap]. unfold commit_entry at 1.
  destruct (decide (kept_ids projectKey commit = [])) as [He|Hne].
  - by rewrite filter_cons_False by (by intros ?).
  - rewrite filter_cons_True by done. constructor; [|done]. simpl.
    split_and!; [done|done|apply first_piece_first_line|done|].
    apply NoDup_filter, extractTicketIds_NoDup.
Qed.

(** X9. The identifiers found in a push: [getAllTicketIds] of the parsed
    commits lists, without duplicates, exactly the identifiers in scope that
    occur as a whole word in the message of some commit. *)
Theorem found_identifiers (commits : list Commit) (projectKey : option string)
    (s : State) :
  ∃ s' parsed,
    Parser.parseCommits commits projectKey s = (s', inr parsed)
    ∧ NoDup (Parser.getAllTicketIds parsed)
    ∧ ∀ w, w ∈ Parser.getAllTicketIds parsed
           ↔ in_scope projectKey w
             ∧ ∃ commit i, commit ∈ commits ∧ occurs_at (commit_message commit) i w.
Proof.
  destruct (parseCommits_omap projectKey commits s) as (s' & ->).
  eexists _, _. split; [done|]. unfold Parser.getAllTicketIds.
  split; [apply Set_of_NoDup|]. intros w.
  rewrite elem_of_Set_of, elem_of_concat. split.
  - intros (l & (pc & -> & Hpc)%list_elem_of_fmap & Hw).
    apply list_elem_of_omap in Hpc as (commit & Hc & Hpc).
    unfold commit_entry in Hpc. case_decide; [done|]. injection Hpc as <-.
    simpl in Hw. apply list_elem_of_filter in Hw as [Hscope Hw].
    split; [done|]. apply elem_of_extractTicketIds in Hw as [i Hi]. by exists commit, i.
  - intros (Hscope & commit & i & Hc & Hi).
    assert (w ∈ kept_ids projectKey commit) as Hw.
    { apply list_elem_of_filter. split; [done|].
      apply elem_of_extractTicketIds. by exists i. }
    exists (kept_ids projectKey commit). split; [|done].
    apply list_elem_of_fmap.
    eexists {| sha := _; message := _; author := _; ticketIds := _ |}.
    split; [reflexivity|]. apply list_elem_of_omap. exists commit. split; [done|].
    unfold commit_entry. rewrite decide_False; [done|]. intros He. rewrite He in Hw.
    by apply elem_of_nil in Hw.
Qed.

Example found_identifiers_once :
  ∃ s' parsed,
    Parser.parseCommits [commit_ab_cd; commit_cd; commit_ab_cd] None s0 = (s', inr parsed)
    ∧ map ticketIds parsed = [["AB-1"; "CD-2"]; ["CD-2"]; ["AB-1"; "CD-2"]]
    ∧ Parser.getAllTicketIds parsed = ["AB-1"; "CD-2"].
Proof. eexists _, _. split_and!; vm_compute; reflexivity. Qed.

(** ** The REST adapter: issues fetched, and their links *)

Section JiraLinks.

Lemma append_String a (p rest : string) :
  String a p +:+ rest = String a (p +:+ rest).
Proof. reflexivity. Qed.

Lemma strip_trailing_slash_added (b : string) :
  JsString.strip_trailing_slash (b +:+ "/") = b.
Proof.
  induction b as [|a b IH]; [done|].
  rewrite append_String. cbn [JsString.strip_trailing_slash].
  destruct (b +:+ "/") as [|c r] eqn:E.
  - by destruct b.
  - by rewrite <- IH.
Qed.

Lemma strip_trailing_slash_none (b : string) :
  ¬ ends_with_slash b → JsString.strip_trailing_slash b = b.
Proof.
  induction b as [|a b IH]; intros Hb; [done|].
  cbn [JsString.strip_trailing_slash]. destruct b as [|c r].
  - case_bool_decide as Ha; [|done]. subst a. destruct Hb. by exists "".
  - rewrite IH; [done|]. intros [p Hp]. apply Hb. exists (String a p).
    by rewrite append_String, Hp.
Qed.





End JiraLinks.



(** X11. The adapter drops one trailing slash of the base URL it is
    constructed with, so the link to an issue is the same whether the
    configured URL ends with a slash or not: [b/browse/key]. *)
Theorem Jira_issue_url (b email apiToken ticketId : string) :
  Jira.getIssueUrl (Jira.new (b +:+ "/") email apiToken) ticketId
  = b +:+ "/browse/" +:+ ticketId
  ∧ (¬ ends_with_slash b →
     Jira.getIssueUrl (Jira.new b email apiToken) ticketId
     = b +:+ "/browse/" +:+ ticketId).
Proof.
  unfold Jira.getIssueUrl, Jira.new. simpl. split.
  - by rewrite strip_trailing_slash_added.
  - intros Hb. by rewrite strip_trailing_slash_none.
Qed.

Example Jira_issue_url_slashes :
  Jira.getIssueUrl (Jira.new "https://company.atlassian.net/" "e" "t") "PROJ-1"
  = "https://company.atlassian.net/browse/PROJ-1"
  ∧ Jira.getIssueUrl (Jira.new "https://company.atlassian.net//" "e" "t") "PROJ-1"
    = "https://company.atlassian.net//browse/PROJ-1".
Proof. split; reflexivity. Qed.

(** ** The lookups of the REST adapter *)

(** X12. The single-issue lookup of the REST adapter never throws: it
    returns the backend's issue when the request succeeds and [null] when
    it fails, whatever the failure.  A 404 is logged as a warning ("not
    found"), every other failure as an error. *)
Theorem Jira_getIssue_outcomes (r : Remote.t) (this : Jira.JiraService)
    (ticketId : string) (s : State) :
  (∀ jiraIssue, Remote.jira_issue r ticketId = Response jiraIssue →
     result (Jira.getIssue r this ticketId) s = inr (Some jiraIssue))
  ∧ (∀ msg resp, Remote.jira_issue r ticketId = Failure msg (Some 404) resp →
     ∃ s', Jira.getIssue r this ticketId s = (s', inr None)
           ∧ logged LWarning ("[JiraService] Issue " +:+ ticketId +:+ " not found") s')
  ∧ (∀ msg st resp, Remote.jira_issue r ticketId = Failure msg st resp →
     st ≠ Some 404 →
     ∃ s', Jira.getIssue r this ticketId s = (s', inr None)
           ∧ logged LError
               ("[JiraService] Failed to get issue " +:+ ticketId
                +:+ ": Jira API error: " +:+ msg) s').
Proof.
  unfold result, Jira.getIssue, Jira.request. split_and!.
  - intros ji ->. reflexivity.
  - intros msg resp ->. unfold_M. cbn. eexists. split; [reflexivity|].
    unfold logged. cbn [log]. rewrite !elem_of_app, !list_elem_of_singleton.
    right. reflexivity.
  - intros msg st resp -> Hst. unfold_M. cbn beta iota. cbn [Jira.statusCode_of].
    rewrite bool_decide_eq_false_2 by done. eexists. split; [reflexivity|].
    unfold logged. cbn [log]. rewrite !elem_of_app, !list_elem_of_singleton.
    right. reflexivity.
Qed.

Lemma Jira_getIssue_outcomes_witness :
  ∃ s', Jira.getIssue demo_remote demo_service "PROJ-404" s0 = (s', inr None)
        ∧ logged LWarning "[JiraService] Issue PROJ-404 not found" s'.
Proof.
  apply (proj1 (proj2 (Jira_getIssue_outcomes demo_remote demo_service "PROJ-404" s0))
           "Request failed with status code 404" None).
  reflexivity.
Defined.

(** X13. [getActiveSprint] never throws.  Without a board id, or with the
    board id 0, it returns [null] and makes no request; otherwise a sprint
    it returns is the first sprint of the backend's answer whose state is
    [active]. *)
Theorem getActiveSprint_spec (r : Remote.t) (this : Jira.JiraService)
    (boardId : option Z) (s : State) :
  (∃ s' o, Jira.getActiveSprint r this boardId s = (s', inr o))
  ∧ (boardId = None ∨ boardId = Some 0%Z →
     result (Jira.getActiveSprint r this boardId) s = inr None
     ∧ ∀ r', Jira.getActiveSprint r' this boardId s
             = Jira.getActiveSprint r this boardId s)
  ∧ (∀ sprint, result (Jira.getActiveSprint r this boardId) s = inr (Some sprint) →
     js_state sprint = active
     ∧ ∃ b response before after,
         boardId = Some b ∧ b ≠ 0%Z
         ∧ Remote.jira_board_sprints r b = Response response
         ∧ Remote.values response = before ++ sprint :: after
         ∧ Forall (λ x, js_state x ≠ active) before).
Proof.
  unfold result, Jira.getActiveSprint, Jira.request. split_and!.
  - unfold_M. repeat (case_match; simplify_eq/=); by eexists _, _.
  - intros [->| ->]; split; reflexivity.
  - intros sprint. destruct boardId as [b|]; [|done].
    case_bool_decide as Hb; [done|]. unfold_M. cbn beta iota.
    destruct (Remote.jira_board_sprints r b) as [response|] eqn:Hr; [|done].
    cbn beta iota.
    destruct (filter _ (Remote.values response)) as [|sp rest] eqn:Hf; [done|].
    cbn. intros [= ->].
    assert (sprint ∈ filter (λ x, js_state x = active) (Remote.values response)) as Hin
      by (rewrite Hf; set_solver).
    apply list_elem_of_filter in Hin as [Hact _]. split; [done|].
    exists b, response.
    assert (∃ before after, Remote.values response = before ++ sprint :: after
                            ∧ Forall (λ x, js_state x ≠ active) before)
      as (before & after & ? & ?).
    { clear Hr. revert Hf. generalize (Remote.values response).
      induction l as [|x l IH]; [done|].
      destruct (decide (js_state x = active)) as [Hx|Hx].
      - rewrite filter_cons_True by done. intros [= -> _].
        exists [], l. split; [done|constructor].
      - rewrite filter_cons_False by done. intros Hl.
        destruct (IH Hl) as (before & after & -> & Hbefore).
        exists (x :: before), after. split; [done|by constructor]. }
    by exists before, after.
Qed.

(** ** The lookups of the GraphQL adapter *)

Section LinearFetch.
Variable w : World.t.

Lemma Linear_convert_carried linearIssue s :
  ∃ s' issue, Linear.convertToGenericIssue w linearIssue s = (s', inr issue)
              ∧ carried_over_linear linearIssue issue.
Proof.
  unfold Linear.convertToGenericIssue, Linear.getCycleState. unfold_M.
  repeat (case_match; simplify_eq/=); eexists _, _; (split; [reflexivity|]);
    by repeat split.
Qed.

Lemma Linear_convert_all_carried linearIssues s :
  ∃ s' issues, Linear.convert_all w linearIssues s = (s', inr issues)
               ∧ Forall2 carried_over_linear linearIssues issues.
Proof.
  revert s. induction linearIssues as [|li l IH]; intros s; simpl.
  - eexists _, _. split; [done|]. constructor.
  - unfold mbind, M_bind, bind.
    destruct (Linear_convert_carried li s) as (s1 & i & -> & Hi).
    destruct (IH s1) as (s2 & is' & -> & His).
    eexists _, _. split; [done|]. by constructor.
Qed.

(** One lookup: the issue the backend answers with, converted, or nothing. *)
Lemma Linear_getIssue_answer this identifier s :
  ∃ s' o,
    (match o with
     | Some li => answers w this identifier li
     | None => ¬ ∃ li, answers w this identifier li
     end)
    ∧ ∃ r, Linear.getIssue w this identifier s = (s', inr r)
           ∧ match o with
             | Some li => ∃ issue, r = Some issue ∧ carried_over_linear li issue
             | None => r = None
             end.
Proof.
  unfold answers, Linear.getIssue, Linear.request. unfold_M.
  destruct (World.linear_issue w identifier) as [[d errs]|msg st resp] eqn:Hw;
    cbn beta iota.
  - cbn [errors data]. destruct errs as [errs|].
    { rewrite bool_decide_eq_true_2 by (by eexists).
      eexists _, None. split; [by intros (li & [= ] & _)|]. by eexists. }
    rewrite bool_decide_eq_false_2 by apply is_Some_None.
    destruct d as [[li|]|].
    + destruct (Js.truthy (Linear.teamKey this)
                && negb (bool_decide (Some (team_key (team li)) = Linear.teamKey this)))
        eqn:Hteam.
      * eexists _, None. split; [|by eexists].
        intros (li' & [= <-] & Hk).
        apply andb_true_iff in Hteam as [Ht Hneq].
        destruct (Linear.teamKey this) as [k|]; [|done].
        apply truthy_Some in Ht. apply negb_true_iff, bool_decide_eq_false in Hneq.
        apply Hneq. f_equal. by apply Hk.
      * match goal with |- context [Linear.convertToGenericIssue w li ?s1] =>
          destruct (Linear_convert_carried li s1) as (s2 & issue & -> & Hissue) end.
        eexists _, (Some li). split.
        -- split; [done|]. intros k Hk Hne. rewrite Hk in Hteam.
           rewrite (proj2 (truthy_Some k) Hne) in Hteam. simpl in Hteam.
           apply negb_false_iff, bool_decide_eq_true in Hteam. by injection Hteam.
        -- eexists. split; [reflexivity|]. by exists issue.
    + eexists _, None. split; [by intros (li & [= ] & _)|]. by eexists.
    + eexists _, None. split; [by intros (li & [= ] & _)|]. by eexists.
  - eexists _, None. split; [by intros (li & [= ] & _)|]. by eexists.
Qed.

Lemma Linear_fetch_loop_answers this issueIds issues s :
  ∃ s' outcomes new,
    Linear.fetch_loop w this issueIds issues s = (s', inr (issues ++ new))
    ∧ Forall2 (λ i o, match o with
                      | Some li => answers w this i li
                      | None => ¬ ∃ li, answers w this i li
                      end) issueIds outcomes
    ∧ Forall2 carried_over_linear (omap Datatypes.id outcomes) new.
Proof.
  revert issues s. induction issueIds as [|i rest IH]; intros issues s; simpl.
  - exists s, [], []. rewrite app_nil_r. split_and!; [done|constructor|constructor].
  - unfold mbind, M_bind, bind.
    destruct (Linear_getIssue_answer this i s) as (s1 & o & Ho & r & -> & Hr).
    destruct o as [li|].
    + destruct Hr as (issue & -> & Hissue).
      destruct (IH (issues ++ [issue]) s1) as (s2 & outcomes & new & -> & Hout & Hnew).
      exists s2, (Some li :: outcomes), (issue :: new).
      rewrite <- app_assoc. split_and!; [done|by constructor|by constructor].
    + subst r.
      destruct (IH issues s1) as (s2 & outcomes & new & -> & Hout & Hnew).
      exists s2, (None :: outcomes), new.
      split_and!; [done|by constructor|done].
Qed.

End LinearFetch.

(** X14. The GraphQL adapter looks the identifiers up one by one, in their
    order.  An identifier contributes the issue the backend answers with
    (without errors, and of the configured team when a team key is
    configured), converted; every other identifier (not found, errors in the
    answer, another team, a failed request) contributes nothing and does not
    keep the following ones from being fetched. *)
Theorem Linear_getIssues_answers (w : World.t) (this : Linear.LinearService)
    (issueIds : list string) (s : State) :
  ∃ s' issues outcomes,
    Linear.getIssues w this issueIds s = (s', inr issues)
    ∧ Forall2 (λ i o, match o with
                      | Some li => answers w this i li
                      | None => ¬ ∃ li, answers w this i li
                      end) issueIds outcomes
    ∧ Forall2 carried_over_linear (omap Datatypes.id outcomes) issues.
Proof.
  unfold Linear.getIssues. case_bool_decide as Hlen.
  { destruct issueIds; [|done]. exists s, [], []. split_and!; [done|constructor|constructor]. }
  unfold_M. cbn beta iota.
  match goal with |- context [Linear.fetch_loop w this issueIds [] ?s1] =>
    destruct (Linear_fetch_loop_answers w this issueIds [] s1)
      as (s2 & outcomes & new & -> & Hout & Hnew) end.
  eexists _, _, outcomes. split; [reflexivity|]. done.
Qed.

Example Linear_getIssues_one_team :
  result (Linear.getIssues ops_world (Linear.new "lin_api_key" (Some "OPS")) ["OPS-7"; "OPS-7"]) s0
  = result (Linear.getIssues ops_world (Linear.new "lin_api_key" None) ["OPS-7"; "OPS-7"]) s0
  ∧ (∃ a b, result (Linear.getIssues ops_world (Linear.new "lin_api_key" None) ["OPS-7"; "OPS-7"]) s0
            = inr [a; b])
  ∧ result (Linear.getIssues ops_world (Linear.new "lin_api_key" (Some "ENG")) ["OPS-7"; "OPS-7"]) s0
    = inr [].
Proof. split_and!; [reflexivity|eexists _, _; reflexivity|reflexivity]. Qed.

(** X15. The search of the GraphQL adapter never throws.  It returns an
    empty list for an empty list of identifiers (without a request), for an
    answer with errors and for a failed request; otherwise it converts every
    issue of the answer, in order: the team filter is part of the query and
    the issues that come back are not checked against the team key. *)
Theorem searchIssues_spec (w : World.t) (r : Remote.t) (this : Linear.LinearService)
    (identifiers : list string) (s : State) :
  (∃ s' issues, Linear.searchIssues w r this identifiers s = (s', inr issues))
  ∧ (identifiers = [] → ∀ r', Linear.searchIssues w r' this identifiers s = (s, inr []))
  ∧ (identifiers ≠ [] →
     ∀ team, team = (if Js.truthy (Linear.teamKey this) then Linear.teamKey this else None) →
     (∀ msg st resp, Remote.linear_search r identifiers team = Failure msg st resp →
        result (Linear.searchIssues w r this identifiers) s = inr [])
     ∧ (∀ response, Remote.linear_search r identifiers team = Response response →
        is_Some (Remote.search_errors response) →
        result (Linear.searchIssues w r this identifiers) s = inr [])
     ∧ (∀ linearIssues,
          Remote.linear_search r identifiers team
          = Response {| Remote.nodes := Some linearIssues; Remote.search_errors := None |} →
          ∃ issues, result (Linear.searchIssues w r this identifiers) s = inr issues
                    ∧ Forall2 carried_over_linear linearIssues issues)).
Proof.
  unfold result, Linear.searchIssues, Linear.request. split_and!.
  - case_bool_decide; [by eexists _, _|]. unfold_M.
    destruct (Remote.linear_search _ _ _) as [[nodes errs]|]; cbn beta iota;
      [|by eexists _, _].
    case_bool_decide; [by eexists _, _|]. cbn [Remote.nodes].
    destruct nodes as [lis|]; [|by eexists _, _].
    match goal with |- context [Linear.convert_all w lis ?s1] =>
      destruct (Linear_convert_all_carried w lis s1) as (s2 & issues & -> & _) end.
    by eexists _, _.
  - by intros -> r'.
  - intros Hne team ->.
    rewrite bool_decide_eq_false_2 by (by destruct identifiers).
    split_and!.
    + intros msg st resp ->. reflexivity.
    + intros response -> Herr. unfold_M. cbn beta iota.
      by rewrite bool_decide_eq_true_2.
    + intros lis ->. unfold_M. cbn beta iota. cbn [Remote.search_errors Remote.nodes].
      rewrite bool_decide_eq_false_2 by apply is_Some_None.
      match goal with |- context [Linear.convert_all w lis ?s1] =>
        destruct (Linear_convert_all_carried w lis s1) as (s2 & issues & -> & H) end.
      by exists issues.
Qed.

(** The search keeps an issue of another team that the single lookup
    discards. *)
Example searchIssues_other_team :
  (∃ issue, result (Linear.searchIssues ops_world search_remote
                      (Linear.new "lin_api_key" (Some "ENG")) ["OPS-7"]) s0
            = inr [issue] ∧ key issue = "OPS-7")
  ∧ result (Linear.getIssue ops_world (Linear.new "lin_api_key" (Some "ENG")) "OPS-7") s0
    = inr None.
Proof. split; [eexists; split; reflexivity|reflexivity]. Qed.

Example getActiveSprint_first_active :
  result (Jira.getActiveSprint sprint_remote demo_service (Some 7%Z)) s0
  = inr (Some sprint_39)
  ∧ result (Jira.getActiveSprint sprint_remote demo_service (Some 0%Z)) s0 = inr None
  ∧ result (Jira.getActiveSprint demo_remote demo_service (Some 7%Z)) s0 = inr None.
Proof. split_and!; reflexivity. Qed.

(** ** Sending: lemmas *)

Section Sending.
Variables (w : World.t) (rt : Runtime.t).

Lemma fold_push {A B} (f : A → B) (l : list A) (acc : list B) :
  fold_left (λ blocks x, blocks ++ [f x]) l acc = acc ++ map f l.
Proof.
  revert acc. induction l as [|x l IH]; intros acc; simpl.
  - by rewrite app_nil_r.
  - by rewrite IH, <- app_assoc.
Qed.

Lemma createMessageBlocks_run notifications metadata s :
  ∃ heading footer,
    Slack.createMessageBlocks w rt notifications metadata s
    = ({| log := log s; ticks := S (S (ticks s)) |},
       inr (heading ++ map (Slack.ticket_block rt) notifications ++ footer))
    ∧ length heading = 4 ∧ length footer = 2.
Proof.
  unfold Slack.createMessageBlocks. rewrite fold_push. unfold_M. simpl.
  eexists [_; _; _; _], [_; _]. split; [reflexivity|]. done.
Qed.

Lemma sendNotification_run channelOrUserId notifications metadata rs :
  ∃ rs' r m heading footer entries,
    Slack.sendNotification w rt channelOrUserId notifications metadata rs = (rs', r)
    ∧ outputs rs' = outputs rs ∧ failed rs' = failed rs
    ∧ posted rs' = posted rs ++ [m]
    ∧ Runtime.channel m = channelOrUserId
    ∧ length heading = 4 ∧ length footer = 2
    ∧ Runtime.blocks m
      = Some (heading ++ map (Slack.ticket_block rt) notifications ++ footer)
    ∧ log (base rs')
      = log (base rs)
        ++ {| level := LGroup; text := "[SlackService] Sending Slack notification" |}
           :: entries ++ [{| level := LEndGroup; text := "" |}]
    ∧ match send_failure (Runtime.chat_postMessage rt m) with
      | None =>
          ∃ response, Runtime.chat_postMessage rt m = Runtime.Answered response
                      ∧ r = inr (Runtime.ts response)
      | Some msg => ∃ e, r = inl e ∧ Logger.error_message (exn_error e) = msg
      end.
Proof.
  unfold Slack.sendNotification. unfold_Act.
  unfold Logger.group, Logger.info, Logger.endGroup, Logger.error, write.
  cbn [base outputs failed posted].
  match goal with |- context [Slack.createMessageBlocks w rt notifications metadata ?s1] =>
    destruct (createMessageBlocks_run notifications metadata s1)
      as (heading & footer & -> & Hh & Hf) end.
  cbn [base outputs failed posted log ticks].
  match goal with |- context [Runtime.chat_postMessage rt ?m0] =>
    set (m := m0);
    destruct (Runtime.chat_postMessage rt m) as [response|code msg d] eqn:Hpost end.
  - destruct (Runtime.pm_ok response) eqn:Hok;
      cbn [negb base outputs failed posted log ticks].
    + eexists _, _, m, heading, footer, [_; _; _]. split; [reflexivity|].
      cbn [base outputs failed posted log ticks]. rewrite Hpost. unfold send_failure.
      rewrite Hok. split_and!; try done.
      * by rewrite <- !app_assoc.
      * by exists response.
    + case_bool_decide as Hc; cbn [exn_code exn_error exn_data_error] in *;
        eexists _, _, m, heading, footer, [_; _; _]; (split; [reflexivity|]);
        cbn [base outputs failed posted log ticks]; rewrite Hpost; unfold send_failure;
        rewrite Hok; (split_and!; try done);
        try (by rewrite <- !app_assoc); (eexists; split; [reflexivity|]).
      * by rewrite bool_decide_eq_true_2.
      * by rewrite bool_decide_eq_false_2.
  - cbn [negb base outputs failed posted log ticks exn_code exn_error exn_data_error].
    case_bool_decide as Hc;
      eexists _, _, m, heading, footer, [_; _; _]; (split; [reflexivity|]);
      cbn [base outputs failed posted log ticks]; rewrite Hpost; unfold send_failure;
      (split_and!; try done);
      try (by rewrite <- !app_assoc); (eexists; split; [reflexivity|]).
    + by rewrite bool_decide_eq_true_2.
    + by rewrite bool_decide_eq_false_2.
Qed.

End Sending.

(** ** Sending *)

(** X16. [sendNotification] posts exactly one message, to the given
    destination, with four blocks of heading, one block for each
    notification, in order, and two blocks of footer; it sets no output and
    reports no failure itself.  It returns the timestamp of the answer when
    the platform answered [ok] and throws otherwise: the error of the
    client with its message, prefixed when its code is
    [slack_webapi_platform_error], or an error of its own for an answer that
    is not [ok].  Either way the log group it opened is closed. *)
Theorem sendNotification_spec (w : World.t) (rt : Runtime.t)
    (channelOrUserId : string) (notifications : list Slack.NotificationData)
    (metadata : Slack.Metadata) (rs : RunState) :
  ∃ rs' r m,
    Slack.sendNotification w rt channelOrUserId notifications metadata rs = (rs', r)
    ∧ posted rs' = posted rs ++ [m]
    ∧ outputs rs' = outputs rs ∧ failed rs' = failed rs
    ∧ Runtime.channel m = channelOrUserId
    ∧ (∃ heading footer,
         length heading = 4 ∧ length footer = 2
         ∧ Runtime.blocks m
           = Some (heading ++ map (Slack.ticket_block rt) notifications ++ footer))
    ∧ (∃ entries,
         log (base rs')
         = log (base rs)
           ++ {| level := LGroup; text := "[SlackService] Sending Slack notification" |}
              :: entries ++ [{| level := LEndGroup; text := "" |}])
    ∧ match send_failure (Runtime.chat_postMessage rt m) with
      | None =>
          ∃ response, Runtime.chat_postMessage rt m = Runtime.Answered response
                      ∧ r = inr (Runtime.ts response)
      | Some msg => ∃ e, r = inl e ∧ Logger.error_message (exn_error e) = msg
      end.
Proof.
  destruct (sendNotification_run w rt channelOrUserId notifications metadata rs)
    as (rs' & r & m & heading & footer & entries & Hrun & Hout & Hfailed & Hposted
        & Hchannel & Hh & Hf & Hblocks & Hlog & Hsend).
  exists rs', r, m. split_and!; [done..| | |done].
  - by exists heading, footer.
  - by exists entries.
Qed.

(** X17. [sendSimpleMessage] posts exactly one message, the text alone.  It
    returns the timestamp when the platform answered [ok]; otherwise it
    logs and throws, and an error of the client is thrown on as it is,
    with its own message and code.  [validateAccess] never throws and posts
    nothing: it returns what the platform answers and [false] when the
    client throws. *)
Theorem simple_calls (rt : Runtime.t) (channelOrUserId text : string) (rs : RunState) :
  (∃ rs' r m,
     Slack.sendSimpleMessage rt channelOrUserId text rs = (rs', r)
     ∧ posted rs' = posted rs ++ [m]
     ∧ Runtime.channel m = channelOrUserId ∧ Runtime.msg_text m = text
     ∧ Runtime.blocks m = None
     ∧ match Runtime.chat_postMessage rt m with
       | Runtime.Answered response =>
           if Runtime.pm_ok response then r = inr (Runtime.ts response)
           else ∃ e, r = inl e
                     ∧ Logger.error_message (exn_error e) = "Failed to send Slack message"
                     ∧ exn_code e = Runtime.pm_error response
       | Runtime.Thrown code msg _ =>
           ∃ e, r = inl e ∧ Logger.error_message (exn_error e) = msg
                ∧ exn_code e = code
       end)
  ∧ (∃ rs',
       Slack.validateAccess rt channelOrUserId rs
       = (rs', inr match Runtime.conversations_info rt channelOrUserId with
                   | Runtime.Answered ok => ok
                   | Runtime.Thrown _ _ _ => false
                   end)
       ∧ posted rs' = posted rs ∧ outputs rs' = outputs rs ∧ failed rs' = failed rs).
Proof.
  split.
  - unfold Slack.sendSimpleMessage. unfold_Act.
    match goal with |- context [Runtime.chat_postMessage rt ?m0] =>
      set (m := m0);
      destruct (Runtime.chat_postMessage rt m) as [response|code msg d] eqn:Hpost end.
    + destruct (Runtime.pm_ok response) eqn:Hok; cbn [negb];
        eexists _, _, m; (split; [reflexivity|]); rewrite Hpost, ?Hok;
        split_and!; try done.
      by eexists.
    + eexists _, _, m. split; [reflexivity|]. rewrite Hpost. split_and!; try done.
      by eexists.
  - unfold Slack.validateAccess. unfold_Act.
    destruct (Runtime.conversations_info rt channelOrUserId); by eexists.
Qed.

(** ** The stages of a run *)

Section Pipeline.
Variables (w : World.t) (rt : Runtime.t).

Lemma getCommitInfo_run s :
  ∃ s', Main.getCommitInfo rt s
        = (s', inr {| Main.commits := pushed rt;
                      Main.ci_branch :=
                        JsString.remove_first "refs/heads/"
                          (Runtime.ref (Runtime.context rt));
                      Main.ci_sha := Runtime.context_sha (Runtime.context rt);
                      Main.ci_actor := Runtime.actor (Runtime.context rt);
                      Main.ci_repo := (Runtime.repo_owner (Runtime.context rt),
                                       Runtime.repo_repo (Runtime.context rt)) |}).
Proof.
  unfold Main.getCommitInfo, pushed. case_bool_decide as Hlen.
  - destruct (default [] _); [|done]. by eexists.
  - by eexists.
Qed.

Lemma getAllTicketIds_found projectKey commits :
  Parser.getAllTicketIds (omap (commit_entry projectKey) commits)
  = found projectKey commits.
Proof.
  unfold Parser.getAllTicketIds, found. f_equal.
  induction commits as [|commit rest IH]; [done|].
  cbn [omap list_omap map concat]. unfold commit_entry at 1.
  case_decide as He.
  - by rewrite He, IH.
  - cbn [map concat ticketIds]. by rewrite IH.
Qed.

Lemma Factory_getIssues_total t ids s :
  ∃ s' issues, Factory.getIssues w t ids s = (s', inr issues).
Proof.
  destruct t; simpl; [apply Jira_getIssues_total|apply Linear_getIssues_total].
Qed.

Lemma filter_active_run t issues s :
  ∃ s', Main.filter_active t issues s
        = (s', inr (filter (in_active_iteration t) issues)).
Proof.
  revert s. induction issues as [|issue rest IH]; intros s; [by eexists|].
  cbn [Main.filter_active]. unfold mbind, M_bind, bind at 1.
  assert (∃ s1, Factory.isInActiveSprint t issue s
                = (s1, inr (bool_decide (in_active_iteration t issue)))) as (s1 & ->).
  { destruct t; unfold in_active_iteration; simpl;
      unfold Jira.isInActiveSprint, Linear.isInActiveSprint.
    - destruct (sprint issue) as [sp|]; unfold_M; simpl; eexists; do 2 f_equal;
        try first [ apply bool_decide_ext; split; congruence
                  | by rewrite bool_decide_eq_false_2 ].
    - destruct (cycle issue) as [c|]; unfold_M; simpl; eexists; do 2 f_equal;
        try first [ apply bool_decide_ext; split; congruence
                  | by rewrite bool_decide_eq_false_2 ]. }
  unfold mbind, M_bind, bind. destruct (IH s1) as (s2 & ->).
  unfold mret, M_ret, ret. eexists. f_equal. f_equal.
  case_bool_decide.
  - by rewrite filter_cons_True.
  - by rewrite filter_cons_False.
Qed.

Lemma filterByStatus_run t issues statuses s :
  statuses ≠ [] →
  ∃ s', Factory.filterByStatus t issues (Some statuses) s
        = (s', inr (filter (λ issue, status issue ∈ statuses) issues)).
Proof.
  intros Hne.
  assert (filter (λ issue, Js.includes statuses (status issue)) issues
          = filter (λ issue, status issue ∈ statuses) issues) as Hf.
  { apply list_filter_iff. intros issue. rewrite <- includes_spec.
    by destruct (Js.includes statuses (status issue)). }
  destruct t; simpl; unfold Jira.filterByStatus, Linear.filterByStatus;
    (rewrite bool_decide_eq_false_2 by (by destruct statuses));
    unfold_M; rewrite Hf; by eexists.
Qed.

Lemma resolveSlackTarget_total issues config t s :
  ∃ s' target, Main.resolveSlackTarget w issues config t s = (s', inr target).
Proof.
  assert (∀ s, ∃ s' target,
            Main.from_first_issue w issues config t s = (s', inr target)) as Hfirst.
  { intros s1. unfold Main.from_first_issue, Main.fallback.
    destruct issues as [|issue0 rest]; [by eexists _, _|].
    unfold mbind, M_bind, bind at 1.
    destruct (getPmEmail_run t issue0 s1) as (s2 & ->).
    destruct (Js.truthy (pmEmail issue0)); [|by eexists _, _].
    unfold Logger.info, write, mbind, M_bind, bind. cbn beta iota.
    match goal with |- context [Slack.getUserIdByEmail w ?email ?s3] =>
      destruct (getUserIdByEmail_run w email s3) as (s4 & ->) end.
    cbn beta iota. case_match; by eexists _, _. }
  unfold Main.resolveSlackTarget.
  destruct (Main.projectMapping _ _) as [target|]; [|apply Hfirst].
  destruct (Js.truthy_value target); [by eexists _, _|apply Hfirst].
Qed.

Lemma selected_filter config t (issues : list Issue) :
  filter (selected config t) issues
  = filter (status_allowed config)
      (if onlyActiveSprint config then filter (in_active_iteration t) issues
       else issues).
Proof.
  destruct (onlyActiveSprint config) eqn:Hon.
  - rewrite list_filter_filter. apply list_filter_iff. intros issue.
    unfold selected. rewrite Hon. intuition congruence.
  - apply list_filter_iff. intros issue. unfold selected. rewrite Hon.
    intuition congruence.
Qed.

Lemma status_filter config (issues : list Issue) :
  filter (status_allowed config) issues
  = match ticketStatusFilter config with
    | Some ((_ :: _) as statuses) => filter (λ issue, status issue ∈ statuses) issues
    | _ => issues
    end.
Proof.
  destruct (ticketStatusFilter config) as [[|st sts]|] eqn:Hs.
  - apply filter_all. intros issue. unfold status_allowed. by rewrite Hs.
  - apply list_filter_iff. intros issue. unfold status_allowed. by rewrite Hs.
  - apply filter_all. intros issue. unfold status_allowed. by rewrite Hs.
Qed.

End Pipeline.

(** ** The push event *)

Section Branch.








End Branch.


Example branch_of_refs :
  JsString.remove_first "refs/heads/" "refs/heads/feature/refs/heads/x"
  = "feature/refs/heads/x"
  ∧ JsString.remove_first "refs/heads/" "refs/tags/v1.2.0" = "refs/tags/v1.2.0"
  ∧ JsString.remove_first "refs/heads/" "refs/tags/refs/heads/v1" = "refs/tags/v1".
Proof. split_and!; reflexivity. Qed.

(** ** Stepping through a run *)

Section Steps.
Context {A B : Type}.
Implicit Types (k : A → Act B) (h : Exn → Act B).

Lemma catch_lift_inr (m : M A) k h rs s' a :
  m (base rs) = (s', inr a) →
  act_try_catch (act_bind (lift m) k) h rs = act_try_catch (k a) h (with_base rs s').
Proof. unfold act_try_catch, act_bind, lift. by intros ->. Qed.

Lemma catch_lift_inl (m : M A) k h rs s' e :
  m (base rs) = (s', inl e) →
  act_try_catch (act_bind (lift m) k) h rs = h (plain e) (with_base rs s').
Proof. unfold act_try_catch, act_bind, lift. by intros ->. Qed.

Lemma catch_bind_inr (m : Act A) k h rs rs' a :
  m rs = (rs', inr a) →
  act_try_catch (act_bind m k) h rs = act_try_catch (k a) h rs'.
Proof. unfold act_try_catch, act_bind. by intros ->. Qed.

Lemma catch_bind_inl (m : Act A) k h rs rs' e :
  m rs = (rs', inl e) →
  act_try_catch (act_bind m k) h rs = h e rs'.
Proof. unfold act_try_catch, act_bind. by intros ->. Qed.

End Steps.

Lemma catch_setOutput {B} name value (k : unit → Act B) h rs :
  act_try_catch (act_bind (setOutput name value) k) h rs
  = act_try_catch (k tt) h (with_output rs name value).
Proof. reflexivity. Qed.

Lemma catch_setOutput_last name value h rs :
  act_try_catch (setOutput name value) h rs = (with_output rs name value, inr tt).
Proof. reflexivity. Qed.

Lemma bind_lift_inr {A B} (m : M A) (k : A → Act B) rs s' a :
  m (base rs) = (s', inr a) → act_bind (lift m) k rs = k a (with_base rs s').
Proof. unfold act_bind, lift. by intros ->. Qed.

(** One step of a run: the lifted computation at the head of [Hout] comes
    to what [H] says. *)
Ltac step_inr Hout H :=
  match type of Hout with
  | _ = act_try_catch (act_bind (lift ?m) ?k) ?h ?r =>
      rewrite (catch_lift_inr m k h r _ _ H) in Hout; cbn beta in Hout
  end.
Ltac step_inl Hout H :=
  match type of Hout with
  | _ = act_try_catch (act_bind (lift ?m) ?k) ?h ?r =>
      rewrite (catch_lift_inl m k h r _ _ H) in Hout; cbn beta in Hout
  end.
Ltac step_log Hout :=
  match type of Hout with
  | _ = act_try_catch (act_bind (lift ?m) ?k) ?h ?r =>
      rewrite (catch_lift_inr m k h r (m (base r)).1 tt eq_refl) in Hout;
      cbn beta in Hout
  end.
Ltac effects :=
  cbn [outputs failed posted with_output with_base]; rewrite <- ?app_assoc;
  cbn [app].
Ltac step_output Hout :=
  rewrite catch_setOutput in Hout; cbn beta in Hout.

Section Running.
Variables (w : World.t) (rt : Runtime.t).

Lemma run_loaded rs config s1 :
  Runtime.loadConfig rt (at_start rs) = (s1, inr config) →
  let ids := found (Factory.getProjectKey config) (pushed rt) in
  let tickets_found := ("tickets_found", OutNumber (length ids)) in
  ∃ rs', Main.run w rt rs = (rs', inr tt)
    ∧ ((ids = []
        ∧ outputs rs' = outputs rs ++ [("tickets_found", OutNumber 0);
                                       ("tickets_notified", OutNumber 0)]
        ∧ failed rs' = failed rs ∧ posted rs' = posted rs)
       ∨ (ids ≠ []
          ∧ ∃ s e, result (Factory.createIssueTracker config) s = inl e
              ∧ outputs rs' = outputs rs ++ [tickets_found]
              ∧ failed rs' = Some (Logger.error_message e)
              ∧ posted rs' = posted rs
              ∧ logged LError ("[Main] Action failed: " +:+ Logger.error_message e)
                  (base rs'))
       ∨ (ids ≠ []
          ∧ ∃ s tracker s2 fetched,
              result (Factory.createIssueTracker config) s = inr tracker
              ∧ result (Factory.getIssues w tracker ids) s2 = inr fetched
              ∧ let notified := filter (selected config tracker) fetched in
                (notified = []
                 ∧ outputs rs' = outputs rs ++ [tickets_found;
                                                ("tickets_notified", OutNumber 0)]
                 ∧ failed rs' = failed rs ∧ posted rs' = posted rs)
                ∨ (notified ≠ []
                   ∧ ∃ m s3,
                       posted rs' = posted rs ++ [m]
                       ∧ announces rt m notified
                       ∧ result (Main.resolveSlackTarget w notified config tracker) s3
                         = inr (Runtime.channel m)
                       ∧ match send_failure (Runtime.chat_postMessage rt m) with
                         | None =>
                             ∃ response,
                               Runtime.chat_postMessage rt m = Runtime.Answered response
                               ∧ failed rs' = failed rs
                               ∧ outputs rs'
                                 = outputs rs
                                   ++ [tickets_found;
                                       ("tickets_notified", OutNumber (length notified))]
                                   ++ (if Js.truthy (Runtime.ts response)
                                       then [("slack_message_ts",
                                              OutString (default "" (Runtime.ts response)))]
                                       else [])
                         | Some msg =>
                             failed rs' = Some msg
                             ∧ outputs rs' = outputs rs ++ [tickets_found]
                             ∧ logged LError ("[Main] Action failed: " +:+ msg) (base rs')
                         end))).
Proof.
  intros Hload ids tickets_found.
  remember (Main.run w rt rs) as out eqn:Hout.
  unfold Main.run, mbind, Act_bind, mret, Act_ret in Hout.
  step_log Hout. step_inr Hout Hload.
  destruct (getCommitInfo_run rt s1) as (s2 & H2). step_inr Hout H2.
  cbn [Main.commits Main.ci_repo Main.ci_branch Main.ci_sha Main.ci_actor] in Hout.
  case_bool_decide as Hlen.
  { step_log Hout. step_output Hout. rewrite catch_setOutput_last in Hout.
    subst out. eexists. split; [reflexivity|]. left. effects. split; [|done].
    subst ids. by destruct (pushed rt). }
  destruct (parseCommits_omap (Factory.getProjectKey config) (pushed rt) s2)
    as (s3 & H3).
  step_inr Hout H3. rewrite getAllTicketIds_found in Hout. fold ids in Hout.
  case_bool_decide as Hids.
  { step_log Hout. step_output Hout. rewrite catch_setOutput_last in Hout.
    subst out. eexists. split; [reflexivity|]. left. effects. split; [|done].
    by destruct ids. }
  assert (ids ≠ []) as Hne by (by destruct ids).
  step_log Hout. step_output Hout.
  match type of Hout with
  | _ = act_try_catch (act_bind (lift ?m) _) _ ?r =>
      destruct (m (base r)) as [s5 [e|tracker]] eqn:H5
  end.
  { step_inl Hout H5. subst out. eexists. split; [reflexivity|]. right. left.
    split; [done|]. effects. eexists _, e. split; [by unfold result; rewrite H5|].
    split_and!; try done.
    unfold logged. cbn. rewrite elem_of_app, list_elem_of_singleton. by right. }
  step_inr Hout H5.
  match type of Hout with
  | _ = act_try_catch (act_bind (lift _) _) _ ?r =>
      destruct (Factory_getIssues_total w tracker ids (base r)) as (s6 & fetched & H6)
  end.
  step_inr Hout H6.
  assert (∃ s s2, result (Factory.createIssueTracker config) s = inr tracker
                  ∧ result (Factory.getIssues w tracker ids) s2 = inr fetched)
    as (sa & sb & Ha & Hb).
  { eexists _, _. unfold result. by rewrite H5, H6. }
  case_bool_decide as Hfetched.
  { step_log Hout. rewrite catch_setOutput_last in Hout.
    subst out. eexists. split; [reflexivity|]. right. right.
    split; [done|]. exists sa, tracker, sb, fetched. split_and!; [done..|].
    left. effects. destruct fetched; done. }
  match type of Hout with
  | _ = act_try_catch (act_bind ?F _) _ ?r =>
      assert (∃ sA, F r = (with_base r sA,
                           inr (if onlyActiveSprint config
                                then filter (in_active_iteration tracker) fetched
                                else fetched))) as (sA & HA)
  end.
  { clear Hout. destruct (onlyActiveSprint config).
    - match goal with |- context [act_bind (lift _) _ ?r] =>
        destruct (filter_active_run tracker fetched (base r)) as (s7 & H7) end.
      rewrite (bind_lift_inr _ _ _ _ _ H7). eexists. reflexivity.
    - eexists. unfold act_ret. f_equal. }
  rewrite (catch_bind_inr _ _ _ _ _ _ HA) in Hout. cbn beta in Hout. clear HA.
  set (notified := filter (selected config tracker) fetched).
  match type of Hout with
  | _ = act_try_catch (act_bind ?F _) _ ?r =>
      assert (∃ sB, F r = (with_base r sB, inr notified)) as (sB & HB)
  end.
  { clear Hout. subst notified. rewrite selected_filter, status_filter.
    destruct (ticketStatusFilter config) as [[|st sts]|].
    - eexists. unfold act_ret. f_equal.
    - rewrite bool_decide_eq_true_2 by (simpl; lia).
      match goal with |- context [lift (Factory.filterByStatus tracker ?l _) ?r] =>
        destruct (filterByStatus_run tracker l (st :: sts) (base r)) as (s8 & H8);
          [done|] end.
      unfold lift. rewrite H8. by eexists.
    - eexists. unfold act_ret. f_equal. }
  rewrite (catch_bind_inr _ _ _ _ _ _ HB) in Hout. cbn beta in Hout. clear HB.
  case_bool_decide as Hnotified.
  { step_log Hout. rewrite catch_setOutput_last in Hout.
    subst out. eexists. split; [reflexivity|]. right. right.
    split; [done|]. exists sa, tracker, sb, fetched. split_and!; [done..|].
    left. effects. fold notified. by destruct notified. }
  assert (notified ≠ []) as Hnn by (by destruct notified).
  match type of Hout with
  | _ = act_try_catch (act_bind (lift _) _) _ ?r =>
      destruct (resolveSlackTarget_total w notified config tracker (base r))
        as (s9 & target & H9)
  end.
  step_inr Hout H9.
  match type of Hout with
  | _ = act_try_catch (act_bind (Slack.sendNotification _ _ _ ?ns ?md) _) _ ?r =>
      destruct (sendNotification_run w rt target ns md r)
        as (rs10 & r10 & m & heading & footer & entries & H10 & Hout10 & Hfailed10
            & Hposted10 & Hchannel & Hh & Hf & Hblocks & Hlog & Hsend)
  end.
  assert (announces rt m notified) as Hann.
  { exists heading, footer. split_and!; [done..|]. by rewrite Hblocks, map_map. }
  assert (∃ s3, result (Main.resolveSlackTarget w notified config tracker) s3
                = inr (Runtime.channel m)) as (sc & Hc).
  { eexists. unfold result. by rewrite H9, Hchannel. }
  destruct (send_failure (Runtime.chat_postMessage rt m)) as [msg|] eqn:Hsf.
  - destruct Hsend as (e & -> & He).
    rewrite (catch_bind_inl _ _ _ _ _ _ H10) in Hout.
    subst out. eexists. split; [reflexivity|]. right. right.
    split; [done|]. exists sa, tracker, sb, fetched. split_and!; [done..|].
    right. split; [done|]. exists m, sc. split_and!; [by effects|done|done|].
    rewrite Hsf. effects. rewrite Hout10, He. effects. split_and!; [done..|].
    unfold logged. cbn. rewrite elem_of_app, list_elem_of_singleton. by right.
  - destruct Hsend as (response & Hresp & ->).
    rewrite (catch_bind_inr _ _ _ _ _ _ H10) in Hout. cbn beta in Hout.
    step_log Hout. step_output Hout. rewrite length_map in Hout.
    destruct (Js.truthy (Runtime.ts response)) eqn:Hts.
    + rewrite catch_setOutput_last in Hout.
      subst out. eexists. split; [reflexivity|]. right. right.
      split; [done|]. exists sa, tracker, sb, fetched. split_and!; [done..|].
      right. split; [done|]. exists m, sc. split_and!; [by effects|done|done|].
      rewrite Hsf. exists response. rewrite Hts. effects. rewrite Hout10, Hfailed10.
      effects. done.
    + subst out. eexists. split; [reflexivity|]. right. right.
      split; [done|]. exists sa, tracker, sb, fetched. split_and!; [done..|].
      right. split; [done|]. exists m, sc. split_and!; [by effects|done|done|].
      rewrite Hsf. exists response. rewrite Hts. effects. rewrite Hout10, Hfailed10.
      effects. done.
Qed.

Lemma run_not_loaded rs s1 e :
  Runtime.loadConfig rt (at_start rs) = (s1, inl e) →
  ∃ rs', Main.run w rt rs = (rs', inr tt)
    ∧ outputs rs' = outputs rs
    ∧ failed rs' = Some (Logger.error_message e)
    ∧ posted rs' = posted rs
    ∧ logged LError ("[Main] Action failed: " +:+ Logger.error_message e) (base rs').
Proof.
  intros Hload. remember (Main.run w rt rs) as out eqn:Hout.
  unfold Main.run, mbind, Act_bind, mret, Act_ret in Hout.
  step_log Hout. step_inl Hout Hload.
  subst out. eexists. split; [reflexivity|]. effects. split_and!; try done.
  unfold logged. cbn. rewrite elem_of_app, list_elem_of_singleton. by right.
Qed.

End Running.

Lemma run_nothing (rt : Runtime.t) rs config s1 :
  Runtime.loadConfig rt (at_start rs) = (s1, inr config) →
  found (Factory.getProjectKey config) (pushed rt) = [] →
  ∃ rs', (∀ w, Main.run w rt rs = (rs', inr tt))
    ∧ outputs rs' = outputs rs ++ [("tickets_found", OutNumber 0);
                                   ("tickets_notified", OutNumber 0)]
    ∧ failed rs' = failed rs ∧ posted rs' = posted rs.
Proof.
  intros Hload Hids.
  destruct (getCommitInfo_run rt s1) as (s2 & H2).
  destruct (parseCommits_omap (Factory.getProjectKey config) (pushed rt) s2)
    as (s3 & H3).
  destruct (decide (length (pushed rt) = 0)) as [Hlen|Hlen].
  - eexists. split.
    + intros w. remember (Main.run w rt rs) as out eqn:Hout.
      unfold Main.run, mbind, Act_bind, mret, Act_ret in Hout.
      step_log Hout. step_inr Hout Hload. step_inr Hout H2.
      cbn [Main.commits] in Hout. rewrite bool_decide_eq_true_2 in Hout by done.
      step_log Hout. step_output Hout. rewrite catch_setOutput_last in Hout.
      subst out. reflexivity.
    + by effects.
  - eexists. split.
    + intros w. remember (Main.run w rt rs) as out eqn:Hout.
      unfold Main.run, mbind, Act_bind, mret, Act_ret in Hout.
      step_log Hout. step_inr Hout Hload. step_inr Hout H2.
      cbn [Main.commits] in Hout. rewrite bool_decide_eq_false_2 in Hout by done.
      step_inr Hout H3. rewrite getAllTicketIds_found, Hids in Hout.
      rewrite bool_decide_eq_true_2 in Hout by done.
      step_log Hout. step_output Hout. rewrite catch_setOutput_last in Hout.
      subst out. reflexivity.
    + by effects.
Qed.

(** ** The run of the action *)

(** X19. A run never throws.  Either it completes, and then it has set
    both [tickets_found] and [tickets_notified] and reported no failure; or
    it reports a failure with the message of the error, which it also logs,
    and then it has not set [tickets_notified].  It posts at most one
    message. *)
Theorem run_reports (w : World.t) (rt : Runtime.t) (rs : RunState) :
  ∃ rs' new,
    Main.run w rt rs = (rs', inr tt)
    ∧ outputs rs' = outputs rs ++ new
    ∧ (posted rs' = posted rs ∨ ∃ m, posted rs' = posted rs ++ [m])
    ∧ ((failed rs' = failed rs
        ∧ "tickets_found" ∈ new.*1 ∧ "tickets_notified" ∈ new.*1)
       ∨ (∃ msg, failed rs' = Some msg
                 ∧ ("tickets_notified" ∉ new.*1)
                 ∧ logged LError ("[Main] Action failed: " +:+ msg) (base rs'))).
Proof.
  destruct (Runtime.loadConfig rt (at_start rs)) as [s1 [e|config]] eqn:Hload.
  { destruct (run_not_loaded w rt rs s1 e Hload) as (rs' & Hrun & Hout & Hf & Hp & Hl).
    exists rs', []. rewrite app_nil_r. split_and!; [done|done|by left|].
    right. eexists. split_and!; [done| |done]. by intros ?%elem_of_nil. }
  destruct (run_loaded w rt rs config s1 Hload)
    as (rs' & Hrun & [(_ & Hout & Hf & Hp)
                     |[(_ & s & e & _ & Hout & Hf & Hp & Hl)
                      |(_ & s & tracker & s2 & fetched & _ & _
                        & [(_ & Hout & Hf & Hp)|(_ & m & s3 & Hp & _ & _ & Hsend)])]]).
  - eexists rs', _. split_and!; [done|done|by left|]. left. split; [done|].
    simpl. set_solver.
  - eexists rs', _. split_and!; [done|done|by left|]. right. eexists.
    split_and!; [done| |done]. simpl. rewrite list_elem_of_singleton. done.
  - eexists rs', _. split_and!; [done|done|by left|]. left. split; [done|].
    simpl. set_solver.
  - destruct (send_failure (Runtime.chat_postMessage rt m)) as [msg|].
    + destruct Hsend as (Hf & Hout & Hl).
      eexists rs', _. split_and!; [done|done|by right; exists m|]. right. exists msg.
      split_and!; [done| |done]. simpl. rewrite list_elem_of_singleton. done.
    + destruct Hsend as (response & _ & Hf & Hout).
      eexists rs', _. split_and!; [done|done|by right; exists m|]. left.
      split; [done|]. rewrite fmap_app. simpl. set_solver.
Qed.

(** X20. When the configuration loads and the commits of the push hold no
    identifier in scope (or the push has no commits), the run sets
    [tickets_found] and [tickets_notified] to 0, reports no failure and
    posts nothing; it makes no request: it comes to the same whatever the
    trackers and the lookup would answer. *)
Theorem run_without_tickets (rt : Runtime.t) (rs : RunState) (config : Config)
    (Hload : ∀ s, result (Runtime.loadConfig rt) s = inr config)
    (Hnone : found (Factory.getProjectKey config) (pushed rt) = []) :
  ∃ rs',
    (∀ w, Main.run w rt rs = (rs', inr tt))
    ∧ outputs rs' = outputs rs ++ [("tickets_found", OutNumber 0);
                                   ("tickets_notified", OutNumber 0)]
    ∧ failed rs' = failed rs
    ∧ posted rs' = posted rs.
Proof.
  specialize (Hload (at_start rs)). unfold result in Hload.
  destruct (Runtime.loadConfig rt (at_start rs)) as [s1 r] eqn:Hl.
  simpl in Hload. subst r. by apply (run_nothing rt rs config s1).
Qed.

Lemma run_without_tickets_witness :
  ∃ rs',
    (∀ w, Main.run w (push_of linear_config (Some [commit_ab_cd])) rs0 = (rs', inr tt))
    ∧ outputs rs' = [("tickets_found", OutNumber 0); ("tickets_notified", OutNumber 0)]
    ∧ failed rs' = None
    ∧ posted rs' = [].
Proof.
  apply (run_without_tickets (push_of linear_config (Some [commit_ab_cd])) rs0
           linear_config).
  - intros s. reflexivity.
  - vm_compute. reflexivity.
Defined.

(** X21. The identifiers are counted before the tracker is created: when
    the push holds identifiers and the factory refuses the configuration,
    the run has set [tickets_found] to their number, reports the factory's
    message as the failure, sets nothing else and posts nothing. *)
Theorem run_tracker_refused (w : World.t) (rt : Runtime.t) (rs : RunState)
    (config : Config) (e : Error)
    (Hload : ∀ s, result (Runtime.loadConfig rt) s = inr config)
    (Hsome : found (Factory.getProjectKey config) (pushed rt) ≠ [])
    (Hrefused : ∀ s, result (Factory.createIssueTracker config) s = inl e) :
  ∃ rs',
    Main.run w rt rs = (rs', inr tt)
    ∧ outputs rs'
      = outputs rs
        ++ [("tickets_found",
             OutNumber (length (found (Factory.getProjectKey config) (pushed rt))))]
    ∧ failed rs' = Some (Logger.error_message e)
    ∧ posted rs' = posted rs.
Proof.
  specialize (Hload (at_start rs)). unfold result in Hload.
  destruct (Runtime.loadConfig rt (at_start rs)) as [s1 r] eqn:Hl.
  simpl in Hload. subst r.
  destruct (run_loaded w rt rs config s1 Hl)
    as (rs' & Hrun & [(Hids & _)
                     |[(_ & s & e' & He & Hout & Hf & Hp & _)
                      |(_ & s & tracker & _ & _ & Ht & _)]]).
  - done.
  - rewrite Hrefused in He. injection He as <-. by exists rs'.
  - rewrite Hrefused in Ht. done.
Qed.

Lemma run_tracker_refused_witness :
  ∃ rs',
    Main.run demo_world (push_of jira_config_without_base_url (Some [commit_ab_cd])) rs0
    = (rs', inr tt)
    ∧ outputs rs' = [("tickets_found", OutNumber 2)]
    ∧ failed rs'
      = Some (Factory.required_for "jira_base_url" "jira")
    ∧ posted rs' = [].
Proof.
  apply (run_tracker_refused demo_world
           (push_of jira_config_without_base_url (Some [commit_ab_cd])) rs0
           jira_config_without_base_url
           (ConfigurationError (Factory.required_for "jira_base_url" "jira"))).
  - intros s. reflexivity.
  - vm_compute. discriminate.
  - intros s. reflexivity.
Defined.

(** X22. What a run announces.  When the configuration loads and the run
    posts a message, the tracker was created and asked for the identifiers
    found in the push; the message announces, in the tracker's order, the
    issues it returned that are selected: in an active iteration unless
    [onlyActiveSprint] is off, and with a status of [ticketStatusFilter]
    when that is a non-empty list; there is at least one; and the message
    goes to the destination resolved for these issues. *)
Theorem run_announcement (w : World.t) (rt : Runtime.t) (rs : RunState)
    (config : Config) (m : Runtime.Message)
    (Hload : ∀ s, result (Runtime.loadConfig rt) s = inr config)
    (Hposted : posted (Main.run w rt rs).1 = posted rs ++ [m]) :
  ∃ tracker fetched s1 s2 s3,
    result (Factory.createIssueTracker config) s1 = inr tracker
    ∧ result (Factory.getIssues w tracker
                (found (Factory.getProjectKey config) (pushed rt))) s2
      = inr fetched
    ∧ filter (selected config tracker) fetched ≠ []
    ∧ announces rt m (filter (selected config tracker) fetched)
    ∧ result (Main.resolveSlackTarget w (filter (selected config tracker) fetched)
                config tracker) s3
      = inr (Runtime.channel m).
Proof.
  specialize (Hload (at_start rs)). unfold result in Hload.
  destruct (Runtime.loadConfig rt (at_start rs)) as [s1 r] eqn:Hl.
  simpl in Hload. subst r.
  assert (posted rs ≠ posted rs ++ [m]) as Hneq.
  { intros Heq. apply (f_equal length) in Heq. rewrite length_app in Heq.
    simpl in Heq. lia. }
  destruct (run_loaded w rt rs config s1 Hl)
    as (rs' & Hrun & [(_ & _ & _ & Hp)
                     |[(_ & s & e & _ & _ & _ & Hp & _)
                      |(_ & s & tracker & s2 & fetched & Ht & Hf
                        & [(_ & _ & _ & Hp)|(Hn & m' & s3 & Hp & Ha & Hr & _)])]]);
    rewrite Hrun in Hposted; simpl in Hposted; rewrite Hp in Hposted;
    try (by destruct Hneq).
  apply app_inj_tail in Hposted as [_ ->].
  by exists tracker, fetched, s, s2, s3.
Qed.

Lemma run_announcement_witness :
  ∃ tracker fetched s1 s2 s3,
    result (Factory.createIssueTracker linear_config) s1 = inr tracker
    ∧ result (Factory.getIssues ops_world tracker
                (found (Factory.getProjectKey linear_config) (pushed ops_push))) s2
      = inr fetched
    ∧ filter (selected linear_config tracker) fetched ≠ []
    ∧ announces ops_push ops_message (filter (selected linear_config tracker) fetched)
    ∧ result (Main.resolveSlackTarget ops_world
                (filter (selected linear_config tracker) fetched)
                linear_config tracker) s3
      = inr (Runtime.channel ops_message).
Proof.
  apply (run_announcement ops_world ops_push rs0 linear_config ops_message).
  - intros s. reflexivity.
  - vm_compute. reflexivity.
Defined.

(** X23. What a run reports after it posted a message [m].  When the
    platform answered [ok], the run reports no failure and sets
    [tickets_found] to the number of identifiers found,
    [tickets_notified] to the number of issues announced, and
    [slack_message_ts] when the answer has a timestamp.  Otherwise the run
    reports the failure of the sending and leaves [tickets_notified]
    unset. *)
Theorem run_after_post (w : World.t) (rt : Runtime.t) (rs : RunState)
    (config : Config) (m : Runtime.Message)
    (Hload : ∀ s, result (Runtime.loadConfig rt) s = inr config)
    (Hposted : posted (Main.run w rt rs).1 = posted rs ++ [m]) :
  let rs' := (Main.run w rt rs).1 in
  let tickets_found :=
    ("tickets_found",
     OutNumber (length (found (Factory.getProjectKey config) (pushed rt)))) in
  match send_failure (Runtime.chat_postMessage rt m) with
  | None =>
      ∃ response issues,
        Runtime.chat_postMessage rt m = Runtime.Answered response
        ∧ announces rt m issues
        ∧ failed rs' = failed rs
        ∧ outputs rs'
          = outputs rs
            ++ [tickets_found; ("tickets_notified", OutNumber (length issues))]
            ++ (if Js.truthy (Runtime.ts response)
                then [("slack_message_ts", OutString (default "" (Runtime.ts response)))]
                else [])
  | Some msg =>
      failed rs' = Some msg ∧ outputs rs' = outputs rs ++ [tickets_found]
  end.
Proof.
  specialize (Hload (at_start rs)). unfold result in Hload.
  destruct (Runtime.loadConfig rt (at_start rs)) as [s1 r] eqn:Hl.
  simpl in Hload. subst r.
  assert (posted rs ≠ posted rs ++ [m]) as Hneq.
  { intros Heq. apply (f_equal length) in Heq. rewrite length_app in Heq.
    simpl in Heq. lia. }
  destruct (run_loaded w rt rs config s1 Hl)
    as (rs' & Hrun & [(_ & _ & _ & Hp)
                     |[(_ & s & e & _ & _ & _ & Hp & _)
                      |(_ & s & tracker & s2 & fetched & Ht & Hf
                        & [(_ & _ & _ & Hp)|(Hn & m' & s3 & Hp & Ha & Hr & Hsend)])]]);
    rewrite Hrun in Hposted |- *; simpl in Hposted; rewrite Hp in Hposted;
    try (by destruct Hneq).
  apply app_inj_tail in Hposted as [_ ->]. cbn [fst].
  destruct (send_failure (Runtime.chat_postMessage rt m)) as [msg|].
  - by destruct Hsend as (? & ? & _).
  - destruct Hsend as (response & ? & ? & ?). by eexists response, _.
Qed.

Lemma run_after_post_witness :
  ∃ response issues,
    Runtime.chat_postMessage ops_push ops_message = Runtime.Answered response
    ∧ announces ops_push ops_message issues
    ∧ failed (Main.run ops_world ops_push rs0).1 = None
    ∧ outputs (Main.run ops_world ops_push rs0).1
      = [("tickets_found", OutNumber 1); ("tickets_notified", OutNumber (length issues))]
        ++ (if Js.truthy (Runtime.ts response)
            then [("slack_message_ts", OutString (default "" (Runtime.ts response)))]
            else []).
Proof.
  apply (run_after_post ops_world ops_push rs0 linear_config ops_message).
  - intros s. reflexivity.
  - vm_compute. reflexivity.
Defined.

Example run_refused :
  ∃ rs' m,
    Main.run ops_world (refused_push_of linear_config (Some [commit_ops])) rs0
    = (rs', inr tt)
    ∧ posted rs' = [m]
    ∧ failed rs' = Some "Failed to send Slack message"
    ∧ outputs rs' = [("tickets_found", OutNumber 1)].
Proof. vm_compute. eexists _, _. split_and!; reflexivity. Qed.

(** ** The active cycle of a team *)

(** X24. [getActiveCycle] never throws.  It returns the active cycle of the
    backend's answer when the answer has no errors and names one, and
    [null] in every other case: errors in the answer, no data, no active
    cycle, a failed request.  The state of the cycle is not evaluated and
    the team key of the adapter plays no part. *)
Theorem getActiveCycle_spec (r : Remote.t) (this : Linear.LinearService)
    (teamId : string) (s : State) :
  ∃ s',
    Linear.getActiveCycle r this teamId s
    = (s', inr match Remote.linear_active_cycle r teamId with
               | Response response =>
                   match Remote.cycle_errors response with
                   | Some _ => None
                   | None => mjoin (Remote.activeCycle response)
                   end
               | Failure _ _ _ => None
               end)
    ∧ ∀ this', result (Linear.getActiveCycle r this' teamId) s
               = result (Linear.getActiveCycle r this teamId) s.
Proof.
  unfold result, Linear.getActiveCycle, Linear.request. unfold_M.
  destruct (Remote.linear_active_cycle r teamId) as [[cyc errs]|]; cbn beta iota.
  - cbn [Remote.cycle_errors Remote.activeCycle]. destruct errs as [errs|].
    + rewrite bool_decide_eq_true_2 by (by eexists). by eexists.
    + rewrite bool_decide_eq_false_2 by apply is_Some_None.
      destruct cyc as [[c|]|]; by eexists.
  - by eexists.
Qed.
